(** * An Entity-Component-System engine: model and properties

    The engine is the class [ECS] of the repository.  Its state is a record
    holding the two JavaScript [Map]s ([systems], [entities]), the clock
    baseline [start], the frame [delta], the destroy queue
    [entitiesToDestroy] and the static entity counter.  Methods are state
    transformers that may throw; a thrown error leaves the mutations made so
    far in place, as in JavaScript.

    Numbers ([Entity], [ComponentType], clock readings) are integers: the
    counters start at 0 and grow by 1, clock readings are whole
    milliseconds, and all of them stay in the range where JavaScript
    arithmetic on them is exact. *)

From Stdlib Require Import List ZArith Bool Lia.
Import ListNotations.
Local Open Scope Z_scope.

(** ** JavaScript [Set<number>]: elements in insertion order, no repeats *)
Module JsSet.

Definition t := list Z.

Definition has (x : Z) (s : t) : bool := existsb (Z.eqb x) s.

(** [s.add(x)]: appended when new, untouched otherwise. *)
Definition add (x : Z) (s : t) : t := if has x s then s else s ++ [x].

(** [s.delete(x)]. *)
Definition delete (x : Z) (s : t) : t := filter (fun y => negb (Z.eqb x y)) s.

End JsSet.

(** ** JavaScript [Map<K, V>]: entries in insertion order, keys unique *)
Module JsMap.
Section Defs.

Context {K V : Type} (K_dec : forall a b : K, {a = b} + {a <> b}).

Definition t := list (K * V).

Fixpoint get (k : K) (m : t) : option V :=
  match m with
  | [] => None
  | (k', v) :: rest => if K_dec k k' then Some v else get k rest
  end.

Definition has (k : K) (m : t) : bool :=
  match get k m with Some _ => true | None => false end.

(** [m.set(k, v)]: an existing key keeps its place and takes the new
    value; a new key goes to the end. *)
Fixpoint set (k : K) (v : V) (m : t) : t :=
  match m with
  | [] => [(k, v)]
  | (k', v') :: rest =>
      if K_dec k k' then (k, v) :: rest else (k', v') :: set k v rest
  end.

(** [m.delete(k)]. *)
Definition delete (k : K) (m : t) : t :=
  filter (fun p => if K_dec k (fst p) then false else true) m.

Definition keys (m : t) : list K := map fst m.

End Defs.
End JsMap.

(** ** Data model *)

Definition Entity := Z.
Definition ComponentType := Z.

(** [abstract class System]: an object (identified by [sys_id]) with its
    [requiredComponents], a [Set<ComponentType>] listed in insertion
    order.  Its [update] method is external code and is supplied to
    [update] frame by frame (see [Behaviour]). *)
Record System := {
  sys_id : Z;
  requiredComponents : list ComponentType
}.

Definition System_dec (a b : System) : {a = b} + {a <> b}.
Proof.
  decide equality.
  - apply (list_eq_dec Z.eq_dec).
  - apply Z.eq_dec.
Defined.

(** The two [throw new Error(...)] sites of the engine, and an error raised
    by a system's own code. *)
Inductive Error :=
| UnknownEntity (entity : Entity)
    (* `Entity ${entity} does not exist.` *)
| MissingComponent (entity : Entity) (componentType : ComponentType)
    (* `Entity ${entity} does not have component ${componentType.type}.` *)
| SystemFailure (code : Z).

Inductive Result (A : Type) :=
| Ok (a : A)
| Threw (err : Error).
Arguments Ok {A} a.
Arguments Threw {A} err.

Section Model.

Variable Data : Type.

(** [class Component<T>]. *)
Record Component := {
  data : Data;
  type : ComponentType
}.

(** [type ComponentCreator<T>]: the type identifier and the constructor
    bound to it. *)
Record ComponentCreator := {
  creator_type : ComponentType
}.

Definition create (creator : ComponentCreator) (d : Data) : Component :=
  {| data := d; type := creator_type creator |}.

Definition Components := @JsMap.t ComponentType Component.

Record ECS := {
  systems : @JsMap.t System JsSet.t;
  entities : @JsMap.t Entity Components;
  start : Z;
  delta : Z;
  entitiesToDestroy : list Entity;
  nextEntityID : Z;        (* private static *)
  nextComponentType : Z    (* private static *)
}.

(** [new ECS()] at clock reading [now]; the static counters have whatever
    value earlier allocations left them with. *)
Definition new_ECS (now nextE nextC : Z) : ECS :=
  {| systems := []; entities := []; start := now; delta := 0;
     entitiesToDestroy := []; nextEntityID := nextE;
     nextComponentType := nextC |}.

Definition with_systems (st : ECS) (s : @JsMap.t System JsSet.t) : ECS :=
  {| systems := s; entities := entities st; start := start st;
     delta := delta st; entitiesToDestroy := entitiesToDestroy st;
     nextEntityID := nextEntityID st;
     nextComponentType := nextComponentType st |}.

Definition with_entities (st : ECS) (e : @JsMap.t Entity Components) : ECS :=
  {| systems := systems st; entities := e; start := start st;
     delta := delta st; entitiesToDestroy := entitiesToDestroy st;
     nextEntityID := nextEntityID st;
     nextComponentType := nextComponentType st |}.

Definition with_queue (st : ECS) (q : list Entity) : ECS :=
  {| systems := systems st; entities := entities st; start := start st;
     delta := delta st; entitiesToDestroy := q;
     nextEntityID := nextEntityID st;
     nextComponentType := nextComponentType st |}.

(** ** Methods as state transformers that may throw *)

Definition M (A : Type) := ECS -> Result A * ECS.

Definition ret {A} (a : A) : M A := fun st => (Ok a, st).

Definition throw {A} (err : Error) : M A := fun st => (Threw err, st).

Definition bind {A B} (m : M A) (f : A -> M B) : M B :=
  fun st =>
    match m st with
    | (Ok a, st') => f a st'
    | (Threw err, st') => (Threw err, st')
    end.

Definition modify (f : ECS -> ECS) : M unit := fun st => (Ok tt, f st).

Notation "x <- m ;; f" := (bind m (fun x => f))
  (at level 61, m at next level, right associativity).
Notation "m ;;; f" := (bind m (fun _ => f))
  (at level 61, right associativity).

(** [for (const x of l) body(x)] over a sequence that the body does not
    change. *)
Fixpoint for_of {A} (l : list A) (body : A -> M unit) : M unit :=
  match l with
  | [] => ret tt
  | x :: rest => body x ;;; for_of rest body
  end.

(** [for (const [system, entities] of this.systems) body]: the keys are
    walked in insertion order and each [entities] is the live [Set] stored
    under its key at the time the entry is visited. *)
Definition for_systems (body : System -> JsSet.t -> M unit) : M unit :=
  fun st =>
    for_of (JsMap.keys (systems st))
      (fun system st' =>
         match JsMap.get System_dec system (systems st') with
         | Some ents => body system ents st'
         | None => (Ok tt, st')
         end) st.

(** In-place mutation of the [Set] stored under [system]. *)
Definition write_members (system : System) (ents : JsSet.t) : M unit :=
  modify (fun st =>
    with_systems st (JsMap.set System_dec system ents (systems st))).

(** [static registerComponent<T>()]. *)
Definition registerComponent : M ComponentCreator :=
  fun st =>
    (Ok {| creator_type := nextComponentType st |},
     {| systems := systems st; entities := entities st; start := start st;
        delta := delta st; entitiesToDestroy := entitiesToDestroy st;
        nextEntityID := nextEntityID st;
        nextComponentType := nextComponentType st + 1 |}).

(** [addEntity()]. *)
Definition addEntity : M Entity :=
  fun st =>
    let entity := nextEntityID st in
    (Ok entity,
     {| systems := systems st;
        entities := JsMap.set Z.eq_dec entity [] (entities st);
        start := start st; delta := delta st;
        entitiesToDestroy := entitiesToDestroy st;
        nextEntityID := nextEntityID st + 1;
        nextComponentType := nextComponentType st |}).

(** [removeEntity(entity)]. *)
Definition removeEntity (entity : Entity) : M unit :=
  modify (fun st => with_queue st (entitiesToDestroy st ++ [entity])).

(** [getComponents(entity)]. *)
Definition getComponents (entity : Entity) : M Components :=
  fun st =>
    match JsMap.get Z.eq_dec entity (entities st) with
    | None => (Threw (UnknownEntity entity), st)
    | Some entityComponents => (Ok entityComponents, st)
    end.

(** The test of [updateEntitySystems]: the inner loop with its [break]. *)
Definition hasAllRequired (system : System) (entityComponents : Components)
  : bool :=
  forallb (fun componentType =>
             JsMap.has Z.eq_dec componentType entityComponents)
          (requiredComponents system).

(** [updateEntitySystems(entity)]. *)
Definition updateEntitySystems (entity : Entity) : M unit :=
  for_systems (fun system ents =>
    entityComponents <- getComponents entity ;;
    if hasAllRequired system entityComponents
    then write_members system (JsSet.add entity ents)
    else write_members system (JsSet.delete entity ents)).

(** The inner map returned by [getComponents] is mutated in place: the
    entry of [entity] keeps its position in [entities]. *)
Definition write_components (entity : Entity) (cs : Components) : M unit :=
  modify (fun st =>
    with_entities st (JsMap.set Z.eq_dec entity cs (entities st))).

(** [addComponent(entity, component)]. *)
Definition addComponent (entity : Entity) (component : Component) : M unit :=
  entityComponents <- getComponents entity ;;
  write_components entity
    (JsMap.set Z.eq_dec (type component) component entityComponents) ;;;
  updateEntitySystems entity.

(** [removeComponent(entity, component)]. *)
Definition removeComponent (entity : Entity) (component : Component)
  : M unit :=
  entityComponents <- getComponents entity ;;
  write_components entity
    (JsMap.delete Z.eq_dec (type component) entityComponents) ;;;
  updateEntitySystems entity.

(** [getComponent(entity, componentType)]. *)
Definition getComponent (entity : Entity) (componentType : ComponentCreator)
  : M Data :=
  entityComponents <- getComponents entity ;;
  match JsMap.get Z.eq_dec (creator_type componentType) entityComponents with
  | None => throw (MissingComponent entity (creator_type componentType))
  | Some component => ret (data component)
  end.

(** [addSystem(system)]. *)
Definition addSystem (system : System) : M unit :=
  modify (fun st =>
    with_systems st (JsMap.set System_dec system [] (systems st))) ;;;
  (fun st => for_of (JsMap.keys (entities st)) updateEntitySystems st).

(** [removeSystem(system)]. *)
Definition removeSystem (system : System) : M unit :=
  modify (fun st =>
    with_systems st (JsMap.delete System_dec system (systems st))).

(** [destroyEntity(entity)]. *)
Definition destroyEntity (entity : Entity) : M unit :=
  modify (fun st =>
    with_entities st (JsMap.delete Z.eq_dec entity (entities st))) ;;;
  for_systems (fun system ents =>
    write_members system (JsSet.delete entity ents)).

End Model.

Arguments data {Data} c.
Arguments type {Data} c.
Arguments create {Data} creator d.
Arguments systems {Data} e.
Arguments entities {Data} e.
Arguments start {Data} e.
Arguments delta {Data} e.
Arguments entitiesToDestroy {Data} e.
Arguments nextEntityID {Data} e.
Arguments nextComponentType {Data} e.
Arguments with_systems {Data} st s.
Arguments with_entities {Data} st e.
Arguments with_queue {Data} st q.
Arguments ret {Data A} a st.
Arguments throw {Data A} err st.
Arguments bind {Data A B} m f st.
Arguments modify {Data} f st.
Arguments for_of {Data A} l body.
Arguments for_systems {Data} body st.
Arguments write_members {Data} system ents.
Arguments write_components {Data} entity cs.
Arguments registerComponent {Data} st.
Arguments addEntity {Data} st.
Arguments removeEntity {Data} entity.
Arguments getComponents {Data} entity st.
Arguments hasAllRequired {Data} system entityComponents.
Arguments updateEntitySystems {Data} entity.
Arguments addComponent {Data} entity component.
Arguments removeComponent {Data} entity component.
Arguments getComponent {Data} entity componentType.
Arguments addSystem {Data} system.
Arguments removeSystem {Data} system.
Arguments destroyEntity {Data} entity.

Notation "x <- m ;; f" := (bind m (fun x => f))
  (at level 61, m at next level, right associativity).
Notation "m ;;; f" := (bind m (fun _ => f))
  (at level 61, right associativity).

(** ** Systems' code and the frame driver

    A system's [update(entities, ecs)] is external code.  It is modelled by
    the calls it makes on the engine handle it receives, each followed by
    what it does with the answer (an answer [Raised err] is an exception it
    caught; it re-throws with [Raise]).  The calls are those a system makes
    during a pass: entity creation and destruction requests, component
    mutation, component reads, the frame delta, and reading the [entities]
    set it was handed (a live [Set]).  A system only reads that set and the
    maps returned by [getComponents]; it does not register or unregister
    systems and does not call [update] from within [update], so the keys
    of [systems] are the same all along a pass. *)
Section Driver.

Variable Data : Type.

Inductive Call :=
| CallAddEntity
| CallRemoveEntity (entity : Entity)
| CallAddComponent (entity : Entity) (component : Component Data)
| CallRemoveComponent (entity : Entity) (component : Component Data)
| CallGetComponent (entity : Entity) (componentType : ComponentCreator)
| CallGetComponents (entity : Entity)
| CallDelta
| CallEntities.

Inductive Answer :=
| Void
| AnEntity (entity : Entity)
| AData (d : Data)
| AComponents (cs : Components Data)
| ANumber (z : Z)
| AnEntitySet (ents : JsSet.t)
| Raised (err : Error).

Inductive Prog :=
| Return
| Raise (err : Error)
| Do (c : Call) (k : Answer -> Prog).

(** What each registered system does in one frame, given the set it is
    handed. *)
Definition Behaviour := System -> JsSet.t -> Prog.

Definition answer {A} (wrap : A -> Answer) (m : M Data A)
  : ECS Data -> Answer * ECS Data :=
  fun st =>
    match m st with
    | (Ok a, st') => (wrap a, st')
    | (Threw err, st') => (Raised err, st')
    end.

Definition exec_call (system : System) (c : Call)
  : ECS Data -> Answer * ECS Data :=
  match c with
  | CallAddEntity => answer AnEntity addEntity
  | CallRemoveEntity entity => answer (fun _ => Void) (removeEntity entity)
  | CallAddComponent entity component =>
      answer (fun _ => Void) (addComponent entity component)
  | CallRemoveComponent entity component =>
      answer (fun _ => Void) (removeComponent entity component)
  | CallGetComponent entity componentType =>
      answer AData (getComponent entity componentType)
  | CallGetComponents entity => answer AComponents (getComponents entity)
  | CallDelta => fun st => (ANumber (delta st), st)
  | CallEntities => fun st =>
      (AnEntitySet
         (match JsMap.get System_dec system (systems st) with
          | Some ents => ents
          | None => []
          end), st)
  end.

(** Ghost record of a pass: which system was invoked with which set, and
    every engine call made by a system, each with the engine state right
    after it. *)
Inductive Event :=
| Invoked (system : System) (ents : JsSet.t) (st : ECS Data)
| Called (system : System) (c : Call) (a : Answer) (st : ECS Data).

Definition event_state (ev : Event) : ECS Data :=
  match ev with
  | Invoked _ _ st => st
  | Called _ _ _ st => st
  end.

Definition Outcome := (list Event * Result unit * ECS Data)%type.

(** One [system.update(entities, this)]. *)
Fixpoint run (system : System) (p : Prog) (st : ECS Data) : Outcome :=
  match p with
  | Return => ([], Ok tt, st)
  | Raise err => ([], Threw err, st)
  | Do c k =>
      let (a, st1) := exec_call system c st in
      let '(tr, r, st2) := run system (k a) st1 in
      (Called system c a st1 :: tr, r, st2)
  end.

(** The first loop of [update]: an exception leaves the loop at once. *)
Fixpoint systems_pass (beh : Behaviour) (todo : list System)
    (st : ECS Data) : Outcome :=
  match todo with
  | [] => ([], Ok tt, st)
  | system :: rest =>
      match JsMap.get System_dec system (systems st) with
      | None => systems_pass beh rest st
      | Some ents =>
          let '(tr1, r, st1) := run system (beh system ents) st in
          match r with
          | Threw err => (Invoked system ents st :: tr1, Threw err, st1)
          | Ok _ =>
              let '(tr2, r2, st2) := systems_pass beh rest st1 in
              (Invoked system ents st :: tr1 ++ tr2, r2, st2)
          end
      end
  end.

(** The second loop of [update] and the reset of the queue. *)
Definition flush : M Data unit :=
  (fun st => for_of (entitiesToDestroy st) destroyEntity st) ;;;
  modify (fun st => with_queue st []).

Definition tick (now : Z) (st : ECS Data) : ECS Data :=
  {| systems := systems st; entities := entities st; start := now;
     delta := now - start st; entitiesToDestroy := entitiesToDestroy st;
     nextEntityID := nextEntityID st;
     nextComponentType := nextComponentType st |}.

(** [update()], with the clock reading [now] that [Date.now()] returns and
    the systems' behaviour in this frame; the ghost record comes first. *)
Definition update_traced (now : Z) (beh : Behaviour) (st : ECS Data)
  : Outcome :=
  let st0 := tick now st in
  let '(tr, r, st1) := systems_pass beh (JsMap.keys (systems st0)) st0 in
  match r with
  | Threw err => (tr, Threw err, st1)
  | Ok _ => let (r2, st2) := flush st1 in (tr, r2, st2)
  end.

Definition update (now : Z) (beh : Behaviour) : M Data unit :=
  fun st => let '(_, r, st') := update_traced now beh st in (r, st').

(** The systems invoked by a pass, in order. *)
Fixpoint invocations (tr : list Event) : list (System * JsSet.t) :=
  match tr with
  | [] => []
  | Invoked system ents _ :: rest => (system, ents) :: invocations rest
  | Called _ _ _ _ :: rest => invocations rest
  end.

(** ** Sequences of calls made by the application *)
Inductive Op :=
| OpAddEntity
| OpRemoveEntity (entity : Entity)
| OpAddComponent (entity : Entity) (component : Component Data)
| OpRemoveComponent (entity : Entity) (component : Component Data)
| OpGetComponents (entity : Entity)
| OpGetComponent (entity : Entity) (componentType : ComponentCreator)
| OpAddSystem (system : System)
| OpRemoveSystem (system : System)
| OpRegisterComponent
| OpUpdate (now : Z) (beh : Behaviour).

(** The engine after a call, whether it returned or threw. *)
Definition apply_op (op : Op) (st : ECS Data) : ECS Data :=
  match op with
  | OpAddEntity => snd (addEntity st)
  | OpRemoveEntity entity => snd (removeEntity entity st)
  | OpAddComponent entity component => snd (addComponent entity component st)
  | OpRemoveComponent entity component =>
      snd (removeComponent entity component st)
  | OpGetComponents entity => snd (getComponents entity st)
  | OpGetComponent entity componentType =>
      snd (getComponent entity componentType st)
  | OpAddSystem system => snd (addSystem system st)
  | OpRemoveSystem system => snd (removeSystem system st)
  | OpRegisterComponent => snd (registerComponent st)
  | OpUpdate now beh => snd (update now beh st)
  end.

Definition apply_ops (ops : list Op) (st : ECS Data) : ECS Data :=
  fold_left (fun acc op => apply_op op acc) ops st.

(** Engine states that a program can be in. *)
Inductive reachable : ECS Data -> Prop :=
| reachable_new (now nextE nextC : Z) :
    reachable (new_ECS Data now nextE nextC)
| reachable_step (op : Op) (st : ECS Data) :
    reachable st -> reachable (apply_op op st).

(** ** Vocabulary of the properties *)

Definition registered (entity : Entity) (st : ECS Data) : Prop :=
  In entity (JsMap.keys (entities st)).

(** [entity] is in the membership set of [system]. *)
Definition member (entity : Entity) (system : System) (st : ECS Data)
  : Prop :=
  exists ents, JsMap.get System_dec system (systems st) = Some ents
               /\ In entity ents.

(** The component-type set of [entity] includes [requiredComponents]. *)
Definition qualifies (entity : Entity) (system : System) (st : ECS Data)
  : Prop :=
  exists cs, JsMap.get Z.eq_dec entity (entities st) = Some cs
             /\ hasAllRequired system cs = true.

Definition system_registered (system : System) (st : ECS Data) : Prop :=
  In system (JsMap.keys (systems st)).

(** [entity] occurs neither in the store nor in any membership set. *)
Definition absent (entity : Entity) (st : ECS Data) : Prop :=
  ~ registered entity st /\ forall system, ~ member entity system st.

(** Boolean readings of the same notions. *)
Definition registeredb (entity : Entity) (st : ECS Data) : bool :=
  JsMap.has Z.eq_dec entity (entities st).

Definition memberb (entity : Entity) (system : System) (st : ECS Data)
  : bool :=
  match JsMap.get System_dec system (systems st) with
  | Some ents => JsSet.has entity ents
  | None => false
  end.

Definition qualifiesb (entity : Entity) (system : System) (st : ECS Data)
  : bool :=
  match JsMap.get Z.eq_dec entity (entities st) with
  | Some cs => hasAllRequired system cs
  | None => false
  end.

(** The component stored for [entity] under type [ty]. *)
Definition component_at (entity : Entity) (ty : ComponentType)
    (st : ECS Data) : option (Component Data) :=
  match JsMap.get Z.eq_dec entity (entities st) with
  | Some cs => JsMap.get Z.eq_dec ty cs
  | None => None
  end.

(** A call that writes the slot of [entity] for type [ty]. *)
Definition touches (entity : Entity) (ty : ComponentType) (c : Call)
  : Prop :=
  match c with
  | CallAddComponent e' c' => e' = entity /\ type c' = ty
  | CallRemoveComponent e' c' => e' = entity /\ type c' = ty
  | _ => False
  end.

(** [op], applied in [st], neither writes that slot nor destroys
    [entity]: for a frame, no system writes the slot and the entity is
    still in the store when [update] is over. *)
Definition keeps (entity : Entity) (ty : ComponentType) (op : Op)
    (st : ECS Data) : Prop :=
  match op with
  | OpAddComponent e' c' => ~ (e' = entity /\ type c' = ty)
  | OpRemoveComponent e' c' => ~ (e' = entity /\ type c' = ty)
  | OpUpdate now beh =>
      (forall system c a st1,
         In (Called system c a st1) (fst (fst (update_traced now beh st))) ->
         ~ touches entity ty c)
      /\ registered entity (snd (update_traced now beh st))
  | _ => True
  end.

Fixpoint undisturbed (entity : Entity) (ty : ComponentType)
    (ops : list Op) (st : ECS Data) : Prop :=
  match ops with
  | [] => True
  | op :: rest =>
      keeps entity ty op st
      /\ undisturbed entity ty rest (apply_op op st)
  end.

(** Calls other than [update]. *)
Definition is_update (op : Op) : bool :=
  match op with
  | OpUpdate _ _ => true
  | _ => false
  end.

Definition no_update (ops : list Op) : Prop :=
  Forall (fun op => is_update op = false) ops.

(** The order of the keys of [systems], from the history of calls: a new
    system goes to the end, a registered one keeps its place, a removed
    one leaves. *)
Definition registration_step (acc : list System) (op : Op) : list System :=
  match op with
  | OpAddSystem system =>
      if in_dec System_dec system acc then acc else acc ++ [system]
  | OpRemoveSystem system =>
      filter (fun s => if System_dec system s then false else true) acc
  | _ => acc
  end.

Definition registration_order (ops : list Op) : list System :=
  fold_left registration_step ops [].

(** The other reading of "registration order": the systems in the order
    in which [addSystem] was first called with each of them, whatever was
    removed in between. *)
Definition first_added_step (acc : list System) (op : Op) : list System :=
  match op with
  | OpAddSystem system =>
      if in_dec System_dec system acc then acc else acc ++ [system]
  | _ => acc
  end.

(** Of these, the systems that are registered after [ops]. *)
Definition first_registration_order (ops : list Op) : list System :=
  filter (fun s => if in_dec System_dec s (registration_order ops)
                   then true else false)
    (fold_left first_added_step ops []).

(** ** Closed forms of the loops, used to state what a call leaves behind *)

(** Every stored set rewritten by [f]. *)
Definition map_values (f : System -> JsSet.t -> JsSet.t)
    (s : @JsMap.t System JsSet.t) : @JsMap.t System JsSet.t :=
  map (fun p => (fst p, f (fst p) (snd p))) s.

(** The decision of [updateEntitySystems] for one system. *)
Definition recompute (entity : Entity) (cs : Components Data)
    (system : System) (ents : JsSet.t) : JsSet.t :=
  if hasAllRequired system cs then JsSet.add entity ents
  else JsSet.delete entity ents.

(** [destroyEntity] written out. *)
Definition destroyed (entity : Entity) (st : ECS Data) : ECS Data :=
  with_systems
    (with_entities st (JsMap.delete Z.eq_dec entity (entities st)))
    (map_values (fun _ ents => JsSet.delete entity ents) (systems st)).

(** What [addComponent] and [removeComponent] leave behind when the
    entity's component map becomes [cs]. *)
Definition updated (entity : Entity) (cs : Components Data) (st : ECS Data)
  : ECS Data :=
  with_systems
    (with_entities st (JsMap.set Z.eq_dec entity cs (entities st)))
    (map_values (recompute entity cs) (systems st)).

(** The scan of [addSystem] over the entities [l]. *)
Definition rescan_step (E : @JsMap.t Entity (Components Data))
    (S : @JsMap.t System JsSet.t) (entity : Entity)
  : @JsMap.t System JsSet.t :=
  match JsMap.get Z.eq_dec entity E with
  | Some cs => map_values (recompute entity cs) S
  | None => S
  end.

Definition rescan (E : @JsMap.t Entity (Components Data))
    (l : list Entity) (S : @JsMap.t System JsSet.t)
  : @JsMap.t System JsSet.t :=
  fold_left (rescan_step E) l S.

(** One membership set after that scan. *)
Definition rescan_set (E : @JsMap.t Entity (Components Data))
    (system : System) (l : list Entity) (ents : JsSet.t) : JsSet.t :=
  fold_left
    (fun acc entity =>
       match JsMap.get Z.eq_dec entity E with
       | Some cs => recompute entity cs system acc
       | None => acc
       end) l ents.

(** What [addSystem] leaves behind. *)
Definition system_added (system : System) (st : ECS Data) : ECS Data :=
  with_systems st
    (rescan (entities st) (JsMap.keys (entities st))
       (JsMap.set System_dec system [] (systems st))).

(** The second loop of [update] written out. *)
Definition destroy_all (q : list Entity) (st : ECS Data) : ECS Data :=
  fold_left (fun acc entity => destroyed entity acc) q st.

(** The same as a single sweep: everything listed in [q] is dropped. *)
Definition purged (q : list Entity) (st : ECS Data) : ECS Data :=
  with_systems
    (with_entities st
       (filter (fun p => negb (JsSet.has (fst p) q)) (entities st)))
    (map_values (fun _ ents => filter (fun y => negb (JsSet.has y q)) ents)
       (systems st)).

(** Two engines that differ at most in their destroy queues, which hold
    the same identifiers. *)
Definition same_but_queue (st1 st2 : ECS Data) : Prop :=
  st1 = with_queue st2 (entitiesToDestroy st1)
  /\ forall x, In x (entitiesToDestroy st1) <-> In x (entitiesToDestroy st2).

(** What [m] does in [st] neither depends on the queue nor reorders it:
    it appends [extra] to whatever queue it finds. *)
Definition appends {A} (m : ECS Data -> A * ECS Data) (st : ECS Data)
  : Prop :=
  exists extra,
    entitiesToDestroy (snd (m st)) = entitiesToDestroy st ++ extra
    /\ forall q,
         m (with_queue st q)
         = (fst (m st), with_queue (snd (m st)) (q ++ extra)).

(** As [same_but_queue], but the first queue may hold [e] before the
    second does. *)
Definition queue_plus (e : Entity) (st1 st2 : ECS Data) : Prop :=
  st1 = with_queue st2 (entitiesToDestroy st1)
  /\ (forall x, In x (entitiesToDestroy st2) -> In x (entitiesToDestroy st1))
  /\ (forall x, In x (entitiesToDestroy st1) ->
                In x (entitiesToDestroy st2) \/ x = e).

(** [extra_requests e ops ops']: the calls [ops'] are the calls [ops] with
    further [removeEntity(e)] calls put in, anywhere and any number of
    times. *)
Inductive extra_requests (e : Entity) : list Op -> list Op -> Prop :=
| extra_none : extra_requests e [] []
| extra_same (op : Op) (ops ops' : list Op) :
    extra_requests e ops ops' ->
    extra_requests e (op :: ops) (op :: ops')
| extra_more (ops ops' : list Op) :
    extra_requests e ops ops' ->
    extra_requests e ops (OpRemoveEntity e :: ops').

(** [more_requests e p p']: the system code [p'] is [p] with further
    [removeEntity(e)] calls put in. *)
Inductive more_requests (e : Entity) : Prog -> Prog -> Prop :=
| more_return : more_requests e Return Return
| more_raise (err : Error) : more_requests e (Raise err) (Raise err)
| more_do (c : Call) (k k' : Answer -> Prog) :
    (forall a, more_requests e (k a) (k' a)) ->
    more_requests e (Do c k) (Do c k')
| more_extra (p p' : Prog) :
    more_requests e p p' ->
    more_requests e p (Do (CallRemoveEntity e) (fun _ => p')).

(** ** Reading a ghost record

    [chain st tr]: the record [tr] starts in state [st] and every event
    follows from the state before it, an invocation handing over the set
    stored under the system's key and a call being executed by the
    engine. *)
Definition link (st : ECS Data) (ev : Event) : Prop :=
  match ev with
  | Invoked system ents st1 =>
      st1 = st /\ JsMap.get System_dec system (systems st) = Some ents
  | Called system c a st1 => exec_call system c st = (a, st1)
  end.

Fixpoint chain (st : ECS Data) (tr : list Event) : Prop :=
  match tr with
  | [] => True
  | ev :: rest => link st ev /\ chain (event_state ev) rest
  end.

Fixpoint last_state (st : ECS Data) (tr : list Event) : ECS Data :=
  match tr with
  | [] => st
  | ev :: rest => last_state (event_state ev) rest
  end.

(** From [st] to [st']: the clock fields and the keys of [systems] stay,
    the queue, the store and the entity counter only grow. *)
Definition extends (st st' : ECS Data) : Prop :=
  start st' = start st
  /\ delta st' = delta st
  /\ JsMap.keys (systems st') = JsMap.keys (systems st)
  /\ (exists extra,
        entitiesToDestroy st' = entitiesToDestroy st ++ extra)
  /\ (forall e, registered e st -> registered e st')
  /\ nextEntityID st <= nextEntityID st'.

(** The reading of "every registered system is invoked exactly once, in
    registration order" on one frame. *)
Definition every_system_invoked_once (now : Z) (beh : Behaviour)
    (st : ECS Data) : Prop :=
  map fst (invocations (fst (fst (update_traced now beh st))))
  = JsMap.keys (systems st).

(** The reading of "the delta exposed to systems during the second of two
    consecutive frames is non-negative": at every invocation and every
    call of the frame at clock reading [now2] that follows the frame at
    [now1]. *)
Definition second_delta_nonnegative (now1 now2 : Z) (beh1 beh2 : Behaviour)
    (st : ECS Data) : Prop :=
  forall ev,
    In ev (fst (fst (update_traced now2 beh2 (snd (update now1 beh1 st))))) ->
    0 <= delta (event_state ev).

(** The reading of "an entity whose destruction was requested stays in
    every membership set it was in for the rest of the frame". *)
Definition stays_member_for_rest_of_frame (now : Z) (beh : Behaviour)
    (st : ECS Data) : Prop :=
  forall tr1 system e a st1 tr2 ev s',
    fst (fst (update_traced now beh st))
    = tr1 ++ Called system (CallRemoveEntity e) a st1 :: tr2 ->
    In ev tr2 ->
    member e s' st1 -> member e s' (event_state ev).

(** ** The engine invariant

    Keys of [systems] are distinct; identifiers in the store are below the
    counter; a membership set holds only entities that qualify; and a
    system that requires at least one component type has every qualifying
    entity in its set. *)
Definition sound (st : ECS Data) : Prop :=
  forall system entity, member entity system st -> qualifies entity system st.

Definition complete (st : ECS Data) : Prop :=
  forall system entity,
    system_registered system st ->
    requiredComponents system <> [] ->
    qualifies entity system st -> member entity system st.

Definition wf (st : ECS Data) : Prop :=
  NoDup (JsMap.keys (systems st))
  /\ (forall entity, registered entity st -> entity < nextEntityID st)
  /\ sound st
  /\ complete st.

(** An identifier that was in the store and has been destroyed. *)
Definition gone (entity : Entity) (st : ECS Data) : Prop :=
  wf st /\ absent entity st /\ entity < nextEntityID st.

End Driver.

Arguments CallAddEntity {Data}.
Arguments CallRemoveEntity {Data} entity.
Arguments CallAddComponent {Data} entity component.
Arguments CallRemoveComponent {Data} entity component.
Arguments CallGetComponent {Data} entity componentType.
Arguments CallGetComponents {Data} entity.
Arguments CallDelta {Data}.
Arguments CallEntities {Data}.
Arguments Void {Data}.
Arguments AnEntity {Data} entity.
Arguments AData {Data} d.
Arguments AComponents {Data} cs.
Arguments ANumber {Data} z.
Arguments AnEntitySet {Data} ents.
Arguments Raised {Data} err.
Arguments Return {Data}.
Arguments Raise {Data} err.
Arguments Do {Data} c k.
Arguments answer {Data A} wrap m st.
Arguments exec_call {Data} system c st.
Arguments Invoked {Data} system ents st.
Arguments Called {Data} system c a st.
Arguments event_state {Data} ev.
Arguments run {Data} system p st.
Arguments systems_pass {Data} beh todo st.
Arguments flush {Data} st.
Arguments tick {Data} now st.
Arguments update_traced {Data} now beh st.
Arguments update {Data} now beh st.
Arguments invocations {Data} tr.
Arguments OpAddEntity {Data}.
Arguments OpRemoveEntity {Data} entity.
Arguments OpAddComponent {Data} entity component.
Arguments OpRemoveComponent {Data} entity component.
Arguments OpGetComponents {Data} entity.
Arguments OpGetComponent {Data} entity componentType.
Arguments OpAddSystem {Data} system.
Arguments OpRemoveSystem {Data} system.
Arguments OpRegisterComponent {Data}.
Arguments OpUpdate {Data} now beh.
Arguments apply_op {Data} op st.
Arguments apply_ops {Data} ops st.
Arguments reachable {Data} st.
Arguments registered {Data} entity st.
Arguments member {Data} entity system st.
Arguments qualifies {Data} entity system st.
Arguments system_registered {Data} system st.
Arguments absent {Data} entity st.
Arguments registeredb {Data} entity st.
Arguments memberb {Data} entity system st.
Arguments qualifiesb {Data} entity system st.
Arguments component_at {Data} entity ty st.
Arguments touches {Data} entity ty c.
Arguments keeps {Data} entity ty op st.
Arguments undisturbed {Data} entity ty ops st.
Arguments is_update {Data} op.
Arguments no_update {Data} ops.
Arguments registration_step {Data} acc op.
Arguments registration_order {Data} ops.
Arguments first_added_step {Data} acc op.
Arguments first_registration_order {Data} ops.
Arguments map_values f s : simpl never.
Arguments recompute {Data} entity cs system ents.
Arguments destroyed {Data} entity st.
Arguments updated {Data} entity cs st.
Arguments rescan_step {Data} E S entity.
Arguments rescan {Data} E l S.
Arguments rescan_set {Data} E system l ents.
Arguments system_added {Data} system st.
Arguments destroy_all {Data} q st.
Arguments purged {Data} q st.
Arguments same_but_queue {Data} st1 st2.
Arguments appends {Data A} m st.
Arguments queue_plus {Data} e st1 st2.
Arguments extra_requests {Data} e ops ops'.
Arguments extra_none {Data} e.
Arguments extra_same {Data} e op ops ops'.
Arguments extra_more {Data} e ops ops'.
Arguments more_requests {Data} e p p'.
Arguments more_return {Data} e.
Arguments more_raise {Data} e err.
Arguments more_do {Data} e c k k'.
Arguments more_extra {Data} e p p'.
Arguments link {Data} st ev.
Arguments chain {Data} st tr.
Arguments last_state {Data} st tr.
Arguments extends {Data} st st'.
Arguments every_system_invoked_once {Data} now beh st.
Arguments second_delta_nonnegative {Data} now1 now2 beh1 beh2 st.
Arguments sound {Data} st.
Arguments complete {Data} st.
Arguments wf {Data} st.
Arguments gone {Data} entity st.
Arguments stays_member_for_rest_of_frame {Data} now beh st.

(** * Sample programs

    Small engines and system behaviours on which the statements below are
    exercised.  Payloads are integers. *)
Module Sample.

Definition Position : ComponentCreator := {| creator_type := 0 |}.
Definition Tag : ComponentCreator := {| creator_type := 1 |}.

Definition position (d : Z) : Component Z := create Position d.
Definition tag (d : Z) : Component Z := create Tag d.

(** An engine built at clock reading 100, after the two component types
    were registered. *)
Definition fresh : ECS Z := new_ECS Z 100 0 2.

(** A system that requires nothing, one that requires a position, and
    one that requires both. *)
Definition everything : System :=
  {| sys_id := 0; requiredComponents := [] |}.
Definition placed : System :=
  {| sys_id := 1; requiredComponents := [0] |}.
Definition labelled : System :=
  {| sys_id := 2; requiredComponents := [0; 1] |}.

(** Systems that do nothing. *)
Definition idle : Behaviour Z := fun _ _ => Return.

(** One entity, created in a fresh engine. *)
Definition one_entity : ECS Z := apply_op OpAddEntity fresh.

(** Two systems registered in a fresh engine; in a frame the first one
    raises. *)
Definition two_systems : ECS Z :=
  apply_ops [OpAddSystem placed; OpAddSystem labelled] fresh.

(** One entity with a position, and the system that requires one; in a
    frame the system asks for the entity's destruction and then takes its
    position away. *)
Definition one_placed : ECS Z :=
  apply_ops [OpAddEntity; OpAddComponent 0 (position 5); OpAddSystem placed]
    fresh.

Definition destroy_then_strip : Behaviour Z :=
  fun _ _ =>
    Do (CallRemoveEntity 0) (fun _ =>
    Do (CallRemoveComponent 0 (position 5)) (fun _ => Return)).

(** The same system only asks for the destruction, once or twice. *)
Definition destroy_only : Behaviour Z :=
  fun _ _ => Do (CallRemoveEntity 0) (fun _ => Return).

Definition destroy_twice : Behaviour Z :=
  fun _ _ =>
    Do (CallRemoveEntity 0) (fun _ =>
    Do (CallRemoveEntity 0) (fun _ => Return)).

(** A system that requires nothing is registered first; two entities are
    created afterwards and the first one gets a position. *)
Definition late_entities : ECS Z :=
  apply_ops [OpAddSystem everything; OpAddEntity; OpAddEntity;
             OpAddComponent 0 (position 5)]
    fresh.

(** The same system, and one entity created after it. *)
Definition late_entity : ECS Z :=
  apply_ops [OpAddSystem everything; OpAddEntity] fresh.

(** Entity 0 with a position, entity 1 with a position and a tag, then
    the system that requires both. *)
Definition two_entities : ECS Z :=
  apply_ops [OpAddEntity; OpAddComponent 0 (position 0);
             OpAddEntity; OpAddComponent 1 (position 1);
             OpAddComponent 1 (tag 7); OpAddSystem labelled]
    fresh.

Definition first_raises : Behaviour Z :=
  fun system _ =>
    if System_dec system placed then Raise (SystemFailure 1) else Return.

(** Two systems are registered, then the first one is removed and
    registered again. *)
Definition registered_again : list (Op Z) :=
  [OpAddSystem placed; OpAddSystem labelled; OpRemoveSystem placed;
   OpAddSystem placed].

End Sample.

(** * The particle application

    The program that uses the engine: its render system, the loop that
    creates the particles, and the table of attraction rules.  Payloads
    (positions, velocities, colours) are values of [Data]; the numbers in
    them are not looked at here. *)
Section Application.

Variable Data : Type.

(** The creators returned by the three [ECS.registerComponent] calls. *)
Variables PositionComponent VelocityComponent ColorComponent
  : ComponentCreator.

(** [new Set([PositionComponent.type, ColorComponent.type])]. *)
Definition RenderSystem_required : list ComponentType :=
  JsSet.add (creator_type ColorComponent)
    (JsSet.add (creator_type PositionComponent) []).

(** [new Set([PositionComponent.type, VelocityComponent.type,
    ColorComponent.type])]. *)
Definition PhysicsSystem_required : list ComponentType :=
  JsSet.add (creator_type ColorComponent)
    (JsSet.add (creator_type VelocityComponent)
       (JsSet.add (creator_type PositionComponent) [])).

(** [new RenderSystem()], an object of identity [id]. *)
Definition RenderSystem (id : Z) : System :=
  {| sys_id := id; requiredComponents := RenderSystem_required |}.

(** [new PhysicsSystem()]. *)
Definition PhysicsSystem (id : Z) : System :=
  {| sys_id := id; requiredComponents := PhysicsSystem_required |}.

(** [RenderSystem.update(entities, ecs)]: for every entity of the set it
    reads the position and the colour; an error of [getComponent] is not
    caught.  The calls to the painter draw on the canvas and do not reach
    the engine. *)
Fixpoint RenderSystem_update (entities : list Entity) : Prog Data :=
  match entities with
  | [] => Return
  | entity :: rest =>
      Do (CallGetComponent entity PositionComponent) (fun position =>
        match position with
        | Raised err => Raise err
        | _ =>
            Do (CallGetComponent entity ColorComponent) (fun color =>
              match color with
              | Raised err => Raise err
              | _ => RenderSystem_update rest
              end)
        end)
  end.

(** The body of the loop that creates the particles: a new entity gets a
    position, a velocity and a colour, here the three payloads [d]. *)
Definition spawn (d : Data * Data * Data) : M Data unit :=
  entity <- addEntity ;;
  addComponent entity (create PositionComponent (fst (fst d))) ;;;
  addComponent entity (create VelocityComponent (snd (fst d))) ;;;
  addComponent entity (create ColorComponent (snd d)).

(** The loop itself, one round per triple of payloads. *)
Definition populate (ds : list (Data * Data * Data)) : M Data unit :=
  for_of ds spawn.

(** The component map of a particle created with payloads [d]. *)
Definition spawned (d : Data * Data * Data) : Components Data :=
  JsMap.set Z.eq_dec (creator_type ColorComponent)
    (create ColorComponent (snd d))
    (JsMap.set Z.eq_dec (creator_type VelocityComponent)
       (create VelocityComponent (snd (fst d)))
       (JsMap.set Z.eq_dec (creator_type PositionComponent)
          (create PositionComponent (fst (fst d))) [])).

End Application.

Arguments RenderSystem_update {Data} PositionComponent ColorComponent entities.
Arguments spawn {Data} PositionComponent VelocityComponent ColorComponent d.
Arguments populate {Data} PositionComponent VelocityComponent ColorComponent
  ds.
Arguments spawned {Data} PositionComponent VelocityComponent ColorComponent d.

(** ** The table of rules

    [RULES] is an array of [{from, to, magnitude}]; [main] fills it so that
    every ordered pair of colours has a rule.  Magnitudes are only stored
    here. *)
Module Rules.
Section Defs.

Variable Magnitude : Type.

(** The literal [0]. *)
Variable zero : Magnitude.

Inductive Color := red | green | yellow.

Definition colors : list Color := [red; green; yellow].

Definition Color_eqb (a b : Color) : bool :=
  match a, b with
  | red, red => true
  | green, green => true
  | yellow, yellow => true
  | _, _ => false
  end.

Record Rule := {
  from : Color;
  to : Color;
  magnitude : Magnitude
}.

(** [RULES.find((rule) => rule.from === color && rule.to === otherColor)]. *)
Definition find_rule (color otherColor : Color) (RULES : list Rule)
  : option Rule :=
  find (fun rule => Color_eqb (from rule) color
                    && Color_eqb (to rule) otherColor) RULES.

(** The body of the two nested loops of [main]. *)
Definition fill_pair (color : Color) (RULES : list Rule)
    (otherColor : Color) : list Rule :=
  match find_rule color otherColor RULES with
  | Some _ => RULES
  | None =>
      RULES ++ [{| from := color; to := otherColor; magnitude := zero |}]
  end.

(** [for (const color of cs) for (const otherColor of cs) ...]. *)
Definition fill_rules (cs : list Color) (RULES : list Rule) : list Rule :=
  fold_left (fun acc color => fold_left (fill_pair color) cs acc) cs RULES.

(** Vocabulary: what a run of the loops over the colours [cs1] and [cs2]
    may do to the table.  It appends rules of magnitude 0 for those
    colours, keeps the result of every search, and keeps a table with one
    rule per pair so. *)
Definition grows (cs1 cs2 : list Color) (R R' : list Rule) : Prop :=
  (exists extra,
     R' = R ++ extra
     /\ forall r, In r extra ->
          magnitude r = zero /\ In (from r) cs1 /\ In (to r) cs2)
  /\ (forall x y r, find_rule x y R = Some r -> find_rule x y R' = Some r)
  /\ (NoDup (map (fun r => (from r, to r)) R) ->
      NoDup (map (fun r => (from r, to r)) R')).

End Defs.
End Rules.

Arguments Rules.from {Magnitude} r.
Arguments Rules.to {Magnitude} r.
Arguments Rules.magnitude {Magnitude} r.
Arguments Rules.find_rule {Magnitude} color otherColor RULES.
Arguments Rules.fill_pair {Magnitude} zero color RULES otherColor.
Arguments Rules.fill_rules {Magnitude} zero cs RULES.
Arguments Rules.grows {Magnitude} zero cs1 cs2 R R'.

(** Sample engines for the application: the three component types are 0,
    1 and 2, the render system is registered before the physics system. *)
Module Particles.

Definition PositionComponent : ComponentCreator := {| creator_type := 0 |}.
Definition VelocityComponent : ComponentCreator := {| creator_type := 1 |}.
Definition ColorComponent : ComponentCreator := {| creator_type := 2 |}.

Definition renderSystem : System :=
  RenderSystem PositionComponent ColorComponent 0.
Definition physicsSystem : System :=
  PhysicsSystem PositionComponent VelocityComponent ColorComponent 1.

(** The engine of the application before the particles are created. *)
Definition ecs : ECS Z :=
  apply_ops [OpAddSystem renderSystem; OpAddSystem physicsSystem]
    (new_ECS Z 100 0 3).

(** Two particles. *)
Definition two_particles : ECS Z :=
  snd (populate PositionComponent VelocityComponent ColorComponent
         [(10, 0, 1); (20, 0, 2)] ecs).

(** An engine with the render system only and one particle, and a frame
    in which the system runs the code of [RenderSystem.update]. *)
Definition rendering : ECS Z :=
  apply_ops [OpAddSystem renderSystem; OpAddEntity;
             OpAddComponent 0 (create PositionComponent 10);
             OpAddComponent 0 (create ColorComponent 1)]
    (new_ECS Z 100 0 3).

Definition render : Behaviour Z :=
  fun _ entities =>
    RenderSystem_update PositionComponent ColorComponent entities.

End Particles.

(** * Properties *)

(** ** Facts about the containers *)
Section SetFacts.

Lemma JsSet_has_In (x : Z) (s : JsSet.t) : JsSet.has x s = true <-> In x s.
Proof.
  unfold JsSet.has. rewrite existsb_exists. split.
  - intros (y & Hy & E). apply Z.eqb_eq in E. now subst.
  - intros H. exists x. split; [assumption | apply Z.eqb_refl].
Qed.

Lemma JsSet_In_add (x y : Z) (s : JsSet.t) :
  In y (JsSet.add x s) <-> y = x \/ In y s.
Proof.
  unfold JsSet.add. destruct (JsSet.has x s) eqn:E.
  - apply JsSet_has_In in E. split; [now right | intros [-> | H]; assumption].
  - rewrite in_app_iff. simpl. intuition.
Qed.

Lemma JsSet_In_delete (x y : Z) (s : JsSet.t) :
  In y (JsSet.delete x s) <-> y <> x /\ In y s.
Proof.
  unfold JsSet.delete. rewrite filter_In, negb_true_iff, Z.eqb_neq.
  intuition.
Qed.

Lemma JsSet_delete_absent (x : Z) (s : JsSet.t) :
  ~ In x s -> JsSet.delete x s = s.
Proof.
  unfold JsSet.delete. induction s as [|y s IH]; simpl; intros H.
  - reflexivity.
  - destruct (Z.eqb_spec x y) as [->|N]; simpl.
    + exfalso. apply H. now left.
    + f_equal. apply IH. intros F. apply H. now right.
Qed.

Lemma JsSet_delete_delete (x : Z) (s : JsSet.t) :
  JsSet.delete x (JsSet.delete x s) = JsSet.delete x s.
Proof.
  apply JsSet_delete_absent. rewrite JsSet_In_delete. intuition.
Qed.

Lemma JsSet_delete_comm (x y : Z) (s : JsSet.t) :
  JsSet.delete x (JsSet.delete y s) = JsSet.delete y (JsSet.delete x s).
Proof.
  unfold JsSet.delete. induction s as [|z s IH]; simpl.
  - reflexivity.
  - destruct (Z.eqb y z) eqn:Ey, (Z.eqb x z) eqn:Ex; simpl;
      rewrite ?Ey, ?Ex; simpl; now rewrite IH.
Qed.

End SetFacts.

Section MapFacts.

Context {K V : Type} (K_dec : forall a b : K, {a = b} + {a <> b}).

Local Abbreviation get := (@JsMap.get K V K_dec).
Local Abbreviation set := (@JsMap.set K V K_dec).
Local Abbreviation delete := (@JsMap.delete K V K_dec).
Local Abbreviation keys := (@JsMap.keys K V).

Lemma JsMap_get_In_keys (k : K) (m : JsMap.t) :
  In k (keys m) <-> exists v, get k m = Some v.
Proof.
  induction m as [|[k' v'] m IH]; simpl.
  - split; [tauto | intros (v & H); discriminate].
  - destruct (K_dec k k') as [->|N].
    + split; [intros _; now exists v' | now left].
    + rewrite <- IH. split; [intros [E | H]; [congruence | assumption] | now right].
Qed.

Lemma JsMap_get_None (k : K) (m : JsMap.t) :
  get k m = None <-> ~ In k (keys m).
Proof.
  rewrite JsMap_get_In_keys. destruct (get k m) as [v|].
  - split; [discriminate | intros H; exfalso; apply H; now exists v].
  - split; [intros _ (v & H); discriminate | reflexivity].
Qed.

Lemma JsMap_get_In (k : K) (v : V) (m : JsMap.t) :
  get k m = Some v -> In (k, v) m.
Proof.
  induction m as [|[k' v'] m IH]; simpl; [discriminate|].
  destruct (K_dec k k') as [->|N].
  - intros [= ->]. now left.
  - intros H. right. now apply IH.
Qed.

Lemma JsMap_In_get (k : K) (v : V) (m : JsMap.t) :
  NoDup (keys m) -> In (k, v) m -> get k m = Some v.
Proof.
  induction m as [|[k' v'] m IH]; simpl; [tauto|].
  intros ND [E | H].
  - injection E as -> ->. destruct (K_dec k k); [reflexivity | congruence].
  - inversion ND as [|? ? Hn ND']; subst.
    destruct (K_dec k k') as [->|N].
    + exfalso. apply Hn. apply (in_map fst) in H. exact H.
    + now apply IH.
Qed.

Lemma JsMap_get_set_same (k : K) (v : V) (m : JsMap.t) :
  get k (set k v m) = Some v.
Proof.
  induction m as [|[k' v'] m IH]; simpl.
  - destruct (K_dec k k); [reflexivity | congruence].
  - destruct (K_dec k k') as [->|N]; simpl.
    + destruct (K_dec k' k'); [reflexivity | congruence].
    + destruct (K_dec k k'); [congruence | exact IH].
Qed.

Lemma JsMap_get_set_other (k k' : K) (v : V) (m : JsMap.t) :
  k <> k' -> get k (set k' v m) = get k m.
Proof.
  intros N. induction m as [|[k0 v0] m IH]; simpl.
  - destruct (K_dec k k'); [congruence | reflexivity].
  - destruct (K_dec k' k0) as [->|N0]; simpl.
    + destruct (K_dec k k0); [congruence | reflexivity].
    + destruct (K_dec k k0); [reflexivity | exact IH].
Qed.

Lemma JsMap_keys_set_present (k : K) (v : V) (m : JsMap.t) :
  In k (keys m) -> keys (set k v m) = keys m.
Proof.
  induction m as [|[k' v'] m IH]; simpl; [tauto|].
  intros H. destruct (K_dec k k') as [->|N]; simpl.
  - reflexivity.
  - f_equal. apply IH. destruct H; [congruence | assumption].
Qed.

Lemma JsMap_keys_set_absent (k : K) (v : V) (m : JsMap.t) :
  ~ In k (keys m) -> keys (set k v m) = keys m ++ [k].
Proof.
  induction m as [|[k' v'] m IH]; simpl; intros H.
  - reflexivity.
  - destruct (K_dec k k') as [->|N]; simpl.
    + exfalso. apply H. now left.
    + f_equal. apply IH. intros F. apply H. now right.
Qed.

Lemma JsMap_In_keys_set (k k' : K) (v : V) (m : JsMap.t) :
  In k (keys (set k' v m)) <-> k = k' \/ In k (keys m).
Proof.
  destruct (in_dec K_dec k' (keys m)) as [I|I].
  - rewrite JsMap_keys_set_present by assumption.
    split; [now right | intros [-> | H]; assumption].
  - rewrite JsMap_keys_set_absent by assumption.
    rewrite in_app_iff. simpl. intuition.
Qed.

Lemma JsMap_NoDup_set (k : K) (v : V) (m : JsMap.t) :
  NoDup (keys m) -> NoDup (keys (set k v m)).
Proof.
  intros ND. destruct (in_dec K_dec k (keys m)) as [I|I].
  - now rewrite JsMap_keys_set_present.
  - rewrite JsMap_keys_set_absent by assumption.
    apply NoDup_app; [assumption | repeat constructor; intros [] | ].
    intros x Hx [<- | []]. now apply I.
Qed.

Lemma JsMap_In_delete (k : K) (p : K * V) (m : JsMap.t) :
  In p (delete k m) <-> fst p <> k /\ In p m.
Proof.
  unfold JsMap.delete. rewrite filter_In.
  destruct (K_dec k (fst p)); intuition congruence.
Qed.

Lemma JsMap_In_keys_delete (k k' : K) (m : JsMap.t) :
  In k' (keys (delete k m)) <-> k' <> k /\ In k' (keys m).
Proof.
  unfold JsMap.keys. rewrite !in_map_iff. split.
  - intros (p & <- & H). apply JsMap_In_delete in H. destruct H as [N H].
    split; [assumption | now exists p].
  - intros (N & p & <- & H). exists p. split; [reflexivity|].
    apply JsMap_In_delete. now split.
Qed.

Lemma JsMap_NoDup_delete (k : K) (m : JsMap.t) :
  NoDup (keys m) -> NoDup (keys (delete k m)).
Proof.
  unfold JsMap.delete, JsMap.keys.
  induction m as [|[k' v'] m IH]; simpl; intros ND; [constructor|].
  inversion ND as [|? ? Hn ND']; subst.
  destruct (K_dec k k'); simpl; [now apply IH|].
  constructor; [|now apply IH].
  intros F. apply Hn. apply in_map_iff in F. destruct F as (p & E & H).
  apply filter_In in H. apply in_map_iff. exists p. now split.
Qed.

Lemma JsMap_delete_absent (k : K) (m : JsMap.t) :
  ~ In k (keys m) -> delete k m = m.
Proof.
  unfold JsMap.delete. induction m as [|[k' v'] m IH]; simpl; intros H.
  - reflexivity.
  - destruct (K_dec k k') as [->|N].
    + exfalso. apply H. now left.
    + f_equal. apply IH. intros F. apply H. now right.
Qed.

Lemma JsMap_get_delete_other (k k' : K) (m : JsMap.t) :
  k <> k' -> get k (delete k' m) = get k m.
Proof.
  intros N. unfold JsMap.delete.
  induction m as [|[k0 v0] m IH]; simpl; [reflexivity|].
  destruct (K_dec k' k0) as [->|N0]; simpl.
  - destruct (K_dec k k0); [congruence | exact IH].
  - destruct (K_dec k k0); [reflexivity | exact IH].
Qed.

Lemma JsMap_get_delete_same (k : K) (m : JsMap.t) :
  get k (delete k m) = None.
Proof.
  apply JsMap_get_None. rewrite JsMap_In_keys_delete. tauto.
Qed.

Lemma JsMap_set_middle (k : K) (v0 v : V) (pre post : JsMap.t) :
  ~ In k (keys pre) ->
  set k v (pre ++ (k, v0) :: post) = pre ++ (k, v) :: post.
Proof.
  induction pre as [|[k' v'] pre IH]; simpl; intros H.
  - destruct (K_dec k k); [reflexivity | congruence].
  - destruct (K_dec k k') as [->|N].
    + exfalso. apply H. now left.
    + f_equal. apply IH. intros F. apply H. now right.
Qed.

Lemma JsMap_get_middle (k : K) (v0 : V) (pre post : JsMap.t) :
  ~ In k (keys pre) -> get k (pre ++ (k, v0) :: post) = Some v0.
Proof.
  induction pre as [|[k' v'] pre IH]; simpl; intros H.
  - destruct (K_dec k k); [reflexivity | congruence].
  - destruct (K_dec k k') as [->|N].
    + exfalso. apply H. now left.
    + apply IH. intros F. apply H. now right.
Qed.

End MapFacts.

(** ** The engine's loops over [systems] *)
Section EngineFacts.

Variable Data : Type.

Local Abbreviation ECS' := (ECS Data).
Local Abbreviation skeys := (@JsMap.keys System JsSet.t).
Local Abbreviation sget := (JsMap.get System_dec).
Local Abbreviation eget := (JsMap.get Z.eq_dec).

Lemma keys_map_values f s : skeys (map_values f s) = skeys s.
Proof.
  unfold map_values, JsMap.keys. rewrite map_map. reflexivity.
Qed.

Lemma get_map_values f k s :
  sget k (map_values f s) = option_map (f k) (sget k s).
Proof.
  induction s as [|[k' v] s IH]; simpl; [reflexivity|].
  destruct (System_dec k k') as [->|N]; [reflexivity | exact IH].
Qed.

Lemma In_map_values f k v s :
  In (k, v) (map_values f s) <-> exists v0, In (k, v0) s /\ v = f k v0.
Proof.
  unfold map_values. rewrite in_map_iff. split.
  - intros ([k0 v0] & E & H). simpl in E. injection E as <- <-.
    now exists v0.
  - intros (v0 & H & ->). now exists (k, v0).
Qed.

Lemma with_systems_id (st : ECS') : with_systems st (systems st) = st.
Proof. now destruct st. Qed.

Lemma with_systems_twice (st : ECS') a b :
  with_systems (with_systems st a) b = with_systems st b.
Proof. reflexivity. Qed.

(** A loop whose body only rewrites the visited set rewrites every set. *)
Lemma for_systems_map_values (P : ECS' -> Prop) f body :
  (forall st s, P st -> P (with_systems st s)) ->
  (forall system ents st, P st ->
     body system ents st =
     (Ok tt, with_systems st
               (JsMap.set System_dec system (f system ents) (systems st)))) ->
  forall st, P st -> NoDup (skeys (systems st)) ->
  for_systems body st = (Ok tt, with_systems st (map_values f (systems st))).
Proof.
  intros HP Hbody st Hst ND. unfold for_systems.
  assert (G : forall todo pre (st' : ECS'),
            P st' -> systems st' = pre ++ todo ->
            NoDup (skeys (pre ++ todo)) ->
            for_of (skeys todo)
              (fun system st'' =>
                 match sget system (systems st'') with
                 | Some ents => body system ents st''
                 | None => (Ok tt, st'')
                 end) st'
            = (Ok tt, with_systems st' (pre ++ map_values f todo))).
  { induction todo as [|[s m] todo IH]; intros pre st' Hp E ND'.
    - simpl. unfold ret. rewrite app_nil_r in *. rewrite <- E.
      now rewrite with_systems_id.
    - simpl. unfold bind at 1.
      assert (Hs : ~ In s (skeys pre)).
      { unfold JsMap.keys in ND'. rewrite map_app in ND'. simpl in ND'.
        apply NoDup_remove_2 in ND'. intros F. apply ND'.
        apply in_or_app. now left. }
      rewrite E, (JsMap_get_middle System_dec s m pre todo Hs).
      rewrite Hbody by assumption.
      rewrite E, (JsMap_set_middle System_dec s m (f s m) pre todo Hs).
      rewrite (IH (pre ++ [(s, f s m)])).
      + rewrite with_systems_twice, <- app_assoc. reflexivity.
      + now apply HP.
      + simpl. now rewrite <- app_assoc.
      + unfold JsMap.keys in *. rewrite <- app_assoc. simpl.
        rewrite map_app in *. exact ND'. }
  rewrite (G (systems st) [] st Hst eq_refl ND). reflexivity.
Qed.

(** Without any assumption on the keys, the loop still returns and leaves
    every field but [systems] alone. *)
Lemma for_systems_frame (P : ECS' -> Prop) body :
  (forall st s, P st -> P (with_systems st s)) ->
  (forall system ents st, P st ->
     sget system (systems st) = Some ents ->
     exists s', body system ents st = (Ok tt, with_systems st s')
                /\ skeys s' = skeys (systems st)) ->
  forall st, P st ->
  exists s', for_systems body st = (Ok tt, with_systems st s')
             /\ skeys s' = skeys (systems st).
Proof.
  intros HP Hbody st Hst. unfold for_systems.
  assert (G : forall todo (st' : ECS'), P st' ->
            exists s',
              for_of todo
                (fun system st'' =>
                   match sget system (systems st'') with
                   | Some ents => body system ents st''
                   | None => (Ok tt, st'')
                   end) st' = (Ok tt, with_systems st' s')
              /\ skeys s' = skeys (systems st')).
  { induction todo as [|s todo IH]; intros st' Hst'.
    - simpl. exists (systems st'). now rewrite with_systems_id.
    - simpl. unfold bind at 1.
      destruct (sget s (systems st')) as [m|] eqn:E.
      + destruct (Hbody s m st' Hst' E) as (s1 & -> & K1).
        destruct (IH (with_systems st' s1) (HP _ _ Hst')) as (s2 & -> & K2).
        exists s2. rewrite with_systems_twice. split; [reflexivity|].
        simpl in K2. congruence.
      + apply IH. assumption. }
  apply G. assumption.
Qed.

(** [updateEntitySystems] on a registered entity. *)
Lemma updateEntitySystems_registered entity cs (st : ECS') :
  eget entity (entities st) = Some cs ->
  NoDup (skeys (systems st)) ->
  updateEntitySystems entity st =
  (Ok tt, with_systems st (map_values (recompute entity cs) (systems st))).
Proof.
  intros E ND. unfold updateEntitySystems.
  apply (for_systems_map_values
           (fun st' => eget entity (entities st') = Some cs)); auto.
  intros system ents st' E'. cbv beta. unfold bind, getComponents.
  rewrite E'. unfold recompute. destruct (hasAllRequired system cs); reflexivity.
Qed.

Lemma updateEntitySystems_frame entity cs (st : ECS') :
  eget entity (entities st) = Some cs ->
  exists s', updateEntitySystems entity st = (Ok tt, with_systems st s')
             /\ skeys s' = skeys (systems st).
Proof.
  intros E. unfold updateEntitySystems.
  apply (for_systems_frame
           (fun st' => eget entity (entities st') = Some cs)); auto.
  intros system ents st' E' G. cbv beta. unfold bind, getComponents.
  rewrite E'.
  assert (I : In system (skeys (systems st'))).
  { apply (JsMap_get_In_keys System_dec). now exists ents. }
  destruct (hasAllRequired system cs); eexists; split;
    try reflexivity; now apply JsMap_keys_set_present.
Qed.

Lemma destroyEntity_eq entity (st : ECS') :
  NoDup (skeys (systems st)) ->
  destroyEntity entity st = (Ok tt, destroyed entity st).
Proof.
  intros ND. unfold destroyEntity, bind, modify.
  rewrite (for_systems_map_values (fun _ => True)
             (fun _ ents => JsSet.delete entity ents)); auto.
Qed.

End EngineFacts.

(** ** What each method leaves behind *)
Section MethodFacts.

Variable Data : Type.

Local Abbreviation ECS' := (ECS Data).
Local Abbreviation skeys := (@JsMap.keys System JsSet.t).
Local Abbreviation sget := (JsMap.get System_dec).
Local Abbreviation eget := (JsMap.get Z.eq_dec).

Lemma registered_get entity (st : ECS') :
  registered entity st <-> exists cs, eget entity (entities st) = Some cs.
Proof. apply JsMap_get_In_keys. Qed.

Lemma unregistered_get entity (st : ECS') :
  ~ registered entity st <-> eget entity (entities st) = None.
Proof. symmetry. apply JsMap_get_None. Qed.

Lemma hasAllRequired_nil system :
  hasAllRequired system ([] : Components Data) = true ->
  requiredComponents system = [].
Proof.
  unfold hasAllRequired. destruct (requiredComponents system) as [|c l].
  - reflexivity.
  - simpl. unfold JsMap.has. simpl. discriminate.
Qed.

Lemma getComponents_eq entity (st : ECS') :
  getComponents entity st =
  match eget entity (entities st) with
  | Some cs => (Ok cs, st)
  | None => (Threw (UnknownEntity entity), st)
  end.
Proof.
  unfold getComponents. now destruct (eget entity (entities st)).
Qed.

Lemma addComponent_unregistered entity c (st : ECS') :
  eget entity (entities st) = None ->
  addComponent entity c st = (Threw (UnknownEntity entity), st).
Proof.
  intros E. unfold addComponent, bind, getComponents. now rewrite E.
Qed.

Lemma removeComponent_unregistered entity c (st : ECS') :
  eget entity (entities st) = None ->
  removeComponent entity c st = (Threw (UnknownEntity entity), st).
Proof.
  intros E. unfold removeComponent, bind, getComponents. now rewrite E.
Qed.

Lemma write_then_update entity cs (st : ECS') :
  (write_components entity cs ;;; updateEntitySystems entity) st =
  updateEntitySystems entity
    (with_entities st (JsMap.set Z.eq_dec entity cs (entities st))).
Proof. reflexivity. Qed.

Lemma addComponent_frame entity c cs (st : ECS') :
  eget entity (entities st) = Some cs ->
  exists s',
    addComponent entity c st =
    (Ok tt,
     with_systems
       (with_entities st
          (JsMap.set Z.eq_dec entity (JsMap.set Z.eq_dec (type c) c cs)
             (entities st))) s')
    /\ skeys s' = skeys (systems st).
Proof.
  intros E. unfold addComponent. unfold bind at 1.
  rewrite getComponents_eq, E, write_then_update.
  destruct (updateEntitySystems_frame Data entity
              (JsMap.set Z.eq_dec (type c) c cs)
              (with_entities st
                 (JsMap.set Z.eq_dec entity
                    (JsMap.set Z.eq_dec (type c) c cs) (entities st))))
    as (s' & HU & K).
  - simpl. apply JsMap_get_set_same.
  - exists s'. split; [exact HU | exact K].
Qed.

Lemma removeComponent_frame entity c cs (st : ECS') :
  eget entity (entities st) = Some cs ->
  exists s',
    removeComponent entity c st =
    (Ok tt,
     with_systems
       (with_entities st
          (JsMap.set Z.eq_dec entity (JsMap.delete Z.eq_dec (type c) cs)
             (entities st))) s')
    /\ skeys s' = skeys (systems st).
Proof.
  intros E. unfold removeComponent. unfold bind at 1.
  rewrite getComponents_eq, E, write_then_update.
  destruct (updateEntitySystems_frame Data entity
              (JsMap.delete Z.eq_dec (type c) cs)
              (with_entities st
                 (JsMap.set Z.eq_dec entity
                    (JsMap.delete Z.eq_dec (type c) cs) (entities st))))
    as (s' & HU & K).
  - simpl. apply JsMap_get_set_same.
  - exists s'. split; [exact HU | exact K].
Qed.

Lemma addComponent_eq entity c cs (st : ECS') :
  eget entity (entities st) = Some cs ->
  NoDup (skeys (systems st)) ->
  addComponent entity c st =
  (Ok tt, updated entity (JsMap.set Z.eq_dec (type c) c cs) st).
Proof.
  intros E ND. unfold addComponent. unfold bind at 1.
  rewrite getComponents_eq, E, write_then_update.
  rewrite (updateEntitySystems_registered Data entity
             (JsMap.set Z.eq_dec (type c) c cs)); auto.
  simpl. apply JsMap_get_set_same.
Qed.

Lemma removeComponent_eq entity c cs (st : ECS') :
  eget entity (entities st) = Some cs ->
  NoDup (skeys (systems st)) ->
  removeComponent entity c st =
  (Ok tt, updated entity (JsMap.delete Z.eq_dec (type c) cs) st).
Proof.
  intros E ND. unfold removeComponent. unfold bind at 1.
  rewrite getComponents_eq, E, write_then_update.
  rewrite (updateEntitySystems_registered Data entity
             (JsMap.delete Z.eq_dec (type c) cs)); auto.
  simpl. apply JsMap_get_set_same.
Qed.

Lemma getComponent_eq entity t (st : ECS') :
  getComponent entity t st =
  match eget entity (entities st) with
  | None => (Threw (UnknownEntity entity), st)
  | Some cs =>
      match JsMap.get Z.eq_dec (creator_type t) cs with
      | None => (Threw (MissingComponent entity (creator_type t)), st)
      | Some component => (Ok (data component), st)
      end
  end.
Proof.
  unfold getComponent, bind. rewrite getComponents_eq.
  destruct (eget entity (entities st)) as [cs|]; [|reflexivity].
  now destruct (JsMap.get Z.eq_dec (creator_type t) cs).
Qed.

End MethodFacts.

(** ** The invariant is kept by every method *)
Section Invariant.

Variable Data : Type.

Local Abbreviation ECS' := (ECS Data).
Local Abbreviation skeys := (@JsMap.keys System JsSet.t).
Local Abbreviation sget := (JsMap.get System_dec).
Local Abbreviation eget := (JsMap.get Z.eq_dec).

Lemma wf_new now nextE nextC : wf (new_ECS Data now nextE nextC).
Proof.
  unfold wf, sound, complete, member, qualifies, registered,
    system_registered. simpl. repeat split.
  - constructor.
  - tauto.
  - intros ? ? (? & ? & _). discriminate.
  - tauto.
Qed.

(** The invariant reads [systems], [entities] and the entity counter. *)
Lemma wf_same (st st' : ECS') :
  systems st' = systems st -> entities st' = entities st ->
  nextEntityID st' = nextEntityID st -> wf st -> wf st'.
Proof.
  unfold wf, sound, complete, member, qualifies, registered,
    system_registered.
  intros -> -> ->. tauto.
Qed.

Lemma member_registered (st : ECS') entity system :
  wf st -> member entity system st -> registered entity st.
Proof.
  intros (_ & _ & SD & _) H. apply SD in H. destruct H as (cs & G & _).
  apply registered_get. now exists cs.
Qed.

Lemma wf_updated entity cs (st : ECS') :
  wf st -> registered entity st -> wf (updated entity cs st).
Proof.
  intros (ND & LT & SD & CP) R. repeat split.
  - simpl. now rewrite keys_map_values.
  - intros x Hx. apply LT. unfold registered in *. simpl in Hx.
    apply (JsMap_In_keys_set Z.eq_dec) in Hx.
    destruct Hx as [-> | H]; assumption.
  - intros s x (ents' & G & I). simpl in G. rewrite get_map_values in G.
    destruct (sget s (systems st)) as [ents|] eqn:Gs; [|discriminate].
    simpl in G. injection G as <-. unfold qualifies. simpl.
    unfold recompute in I. destruct (Z.eq_dec x entity) as [->|N].
    + exists cs. split; [apply JsMap_get_set_same|].
      destruct (hasAllRequired s cs); [reflexivity|].
      apply JsSet_In_delete in I. tauto.
    + rewrite JsMap_get_set_other by assumption.
      apply SD. exists ents. split; [assumption|].
      destruct (hasAllRequired s cs).
      * apply JsSet_In_add in I. destruct I; [contradiction | assumption].
      * apply JsSet_In_delete in I. tauto.
  - intros s x Hs Hne (cs0 & G & HA). unfold system_registered in Hs.
    simpl in Hs, G. rewrite keys_map_values in Hs.
    apply (JsMap_get_In_keys System_dec) in Hs. destruct Hs as (ents & Gs).
    unfold member. simpl. rewrite get_map_values, Gs. simpl.
    eexists. split; [reflexivity|]. unfold recompute.
    destruct (Z.eq_dec x entity) as [->|N].
    + rewrite JsMap_get_set_same in G. injection G as <-.
      rewrite HA. apply JsSet_In_add. now left.
    + rewrite JsMap_get_set_other in G by assumption.
      assert (Mx : member x s st).
      { apply CP; [|assumption|now exists cs0].
        apply (JsMap_get_In_keys System_dec). now exists ents. }
      destruct Mx as (ents0 & G0 & I0). rewrite Gs in G0.
      injection G0 as <-.
      destruct (hasAllRequired s cs).
      * apply JsSet_In_add. now right.
      * apply JsSet_In_delete. now split.
Qed.

Lemma wf_addEntity (st : ECS') : wf st -> wf (snd (addEntity st)).
Proof.
  intros (ND & LT & SD & CP). unfold addEntity. simpl. repeat split.
  - exact ND.
  - intros x Hx. unfold registered in Hx. simpl in *.
    apply (JsMap_In_keys_set Z.eq_dec) in Hx. destruct Hx as [-> | H].
    + lia.
    + apply LT in H. lia.
  - intros s x Hm. assert (Q : qualifies x s st) by (apply SD; exact Hm).
    destruct Q as (cs & G & HA). exists cs. split; [|assumption]. simpl.
    rewrite JsMap_get_set_other; [assumption|].
    assert (x < nextEntityID st); [|lia].
    apply LT. apply registered_get. now exists cs.
  - intros s x Hs Hne (cs & G & HA). simpl in G.
    destruct (Z.eq_dec x (nextEntityID st)) as [->|N].
    + rewrite JsMap_get_set_same in G. injection G as <-.
      apply hasAllRequired_nil in HA. contradiction.
    + rewrite JsMap_get_set_other in G by assumption.
      apply (CP s x Hs Hne). now exists cs.
Qed.

Lemma wf_destroyed entity (st : ECS') : wf st -> wf (destroyed entity st).
Proof.
  intros (ND & LT & SD & CP). repeat split.
  - simpl. now rewrite keys_map_values.
  - intros x Hx. apply LT. unfold registered in *. simpl in Hx.
    apply (JsMap_In_keys_delete Z.eq_dec) in Hx. tauto.
  - intros s x (ents' & G & I). simpl in G. rewrite get_map_values in G.
    destruct (sget s (systems st)) as [ents|] eqn:Gs; [|discriminate].
    simpl in G. injection G as <-. apply JsSet_In_delete in I.
    destruct I as (N & I).
    assert (Q : qualifies x s st) by (apply SD; now exists ents).
    destruct Q as (cs & G & HA). exists cs. split; [|assumption]. simpl.
    now rewrite JsMap_get_delete_other.
  - intros s x Hs Hne (cs & G & HA). unfold system_registered in Hs.
    simpl in Hs, G. rewrite keys_map_values in Hs.
    destruct (Z.eq_dec x entity) as [->|N].
    + now rewrite JsMap_get_delete_same in G.
    + rewrite JsMap_get_delete_other in G by assumption.
      destruct (CP s x Hs Hne) as (ents & Gs & I); [now exists cs|].
      exists (JsSet.delete entity ents). simpl.
      rewrite get_map_values, Gs. split; [reflexivity|].
      apply JsSet_In_delete. now split.
Qed.

Lemma wf_removeSystem system (st : ECS') :
  wf st -> wf (snd (removeSystem system st)).
Proof.
  intros (ND & LT & SD & CP). unfold removeSystem, modify. simpl.
  repeat split.
  - simpl. now apply JsMap_NoDup_delete.
  - exact LT.
  - intros s x (ents & G & I). simpl in G.
    destruct (System_dec s system) as [->|N].
    + now rewrite JsMap_get_delete_same in G.
    + rewrite JsMap_get_delete_other in G by assumption.
      apply SD. now exists ents.
  - intros s x Hs Hne Q. unfold system_registered in Hs. simpl in Hs.
    apply (JsMap_In_keys_delete System_dec) in Hs. destruct Hs as (N & Hs).
    destruct (CP s x Hs Hne Q) as (ents & G & I). exists ents. simpl.
    now rewrite JsMap_get_delete_other.
Qed.

End Invariant.

(** ** The scan of [addSystem] *)
Section Rescan.

Variable Data : Type.

Local Abbreviation ECS' := (ECS Data).
Local Abbreviation skeys := (@JsMap.keys System JsSet.t).
Local Abbreviation sget := (JsMap.get System_dec).
Local Abbreviation eget := (JsMap.get Z.eq_dec).

Lemma keys_rescan (E : @JsMap.t Entity (Components Data)) l S :
  skeys (rescan E l S) = skeys S.
Proof.
  unfold rescan. revert S.
  induction l as [|e l IH]; intros S; simpl; [reflexivity|].
  rewrite IH. unfold rescan_step.
  destruct (eget e E); [apply keys_map_values | reflexivity].
Qed.

Lemma get_rescan (E : @JsMap.t Entity (Components Data)) system l S :
  sget system (rescan E l S) =
  option_map (rescan_set E system l) (sget system S).
Proof.
  unfold rescan. revert S. induction l as [|e l IH]; intros S; simpl.
  - now destruct (sget system S).
  - rewrite IH. unfold rescan_step.
    destruct (eget e E) as [cs|] eqn:G.
    + rewrite get_map_values. destruct (sget system S); simpl;
        [|reflexivity]. unfold rescan_set. simpl. now rewrite G.
    + destruct (sget system S); simpl; [|reflexivity].
      unfold rescan_set. simpl. now rewrite G.
Qed.

Lemma In_recompute x entity (cs : Components Data) system ents :
  In x (recompute entity cs system ents) <->
  (x = entity /\ hasAllRequired system cs = true)
  \/ (x <> entity /\ In x ents).
Proof.
  unfold recompute. destruct (hasAllRequired system cs).
  - rewrite JsSet_In_add. destruct (Z.eq_dec x entity); intuition.
  - rewrite JsSet_In_delete. intuition discriminate.
Qed.

Lemma In_rescan_set (E : @JsMap.t Entity (Components Data)) system l :
  (forall e, In e l -> In e (JsMap.keys E)) ->
  forall ents x,
    (In x l ->
     (In x (rescan_set E system l ents) <->
      exists cs, eget x E = Some cs /\ hasAllRequired system cs = true))
    /\ (~ In x l -> (In x (rescan_set E system l ents) <-> In x ents)).
Proof.
  induction l as [|e l IH]; intros Hl ents x.
  - simpl. split; [tauto | reflexivity].
  - assert (Hl' : forall e0, In e0 l -> In e0 (JsMap.keys E)).
    { intros e0 H0. apply Hl. now right. }
    destruct (proj1 (JsMap_get_In_keys Z.eq_dec e E) (Hl e (or_introl eq_refl)))
      as (cs & G).
    assert (U : rescan_set E system (e :: l) ents =
                rescan_set E system l (recompute e cs system ents)).
    { unfold rescan_set. simpl. now rewrite G. }
    rewrite U.
    destruct (IH Hl' (recompute e cs system ents) x) as (IH1 & IH2).
    split.
    + intros Hx. destruct (in_dec Z.eq_dec x l) as [I|I].
      * now apply IH1.
      * destruct Hx as [<- | Hx]; [|contradiction].
        rewrite (IH2 I), In_recompute. split.
        -- intros [(_ & HA) | (N & _)]; [now exists cs | congruence].
        -- intros (cs' & G' & HA). left. split; [reflexivity|]. congruence.
    + intros Hx. simpl in Hx.
      rewrite IH2 by tauto. rewrite In_recompute.
      split; [intros [(-> & _) | (_ & H)]; tauto | intros H; right; split; [|assumption]].
      intros ->. tauto.
Qed.

Lemma for_of_updateEntitySystems l (st : ECS') :
  (forall e, In e l -> registered e st) ->
  NoDup (skeys (systems st)) ->
  for_of l updateEntitySystems st =
  (Ok tt, with_systems st (rescan (entities st) l (systems st))).
Proof.
  revert st. induction l as [|e l IH]; intros st Hl ND.
  - simpl. unfold ret. now rewrite with_systems_id.
  - simpl. unfold bind at 1.
    destruct (proj1 (registered_get Data e st) (Hl e (or_introl eq_refl)))
      as (cs & G).
    rewrite (updateEntitySystems_registered Data e cs st G ND).
    rewrite IH.
    + simpl. rewrite with_systems_twice. unfold rescan_step.
      now rewrite G.
    + intros e0 H0. apply (Hl e0). now right.
    + simpl. now rewrite keys_map_values.
Qed.

Lemma addSystem_eq system (st : ECS') :
  NoDup (skeys (systems st)) ->
  addSystem system st = (Ok tt, system_added system st).
Proof.
  intros ND. unfold addSystem, bind, modify.
  rewrite for_of_updateEntitySystems.
  - reflexivity.
  - intros e H. exact H.
  - simpl. now apply JsMap_NoDup_set.
Qed.

(** After [addSystem] every membership set is exact, whatever the system
    requires. *)
Lemma system_added_member system (st : ECS') s x :
  wf st ->
  system_registered s (system_added system st) ->
  (member x s (system_added system st) <->
   qualifies x s (system_added system st)).
Proof.
  intros W Hs. unfold system_registered in Hs. simpl in Hs.
  rewrite keys_rescan in Hs.
  apply (JsMap_get_In_keys System_dec) in Hs. destruct Hs as (ents0 & G0).
  unfold member, qualifies. simpl. rewrite get_rescan, G0. simpl.
  destruct (In_rescan_set (entities st) s (JsMap.keys (entities st))
              (fun e H => H) ents0 x) as (P1 & P2).
  split.
  - intros (ents & E & I). injection E as <-.
    destruct (in_dec Z.eq_dec x (JsMap.keys (entities st))) as [R|R].
    + now apply P1.
    + exfalso. apply (P2 R) in I.
      destruct (System_dec s system) as [->|N].
      * rewrite JsMap_get_set_same in G0. injection G0 as <-. destruct I.
      * rewrite JsMap_get_set_other in G0 by assumption.
        apply R. apply (member_registered Data st x s W). now exists ents0.
  - intros (cs & G & HA). eexists. split; [reflexivity|].
    apply P1; [|now exists cs].
    apply (JsMap_get_In_keys Z.eq_dec). now exists cs.
Qed.

Lemma wf_system_added system (st : ECS') :
  wf st -> wf (system_added system st).
Proof.
  intros W. pose proof W as (ND & LT & SD & CP). repeat split.
  - simpl. rewrite keys_rescan. now apply JsMap_NoDup_set.
  - exact LT.
  - intros s x Hm. apply system_added_member; [assumption| |assumption].
    destruct Hm as (ents & G & _).
    apply (JsMap_get_In_keys System_dec). now exists ents.
  - intros s x Hs _ Q. now apply system_added_member.
Qed.

End Rescan.

(** ** Passes over the systems *)
Section PassFacts.

Variable Data : Type.

Local Abbreviation ECS' := (ECS Data).
Local Abbreviation skeys := (@JsMap.keys System JsSet.t).
Local Abbreviation sget := (JsMap.get System_dec).
Local Abbreviation eget := (JsMap.get Z.eq_dec).

Lemma wf_addComponent entity c (st : ECS') :
  wf st -> wf (snd (addComponent entity c st)).
Proof.
  intros W. destruct (eget entity (entities st)) as [cs|] eqn:G.
  - rewrite (addComponent_eq Data entity c cs st G (proj1 W)). simpl.
    apply wf_updated; [assumption|]. apply registered_get. now exists cs.
  - now rewrite addComponent_unregistered.
Qed.

Lemma wf_removeComponent entity c (st : ECS') :
  wf st -> wf (snd (removeComponent entity c st)).
Proof.
  intros W. destruct (eget entity (entities st)) as [cs|] eqn:G.
  - rewrite (removeComponent_eq Data entity c cs st G (proj1 W)). simpl.
    apply wf_updated; [assumption|]. apply registered_get. now exists cs.
  - now rewrite removeComponent_unregistered.
Qed.

Lemma wf_removeEntity entity (st : ECS') :
  wf st -> wf (snd (removeEntity entity st)).
Proof. apply wf_same; reflexivity. Qed.

Lemma wf_getComponents entity (st : ECS') :
  wf st -> wf (snd (getComponents entity st)).
Proof.
  rewrite getComponents_eq. now destruct (eget entity (entities st)).
Qed.

Lemma wf_getComponent entity t (st : ECS') :
  wf st -> wf (snd (getComponent entity t st)).
Proof.
  rewrite getComponent_eq. destruct (eget entity (entities st)) as [cs|];
    [|trivial]. now destruct (JsMap.get Z.eq_dec (creator_type t) cs).
Qed.

Lemma wf_addSystem system (st : ECS') :
  wf st -> wf (snd (addSystem system st)).
Proof.
  intros W. rewrite (addSystem_eq Data system st (proj1 W)).
  now apply wf_system_added.
Qed.

Lemma snd_answer {A} (wrap : A -> Answer Data) (m : M Data A) (st : ECS') :
  snd (answer wrap m st) = snd (m st).
Proof. unfold answer. now destruct (m st) as [[a|err] st']. Qed.

Lemma wf_exec_call system c (st : ECS') :
  wf st -> wf (snd (exec_call system c st)).
Proof.
  intros W. destruct c; cbn [exec_call]; rewrite ?snd_answer;
    auto using wf_addEntity, wf_removeEntity, wf_addComponent,
      wf_removeComponent, wf_getComponent, wf_getComponents.
Qed.

Lemma for_of_destroyEntity q (st : ECS') :
  NoDup (skeys (systems st)) ->
  for_of q destroyEntity st = (Ok tt, destroy_all q st).
Proof.
  revert st. induction q as [|e q IH]; intros st ND; simpl.
  - reflexivity.
  - unfold bind. rewrite destroyEntity_eq by assumption.
    apply IH. simpl. now rewrite keys_map_values.
Qed.

Lemma flush_eq (st : ECS') :
  NoDup (skeys (systems st)) ->
  flush st = (Ok tt, with_queue (destroy_all (entitiesToDestroy st) st) []).
Proof.
  intros ND. unfold flush, bind. now rewrite for_of_destroyEntity.
Qed.

Lemma wf_destroy_all q (st : ECS') : wf st -> wf (destroy_all q st).
Proof.
  revert st. induction q as [|e q IH]; intros st W; simpl; [assumption|].
  apply IH. now apply wf_destroyed.
Qed.

Lemma wf_flush (st : ECS') : wf st -> wf (snd (flush st)).
Proof.
  intros W. rewrite (flush_eq st (proj1 W)). simpl.
  apply (wf_same Data (destroy_all (entitiesToDestroy st) st));
    try reflexivity.
  now apply wf_destroy_all.
Qed.

(** *** The ghost record is a faithful account of the pass *)

Lemma chain_app (st : ECS') tr1 tr2 :
  chain st (tr1 ++ tr2) <-> chain st tr1 /\ chain (last_state st tr1) tr2.
Proof.
  revert st. induction tr1 as [|ev tr1 IH]; intros st; simpl.
  - tauto.
  - rewrite IH. tauto.
Qed.

Lemma last_state_app (st : ECS') tr1 tr2 :
  last_state st (tr1 ++ tr2) = last_state (last_state st tr1) tr2.
Proof.
  revert st. induction tr1 as [|ev tr1 IH]; intros st; simpl;
    [reflexivity | apply IH].
Qed.

Lemma run_chain system p (st : ECS') tr r st' :
  run system p st = (tr, r, st') -> chain st tr /\ last_state st tr = st'.
Proof.
  revert st tr r st'. induction p as [| err | c k IH]; intros st tr r st' H.
  - injection H as <- <- <-. simpl. auto.
  - injection H as <- <- <-. simpl. auto.
  - simpl in H. destruct (exec_call system c st) as [a st1] eqn:E.
    destruct (run system (k a) st1) as [[tr1 r1] st2] eqn:R.
    injection H as <- <- <-. apply IH in R. simpl. tauto.
Qed.

Lemma pass_chain beh todo (st : ECS') tr r st' :
  systems_pass beh todo st = (tr, r, st') ->
  chain st tr /\ last_state st tr = st'.
Proof.
  revert st tr r st'. induction todo as [|s todo IH]; intros st tr r st' H.
  - injection H as <- <- <-. simpl. auto.
  - simpl in H. destruct (sget s (systems st)) as [ents|] eqn:G.
    + destruct (run s (beh s ents) st) as [[tr1 r1] st1] eqn:R.
      apply run_chain in R. destruct R as (C1 & L1).
      destruct r1 as [[]|err].
      * destruct (systems_pass beh todo st1) as [[tr2 r2] st2] eqn:P.
        injection H as <- <- <-. apply IH in P. destruct P as (C2 & L2).
        simpl. rewrite chain_app, last_state_app, L1. tauto.
      * injection H as <- <- <-. simpl. tauto.
    + apply IH in H. exact H.
Qed.

(** A property kept by every engine call holds all along a record. *)
Lemma chain_invariant (P : ECS' -> Prop) :
  (forall system c st, P st -> P (snd (exec_call system c st))) ->
  forall tr st, P st -> chain st tr ->
    Forall (fun ev => P (event_state ev)) tr /\ P (last_state st tr).
Proof.
  intros HP. induction tr as [|ev tr IH]; intros st Hst C; simpl.
  - split; [constructor | assumption].
  - destruct C as (L & C).
    assert (Hev : P (event_state ev)).
    { destruct ev as [s ents st1 | s c a st1]; simpl in *.
      - destruct L as (-> & _). assumption.
      - specialize (HP s c st Hst). now rewrite L in HP. }
    destruct (IH _ Hev C) as (F & Q). split; [now constructor | assumption].
Qed.

Lemma wf_tick now (st : ECS') : wf st -> wf (tick now st).
Proof. apply wf_same; reflexivity. Qed.

Lemma wf_update now beh (st : ECS') : wf st -> wf (snd (update now beh st)).
Proof.
  intros W. unfold update, update_traced.
  destruct (systems_pass beh (skeys (systems (tick now st))) (tick now st))
    as [[tr r] st1] eqn:P.
  apply pass_chain in P. destruct P as (C & L).
  assert (W1 : wf st1).
  { rewrite <- L.
    apply (chain_invariant wf); auto using wf_exec_call, wf_tick. }
  destruct r as [[]|err]; simpl; [|assumption].
  destruct (flush st1) as [r2 st2] eqn:F. simpl.
  change st2 with (snd (r2, st2)). rewrite <- F. now apply wf_flush.
Qed.

Lemma wf_apply_op op (st : ECS') : wf st -> wf (apply_op op st).
Proof.
  intros W. destruct op; cbn [apply_op].
  - now apply wf_addEntity.
  - now apply wf_removeEntity.
  - now apply wf_addComponent.
  - now apply wf_removeComponent.
  - now apply wf_getComponents.
  - now apply wf_getComponent.
  - now apply wf_addSystem.
  - now apply wf_removeSystem.
  - revert W. apply wf_same; reflexivity.
  - now apply wf_update.
Qed.

Lemma wf_apply_ops ops (st : ECS') : wf st -> wf (apply_ops ops st).
Proof.
  revert st. induction ops as [|op ops IH]; intros st W; simpl;
    [assumption|]. apply IH. now apply wf_apply_op.
Qed.

(** Every state of a running program satisfies the invariant. *)
Lemma reachable_wf (st : ECS') : reachable st -> wf st.
Proof.
  induction 1; [apply wf_new | now apply wf_apply_op].
Qed.

End PassFacts.

(** ** Reading the store and the membership sets after a call *)
Section Views.

Variable Data : Type.

Local Abbreviation ECS' := (ECS Data).
Local Abbreviation skeys := (@JsMap.keys System JsSet.t).
Local Abbreviation sget := (JsMap.get System_dec).
Local Abbreviation eget := (JsMap.get Z.eq_dec).

Lemma registeredb_registered entity (st : ECS') :
  registeredb entity st = true <-> registered entity st.
Proof.
  unfold registeredb, JsMap.has. rewrite registered_get.
  destruct (eget entity (entities st)) as [cs|].
  - split; [now exists cs | reflexivity].
  - split; [discriminate | intros (cs & H); discriminate].
Qed.

Lemma memberb_member entity system (st : ECS') :
  memberb entity system st = true <-> member entity system st.
Proof.
  unfold memberb, member. destruct (sget system (systems st)) as [ents|].
  - rewrite JsSet_has_In. split.
    + intros H. now exists ents.
    + intros (ents' & E & H). now injection E as <-.
  - split; [discriminate | intros (ents' & E & _); discriminate].
Qed.

Lemma qualifiesb_qualifies entity system (st : ECS') :
  qualifiesb entity system st = true <-> qualifies entity system st.
Proof.
  unfold qualifiesb, qualifies.
  destruct (eget entity (entities st)) as [cs|].
  - split.
    + intros H. now exists cs.
    + intros (cs' & E & H). now injection E as <-.
  - split; [discriminate | intros (cs' & E & _); discriminate].
Qed.

Lemma system_registered_get system (st : ECS') :
  system_registered system st <->
  exists ents, sget system (systems st) = Some ents.
Proof. apply JsMap_get_In_keys. Qed.

Lemma member_system_registered entity system (st : ECS') :
  member entity system st -> system_registered system st.
Proof.
  intros (ents & G & _). apply system_registered_get. now exists ents.
Qed.

Lemma registered_updated x entity cs (st : ECS') :
  registered entity st ->
  (registered x (updated entity cs st) <-> registered x st).
Proof.
  intros R. unfold registered. simpl.
  rewrite (JsMap_In_keys_set Z.eq_dec). split; [|tauto].
  intros [-> | H]; assumption.
Qed.

Lemma member_updated x system entity cs (st : ECS') :
  member x system (updated entity cs st) <->
  (x = entity /\ hasAllRequired system cs = true
   /\ system_registered system st)
  \/ (x <> entity /\ member x system st).
Proof.
  unfold member. simpl. rewrite get_map_values. split.
  - intros (ents' & G & I).
    destruct (sget system (systems st)) as [ents|] eqn:Gs; [|discriminate].
    simpl in G. injection G as <-. apply In_recompute in I.
    destruct I as [(-> & HA) | (N & I)].
    + left. repeat split; try assumption.
      apply system_registered_get. now exists ents.
    + right. split; [assumption | now exists ents].
  - intros [(-> & HA & Hs) | (N & ents & G & I)].
    + apply system_registered_get in Hs. destruct Hs as (ents & ->).
      simpl. eexists. split; [reflexivity|]. apply In_recompute. now left.
    + rewrite G. simpl. eexists. split; [reflexivity|].
      apply In_recompute. now right.
Qed.

Lemma qualifies_updated_same system entity cs (st : ECS') :
  qualifies entity system (updated entity cs st) <->
  hasAllRequired system cs = true.
Proof.
  unfold qualifies. simpl. rewrite JsMap_get_set_same. split.
  - intros (cs' & E & H). now injection E as <-.
  - intros H. now exists cs.
Qed.

Lemma qualifies_updated_other x system entity cs (st : ECS') :
  x <> entity ->
  (qualifies x system (updated entity cs st) <-> qualifies x system st).
Proof.
  intros N. unfold qualifies. simpl.
  now rewrite JsMap_get_set_other.
Qed.

Lemma registered_destroyed x entity (st : ECS') :
  registered x (destroyed entity st) <-> x <> entity /\ registered x st.
Proof. unfold registered. simpl. apply JsMap_In_keys_delete. Qed.

Lemma member_destroyed x system entity (st : ECS') :
  member x system (destroyed entity st) <->
  x <> entity /\ member x system st.
Proof.
  unfold member. simpl. rewrite get_map_values. split.
  - intros (ents' & G & I).
    destruct (sget system (systems st)) as [ents|]; [|discriminate].
    simpl in G. injection G as <-. apply JsSet_In_delete in I.
    split; [tauto | exists ents; tauto].
  - intros (N & ents & G & I). rewrite G. simpl. eexists.
    split; [reflexivity|]. apply JsSet_In_delete. now split.
Qed.

Lemma registered_destroy_all x q (st : ECS') :
  registered x (destroy_all q st) <-> ~ In x q /\ registered x st.
Proof.
  revert st. induction q as [|e q IH]; intros st; simpl.
  - tauto.
  - rewrite IH, registered_destroyed. intuition congruence.
Qed.

Lemma member_destroy_all x system q (st : ECS') :
  member x system (destroy_all q st) <-> ~ In x q /\ member x system st.
Proof.
  revert st. induction q as [|e q IH]; intros st; simpl.
  - tauto.
  - rewrite IH, member_destroyed. intuition congruence.
Qed.

Lemma get_destroy_all x q (st : ECS') :
  ~ In x q ->
  eget x (entities (destroy_all q st)) = eget x (entities st).
Proof.
  revert st. induction q as [|e q IH]; intros st H; simpl.
  - reflexivity.
  - simpl in H. rewrite IH by tauto. simpl.
    apply JsMap_get_delete_other. intros ->. tauto.
Qed.

Lemma keys_destroy_all q (st : ECS') :
  skeys (systems (destroy_all q st)) = skeys (systems st).
Proof.
  revert st. induction q as [|e q IH]; intros st; simpl.
  - reflexivity.
  - rewrite IH. simpl. apply keys_map_values.
Qed.

End Views.

(** ** One frame, taken apart *)
Section Frames.

Variable Data : Type.

Local Abbreviation ECS' := (ECS Data).
Local Abbreviation skeys := (@JsMap.keys System JsSet.t).
Local Abbreviation sget := (JsMap.get System_dec).
Local Abbreviation eget := (JsMap.get Z.eq_dec).

(** As [chain_invariant], for a property kept by the calls in [ok]. *)
Lemma chain_invariant_when (P : ECS' -> Prop) (ok : Call Data -> Prop) :
  (forall system c st, P st -> ok c -> P (snd (exec_call system c st))) ->
  forall tr st, P st -> chain st tr ->
    (forall system c a st1, In (Called system c a st1) tr -> ok c) ->
    Forall (fun ev => P (event_state ev)) tr /\ P (last_state st tr).
Proof.
  intros HP. induction tr as [|ev tr IH]; intros st Hst C Hok; simpl.
  - split; [constructor | assumption].
  - destruct C as (L & C).
    assert (Hev : P (event_state ev)).
    { destruct ev as [s ents st1 | s c a st1]; simpl in *.
      - destruct L as (-> & _). assumption.
      - assert (O : ok c) by (apply (Hok s c a st1); now left).
        specialize (HP s c st Hst O). now rewrite L in HP. }
    destruct (IH _ Hev C) as (F & Q).
    + intros s c a st1 H. apply (Hok s c a st1). now right.
    + split; [now constructor | assumption].
Qed.

(** [update] is the pass from the ticked state, then the flush unless a
    system raised. *)
Lemma update_traced_inv now beh (st : ECS') tr r st' :
  wf st ->
  update_traced now beh st = (tr, r, st') ->
  let sl := last_state (tick now st) tr in
  chain (tick now st) tr
  /\ wf sl
  /\ systems_pass beh (skeys (systems st)) (tick now st) = (tr, r, sl)
  /\ match r with
     | Ok _ => st' = with_queue (destroy_all (entitiesToDestroy sl) sl) []
     | Threw _ => st' = sl
     end.
Proof.
  intros W H. unfold update_traced in H.
  change (systems (tick now st)) with (systems st) in H.
  destruct (systems_pass beh (skeys (systems st)) (tick now st))
    as [[tr0 r0] st1] eqn:P.
  pose proof (pass_chain Data _ _ _ _ _ _ P) as (C & L).
  assert (W1 : wf st1).
  { rewrite <- L.
    apply (chain_invariant Data wf); auto using wf_exec_call, wf_tick. }
  destruct r0 as [[]|err].
  - rewrite (flush_eq Data st1 (proj1 W1)) in H.
    injection H as <- <- <-. cbv zeta. rewrite L. auto.
  - injection H as <- <- <-. cbv zeta. rewrite L. auto.
Qed.

Lemma update_eq now beh (st : ECS') :
  update now beh st =
  (snd (fst (update_traced now beh st)), snd (update_traced now beh st)).
Proof.
  unfold update. now destruct (update_traced now beh st) as [[tr r] st'].
Qed.

End Frames.

(** ** Component reads *)
Section Reads.

Variable Data : Type.

Local Abbreviation ECS' := (ECS Data).
Local Abbreviation skeys := (@JsMap.keys System JsSet.t).
Local Abbreviation sget := (JsMap.get System_dec).
Local Abbreviation eget := (JsMap.get Z.eq_dec).

Lemma component_at_same entity ty (st st' : ECS') :
  entities st' = entities st ->
  component_at entity ty st' = component_at entity ty st.
Proof. unfold component_at. now intros ->. Qed.

Lemma component_at_registered entity ty (st : ECS') c :
  component_at entity ty st = Some c -> registered entity st.
Proof.
  unfold component_at. intros H. apply registered_get.
  destruct (eget entity (entities st)) as [cs|]; [now exists cs | discriminate].
Qed.

Lemma component_at_addEntity entity ty (st : ECS') c :
  wf st -> component_at entity ty st = Some c ->
  component_at entity ty (snd (addEntity st)) = Some c.
Proof.
  intros W H. pose proof (component_at_registered _ _ _ _ H) as R.
  apply (proj1 (proj2 W)) in R. unfold component_at in *. simpl.
  rewrite JsMap_get_set_other; [assumption | lia].
Qed.

Lemma component_at_updated entity ty e' cs' (st : ECS') :
  eget e' (entities st) = Some cs' ->
  forall cs'',
    (e' = entity -> JsMap.get Z.eq_dec ty cs'' = JsMap.get Z.eq_dec ty cs') ->
    component_at entity ty (updated e' cs'' st) = component_at entity ty st.
Proof.
  intros G cs'' H. unfold component_at. simpl.
  destruct (Z.eq_dec entity e') as [->|N].
  - rewrite JsMap_get_set_same, G. now apply H.
  - now rewrite JsMap_get_set_other.
Qed.

Lemma component_at_addComponent entity ty e' c' (st : ECS') :
  wf st -> ~ (e' = entity /\ type c' = ty) ->
  component_at entity ty (snd (addComponent e' c' st)) =
  component_at entity ty st.
Proof.
  intros W N. destruct (eget e' (entities st)) as [cs|] eqn:G.
  - rewrite (addComponent_eq Data e' c' cs st G (proj1 W)). simpl.
    apply (component_at_updated entity ty e' cs st G). intros ->.
    apply JsMap_get_set_other. intros E. apply N. auto.
  - now rewrite addComponent_unregistered.
Qed.

Lemma component_at_removeComponent entity ty e' c' (st : ECS') :
  wf st -> ~ (e' = entity /\ type c' = ty) ->
  component_at entity ty (snd (removeComponent e' c' st)) =
  component_at entity ty st.
Proof.
  intros W N. destruct (eget e' (entities st)) as [cs|] eqn:G.
  - rewrite (removeComponent_eq Data e' c' cs st G (proj1 W)). simpl.
    apply (component_at_updated entity ty e' cs st G). intros ->.
    apply JsMap_get_delete_other. intros E. apply N. auto.
  - now rewrite removeComponent_unregistered.
Qed.

Lemma entities_getComponents entity (st : ECS') :
  snd (getComponents entity st) = st.
Proof.
  rewrite getComponents_eq. now destruct (eget entity (entities st)).
Qed.

Lemma entities_getComponent entity t (st : ECS') :
  snd (getComponent entity t st) = st.
Proof.
  rewrite getComponent_eq. destruct (eget entity (entities st)) as [cs|];
    [|reflexivity]. now destruct (JsMap.get Z.eq_dec (creator_type t) cs).
Qed.

Lemma component_at_exec_call entity ty c0 system call (st : ECS') :
  wf st -> component_at entity ty st = Some c0 ->
  ~ touches entity ty call ->
  component_at entity ty (snd (exec_call system call st)) = Some c0.
Proof.
  intros W H N. destruct call; cbn [exec_call]; rewrite ?snd_answer;
    try assumption.
  - now apply component_at_addEntity.
  - now rewrite component_at_addComponent.
  - now rewrite component_at_removeComponent.
  - now rewrite entities_getComponent.
  - now rewrite entities_getComponents.
Qed.

Lemma component_at_update entity ty c0 now beh (st : ECS') :
  wf st -> component_at entity ty st = Some c0 ->
  keeps entity ty (OpUpdate now beh) st ->
  component_at entity ty (snd (update now beh st)) = Some c0.
Proof.
  intros W H (K1 & K2). rewrite update_eq. simpl.
  destruct (update_traced now beh st) as [[tr r] st'] eqn:U.
  simpl in K1, K2 |- *.
  destruct (update_traced_inv Data now beh st tr r st' W U)
    as (C & Wl & _ & F).
  assert (Q : wf (last_state (tick now st) tr)
              /\ component_at entity ty (last_state (tick now st) tr)
                 = Some c0).
  { apply (chain_invariant_when Data
             (fun s => wf s /\ component_at entity ty s = Some c0)
             (fun c => ~ touches entity ty c)); auto.
    intros s c s0 (W0 & H0) N. split.
    - now apply wf_exec_call.
    - now apply component_at_exec_call. }
  destruct Q as (_ & Q). destruct r as [[]|err].
  - subst st'. unfold component_at in *. simpl in *.
    apply registered_destroy_all in K2. destruct K2 as (K2 & _).
    now rewrite get_destroy_all.
  - now subst st'.
Qed.

Lemma component_at_apply_op entity ty c0 op (st : ECS') :
  wf st -> component_at entity ty st = Some c0 ->
  keeps entity ty op st ->
  component_at entity ty (apply_op op st) = Some c0.
Proof.
  intros W H K. destruct op; cbn [apply_op]; cbn [keeps] in K.
  - now apply component_at_addEntity.
  - exact H.
  - now rewrite component_at_addComponent.
  - now rewrite component_at_removeComponent.
  - now rewrite entities_getComponents.
  - now rewrite entities_getComponent.
  - rewrite (addSystem_eq Data system st (proj1 W)). exact H.
  - exact H.
  - exact H.
  - now apply component_at_update.
Qed.

Lemma component_at_apply_ops entity ty c0 ops (st : ECS') :
  wf st -> component_at entity ty st = Some c0 ->
  undisturbed entity ty ops st ->
  component_at entity ty (apply_ops ops st) = Some c0.
Proof.
  revert st. induction ops as [|op ops IH]; intros st W H U; simpl.
  - exact H.
  - destruct U as (K & U). apply IH; [now apply wf_apply_op | | exact U].
    now apply component_at_apply_op.
Qed.

(** C3.  After [addComponent(e, c)] on a registered entity, a
    [getComponent(e, t)] with [t] bound to [c.type] returns [c.data], also
    after any further calls that neither write the slot [(e, c.type)] nor
    destroy [e]. *)
Theorem C3_getComponent_after_addComponent
    (st : ECS') (e : Entity) (c : Component Data) (t : ComponentCreator)
    (ops : list (Op Data)) :
  reachable st ->
  registered e st ->
  creator_type t = type c ->
  undisturbed e (type c) ops (snd (addComponent e c st)) ->
  fst (addComponent e c st) = Ok tt
  /\ getComponent e t (apply_ops ops (snd (addComponent e c st)))
     = (Ok (data c), apply_ops ops (snd (addComponent e c st))).
Proof.
  intros R Hreg Ht U. apply reachable_wf in R.
  apply registered_get in Hreg. destruct Hreg as (cs & G).
  pose proof (wf_addComponent Data e c st R) as W1.
  rewrite (addComponent_eq Data e c cs st G (proj1 R)) in *.
  split; [reflexivity|]. cbn [snd] in *.
  assert (H1 : component_at e (type c)
                 (updated e (JsMap.set Z.eq_dec (type c) c cs) st) = Some c).
  { unfold component_at. simpl.
    now rewrite JsMap_get_set_same, JsMap_get_set_same. }
  pose proof (component_at_apply_ops e (type c) c ops _ W1 H1 U) as H2.
  rewrite getComponent_eq, Ht. unfold component_at in H2.
  destruct (eget e (entities (apply_ops ops
              (updated e (JsMap.set Z.eq_dec (type c) c cs) st))))
    as [cs2|]; [|discriminate].
  now rewrite H2.
Qed.

(** C4.  [addComponent], [removeComponent], [getComponents] and
    [getComponent] throw the unknown-entity error exactly when the entity
    is not in the store and the first three return otherwise;
    [getComponent] on a stored entity throws the missing-component error
    exactly when the entity has no component of that type and returns the
    stored payload otherwise. *)
Theorem C4_error_conditions
    (st : ECS') (e : Entity) (c : Component Data) (t : ComponentCreator) :
  (fst (addComponent e c st) = Threw (UnknownEntity e) <-> ~ registered e st)
  /\ (fst (addComponent e c st) = Ok tt <-> registered e st)
  /\ (fst (removeComponent e c st) = Threw (UnknownEntity e)
      <-> ~ registered e st)
  /\ (fst (removeComponent e c st) = Ok tt <-> registered e st)
  /\ (fst (getComponents e st) = Threw (UnknownEntity e)
      <-> ~ registered e st)
  /\ (forall cs, fst (getComponents e st) = Ok cs
                 <-> eget e (entities st) = Some cs)
  /\ (fst (getComponent e t st) = Threw (UnknownEntity e)
      <-> ~ registered e st)
  /\ (fst (getComponent e t st) = Threw (MissingComponent e (creator_type t))
      <-> registered e st /\ component_at e (creator_type t) st = None)
  /\ (forall d, fst (getComponent e t st) = Ok d
                <-> exists component,
                      component_at e (creator_type t) st = Some component
                      /\ d = data component).
Proof.
  rewrite registered_get, getComponents_eq, getComponent_eq.
  unfold component_at.
  destruct (eget e (entities st)) as [cs|] eqn:G.
  - destruct (addComponent_frame Data e c cs st G) as (s1 & -> & _).
    destruct (removeComponent_frame Data e c cs st G) as (s2 & -> & _).
    assert (Y : exists cs0 : Components Data, Some cs = Some cs0)
      by now exists cs.
    assert (N : ~ ~ exists cs0 : Components Data, Some cs = Some cs0)
      by tauto.
    simpl. repeat split; try tauto; try discriminate; try congruence.
    + intros H. exfalso.
      destruct (JsMap.get Z.eq_dec (creator_type t) cs); discriminate.
    + destruct (JsMap.get Z.eq_dec (creator_type t) cs); [discriminate|auto].
    + destruct (JsMap.get Z.eq_dec (creator_type t) cs);
        [intros (_ & H); discriminate | reflexivity].
    + destruct (JsMap.get Z.eq_dec (creator_type t) cs) as [comp|];
        simpl; [|discriminate]. intros [= <-]. now exists comp.
    + intros (comp & E & ->).
      destruct (JsMap.get Z.eq_dec (creator_type t) cs); [|discriminate].
      now injection E as ->.
  - rewrite (addComponent_unregistered Data e c st G).
    rewrite (removeComponent_unregistered Data e c st G).
    assert (N : ~ exists cs0 : Components Data, None = Some cs0)
      by (intros (cs0 & H); discriminate).
    simpl. repeat split; try tauto; try discriminate; try congruence.
    + intros (comp & E & _). discriminate.
Qed.

End Reads.

(** ** What no call of a system changes *)
Section CallFrame.

Variable Data : Type.

Local Abbreviation ECS' := (ECS Data).
Local Abbreviation skeys := (@JsMap.keys System JsSet.t).
Local Abbreviation sget := (JsMap.get System_dec).
Local Abbreviation eget := (JsMap.get Z.eq_dec).

Lemma extends_refl (st : ECS') : extends st st.
Proof.
  repeat split; auto; [|lia]. exists []. now rewrite app_nil_r.
Qed.

Lemma extends_trans (a b c : ECS') : extends a b -> extends b c -> extends a c.
Proof.
  intros (S1 & D1 & K1 & (x1 & Q1) & R1 & N1)
         (S2 & D2 & K2 & (x2 & Q2) & R2 & N2).
  repeat split; try congruence; auto; [|lia].
  exists (x1 ++ x2). rewrite Q2, Q1. now rewrite app_assoc.
Qed.

Lemma extends_updated entity cs (st : ECS') :
  registered entity st -> extends st (updated entity cs st).
Proof.
  intros R. repeat split; simpl; auto.
  - apply keys_map_values.
  - exists []. now rewrite app_nil_r.
  - intros e He. now apply registered_updated.
  - lia.
Qed.

Lemma extends_addEntity (st : ECS') : extends st (snd (addEntity st)).
Proof.
  unfold addEntity. repeat split; simpl; auto.
  - exists []. now rewrite app_nil_r.
  - intros e He. unfold registered. simpl.
    apply (JsMap_In_keys_set Z.eq_dec). now right.
  - lia.
Qed.

Lemma extends_addComponent entity c (st : ECS') :
  wf st -> extends st (snd (addComponent entity c st)).
Proof.
  intros W. destruct (eget entity (entities st)) as [cs|] eqn:G.
  - rewrite (addComponent_eq Data entity c cs st G (proj1 W)).
    apply extends_updated. apply registered_get. now exists cs.
  - rewrite addComponent_unregistered by assumption. apply extends_refl.
Qed.

Lemma extends_removeComponent entity c (st : ECS') :
  wf st -> extends st (snd (removeComponent entity c st)).
Proof.
  intros W. destruct (eget entity (entities st)) as [cs|] eqn:G.
  - rewrite (removeComponent_eq Data entity c cs st G (proj1 W)).
    apply extends_updated. apply registered_get. now exists cs.
  - rewrite removeComponent_unregistered by assumption. apply extends_refl.
Qed.

Lemma extends_exec_call system c (st : ECS') :
  wf st -> extends st (snd (exec_call system c st)).
Proof.
  intros W. destruct c; cbn [exec_call]; rewrite ?snd_answer;
    try apply extends_refl.
  - apply extends_addEntity.
  - unfold removeEntity, modify. repeat split; simpl; auto;
      [now eexists | lia].
  - now apply extends_addComponent.
  - now apply extends_removeComponent.
  - rewrite entities_getComponent. apply extends_refl.
  - rewrite entities_getComponents. apply extends_refl.
Qed.

(** Along a record, every state extends the first one, and each call was
    executed in a state that does too. *)
Lemma chain_extends tr (st : ECS') :
  wf st -> chain st tr ->
  Forall (fun ev => wf (event_state ev) /\ extends st (event_state ev)) tr
  /\ wf (last_state st tr) /\ extends st (last_state st tr).
Proof.
  intros W C.
  destruct (chain_invariant Data (fun s => wf s /\ extends st s)) with
    (tr := tr) (st := st) as (F & Q); auto using extends_refl.
  intros s c s0 (W0 & E0). split; [now apply wf_exec_call|].
  apply (extends_trans st s0); [assumption | now apply extends_exec_call].
Qed.

Lemma chain_call_origin (P : ECS' -> Prop) :
  (forall system c st, P st -> P (snd (exec_call system c st))) ->
  forall tr st, P st -> chain st tr ->
  forall system c a st1, In (Called system c a st1) tr ->
  exists st0, P st0 /\ exec_call system c st0 = (a, st1).
Proof.
  intros HP. induction tr as [|ev tr IH]; intros st Hst C s c a st1 H.
  - destruct H.
  - destruct C as (L & C). destruct H as [-> | H].
    + exists st. split; [assumption | exact L].
    + apply (IH (event_state ev)); try assumption.
      destruct ev as [s' ents st2 | s' c' a' st2]; simpl in *.
      * destruct L as (-> & _). assumption.
      * specialize (HP s' c' st Hst). now rewrite L in HP.
Qed.

Lemma chain_invoked tr (st : ECS') :
  chain st tr ->
  forall system ents sti, In (Invoked system ents sti) tr ->
  sget system (systems sti) = Some ents.
Proof.
  revert st. induction tr as [|ev tr IH]; intros st C s ents sti H.
  - destruct H.
  - destruct C as (L & C). destruct H as [-> | H].
    + simpl in L. destruct L as (-> & G). exact G.
    + now apply (IH (event_state ev)).
Qed.

(** *** Clock *)

Lemma clock_apply_op op (st : ECS') :
  wf st -> is_update op = false ->
  start (apply_op op st) = start st /\ delta (apply_op op st) = delta st.
Proof.
  intros W N. destruct op; cbn [apply_op]; try discriminate.
  - destruct (extends_addEntity st) as (S & D & _). auto.
  - auto.
  - destruct (extends_addComponent entity component st W) as (S & D & _).
    auto.
  - destruct (extends_removeComponent entity component st W) as (S & D & _).
    auto.
  - now rewrite entities_getComponents.
  - now rewrite entities_getComponent.
  - now rewrite (addSystem_eq Data system st (proj1 W)).
  - auto.
  - auto.
Qed.

Lemma clock_apply_ops ops (st : ECS') :
  wf st -> no_update ops ->
  start (apply_ops ops st) = start st /\ delta (apply_ops ops st) = delta st.
Proof.
  revert st. induction ops as [|op ops IH]; intros st W N; simpl.
  - auto.
  - inversion N as [|? ? N1 N2]; subst.
    destruct (IH (apply_op op st)) as (S & D);
      [now apply wf_apply_op | assumption |].
    destruct (clock_apply_op op st W N1) as (S1 & D1).
    split; congruence.
Qed.

(** What a frame does to the clock: systems see [now - start], and the
    baseline moves to [now]. *)
Lemma clock_update now beh (st : ECS') :
  wf st ->
  Forall (fun ev => delta (event_state ev) = now - start st)
    (fst (fst (update_traced now beh st)))
  /\ (forall system a st1,
        In (Called system CallDelta a st1)
           (fst (fst (update_traced now beh st))) ->
        a = ANumber (now - start st))
  /\ delta (snd (update now beh st)) = now - start st
  /\ start (snd (update now beh st)) = now.
Proof.
  intros W. rewrite update_eq.
  destruct (update_traced now beh st) as [[tr r] st'] eqn:U. simpl.
  destruct (update_traced_inv Data now beh st tr r st' W U)
    as (C & Wl & _ & F).
  assert (HP : forall system c (s0 : ECS'),
            wf s0 /\ delta s0 = now - start st /\ start s0 = now ->
            wf (snd (exec_call system c s0))
            /\ delta (snd (exec_call system c s0)) = now - start st
            /\ start (snd (exec_call system c s0)) = now).
  { intros s c s0 (W0 & D0 & S0).
    destruct (extends_exec_call s c s0 W0) as (S & D & _).
    split; [now apply wf_exec_call | split; congruence]. }
  assert (P0 : wf (tick now st) /\ delta (tick now st) = now - start st
               /\ start (tick now st) = now).
  { split; [now apply wf_tick | split; reflexivity]. }
  destruct (chain_invariant Data _ HP tr (tick now st) P0 C) as (FA & _ & Dl & Sl).
  repeat split.
  - eapply Forall_impl; [|exact FA]. simpl. tauto.
  - intros s a st1 H.
    destruct (chain_call_origin _ HP tr (tick now st) P0 C s CallDelta a st1 H)
      as (s0 & (_ & D0 & _) & E).
    simpl in E. injection E as <- _. now rewrite D0.
  - destruct r as [[]|err]; subst st'; simpl; try assumption.
    clear - Dl. revert Dl.
    generalize (last_state (tick now st) tr) as sl. intros sl.
    generalize (entitiesToDestroy sl) as q. intros q. revert sl.
    induction q as [|e q IH]; intros sl H; simpl; [assumption|].
    apply IH. exact H.
  - destruct r as [[]|err]; subst st'; simpl; try assumption.
    clear - Sl. revert Sl.
    generalize (last_state (tick now st) tr) as sl. intros sl.
    generalize (entitiesToDestroy sl) as q. intros q. revert sl.
    induction q as [|e q IH]; intros sl H; simpl; [assumption|].
    apply IH. exact H.
Qed.

(** C7.  In the second of two consecutive [update()] calls, the delta
    that systems read is the clock reading of the second call minus the
    reading of the first, whatever the two readings are; it is
    non-negative exactly when the second reading is not below the first.
    In the first [update()] of an engine it is the reading minus the
    reading taken at construction. *)
Theorem C7_frame_delta
    (st : ECS') (now0 now1 now2 nextE nextC : Z)
    (beh1 beh2 : Behaviour Data) (ops ops0 : list (Op Data)) :
  reachable st ->
  no_update ops -> no_update ops0 ->
  (let st1 := apply_ops ops (snd (update now1 beh1 st)) in
   let tr := fst (fst (update_traced now2 beh2 st1)) in
   (forall ev, In ev tr ->
      delta (event_state ev) = now2 - now1
      /\ (0 <= delta (event_state ev) <-> now1 <= now2))
   /\ (forall system a st2,
         In (Called system CallDelta a st2) tr -> a = ANumber (now2 - now1))
   /\ delta (snd (update now2 beh2 st1)) = now2 - now1
   /\ (0 <= delta (snd (update now2 beh2 st1)) <-> now1 <= now2))
  /\ (let st0 := apply_ops ops0 (new_ECS Data now0 nextE nextC) in
      let tr := fst (fst (update_traced now1 beh1 st0)) in
      (forall ev, In ev tr -> delta (event_state ev) = now1 - now0)
      /\ (forall system a st2,
            In (Called system CallDelta a st2) tr ->
            a = ANumber (now1 - now0))
      /\ delta (snd (update now1 beh1 st0)) = now1 - now0).
Proof.
  intros R N N0. apply reachable_wf in R. split.
  - cbv zeta.
    assert (W1 : wf (snd (update now1 beh1 st))) by now apply wf_update.
    assert (W2 : wf (apply_ops ops (snd (update now1 beh1 st))))
      by now apply wf_apply_ops.
    destruct (clock_update now1 beh1 st R) as (_ & _ & _ & S1).
    destruct (clock_apply_ops ops _ W1 N) as (S2 & _).
    destruct (clock_update now2 beh2 _ W2) as (F & A & D & _).
    rewrite S2, S1 in F, A, D.
    split; [|split; [exact A | split; [exact D | rewrite D; lia]]].
    intros ev H. rewrite Forall_forall in F.
    rewrite (F ev H). split; [reflexivity | lia].
  - cbv zeta.
    assert (W0 : wf (apply_ops ops0 (new_ECS Data now0 nextE nextC)))
      by (apply wf_apply_ops, wf_new).
    destruct (clock_apply_ops ops0 _ (wf_new Data now0 nextE nextC) N0)
      as (S0 & _).
    destruct (clock_update now1 beh1 _ W0) as (F & A & D & _).
    rewrite S0 in F, A, D. simpl in F, A, D.
    repeat split; try assumption.
    intros ev H. rewrite Forall_forall in F. now apply F.
Qed.

End CallFrame.

(** ** Destruction requests *)
Section Destruction.

Variable Data : Type.

Local Abbreviation ECS' := (ECS Data).
Local Abbreviation skeys := (@JsMap.keys System JsSet.t).
Local Abbreviation sget := (JsMap.get System_dec).
Local Abbreviation eget := (JsMap.get Z.eq_dec).

Lemma map_values_id f (S : @JsMap.t System JsSet.t) :
  (forall k v, In (k, v) S -> f k v = v) -> map_values f S = S.
Proof.
  unfold map_values. induction S as [|[k v] S IH]; intros H; simpl.
  - reflexivity.
  - rewrite (H k v) by now left. f_equal. apply IH.
    intros k' v' H'. apply H. now right.
Qed.

Lemma with_entities_id (st : ECS') : with_entities st (entities st) = st.
Proof. now destruct st. Qed.

(** Destroying an identifier that is not in the store changes nothing. *)
Lemma destroyed_unregistered entity (st : ECS') :
  wf st -> ~ registered entity st -> destroyed entity st = st.
Proof.
  intros W N. unfold destroyed.
  rewrite JsMap_delete_absent by exact N. rewrite with_entities_id.
  rewrite map_values_id; [apply with_systems_id|].
  intros k v H. apply JsSet_delete_absent. intros I. apply N.
  apply (member_registered Data st entity k W). exists v.
  split; [|assumption]. apply JsMap_In_get; [exact (proj1 W) | exact H].
Qed.

Lemma destroy_all_app q1 q2 (st : ECS') :
  destroy_all (q1 ++ q2) st = destroy_all q2 (destroy_all q1 st).
Proof. unfold destroy_all. apply fold_left_app. Qed.

Lemma flush_with_queue q (st : ECS') :
  wf st ->
  flush (with_queue st q) = (Ok tt, with_queue (destroy_all q st) []).
Proof.
  intros W. rewrite flush_eq by exact (proj1 W). simpl. f_equal.
  assert (G : forall (s : ECS') q',
            with_queue (destroy_all q (with_queue s q')) [] =
            with_queue (destroy_all q s) []).
  { clear. induction q as [|e q IH]; intros s q'; simpl; [reflexivity|].
    apply (IH (destroyed e s) q'). }
  apply G.
Qed.

(** C9.  [removeEntity] returns for every identifier; when the identifier
    is not in the store, [destroyEntity] leaves the whole engine as it
    was, so flushing a queue with it gives what flushing the queue without
    it gives. *)
Theorem C9_destroy_unknown
    (st : ECS') (e : Entity) (q1 q2 : list Entity) :
  reachable st ->
  ~ registered e st ->
  (forall e',
     removeEntity e' st
     = (Ok tt, with_queue st (entitiesToDestroy st ++ [e'])))
  /\ destroyEntity e st = (Ok tt, st)
  /\ flush (with_queue st [e]) = (Ok tt, with_queue st [])
  /\ flush (with_queue st (q1 ++ e :: q2))
     = flush (with_queue st (q1 ++ q2)).
Proof.
  intros R N. apply reachable_wf in R. repeat split.
  - rewrite destroyEntity_eq by exact (proj1 R).
    now rewrite destroyed_unregistered.
  - rewrite flush_with_queue by assumption. simpl.
    now rewrite destroyed_unregistered.
  - rewrite !flush_with_queue by assumption.
    rewrite !destroy_all_app. simpl.
    rewrite (destroyed_unregistered e (destroy_all q1 st)).
    + reflexivity.
    + now apply wf_destroy_all.
    + rewrite registered_destroy_all. tauto.
Qed.

End Destruction.

(** ** The order of invocation *)
Section Invocation.

Variable Data : Type.

Local Abbreviation ECS' := (ECS Data).
Local Abbreviation skeys := (@JsMap.keys System JsSet.t).
Local Abbreviation sget := (JsMap.get System_dec).
Local Abbreviation eget := (JsMap.get Z.eq_dec).

Lemma NoDup_app_disjoint {A} (l l' : list A) (a : A) :
  NoDup (l ++ l') -> In a l -> In a l' -> False.
Proof.
  induction l as [|x l IH]; simpl; intros ND H H'.
  - destruct H.
  - inversion ND as [|? ? Hn ND']; subst. destruct H as [-> | H].
    + apply Hn. apply in_or_app. now right.
    + now apply IH.
Qed.

Lemma invocations_app (tr1 tr2 : list (Event Data)) :
  invocations (tr1 ++ tr2) = invocations tr1 ++ invocations tr2.
Proof.
  induction tr1 as [|[s ents st | s c a st] tr1 IH]; simpl;
    [reflexivity | now rewrite IH | exact IH].
Qed.

Lemma run_invocations system p (st : ECS') tr r st' :
  run system p st = (tr, r, st') -> invocations tr = [].
Proof.
  revert st tr r st'. induction p as [| err | c k IH]; intros st tr r st' H.
  - now injection H as <- _ _.
  - now injection H as <- _ _.
  - simpl in H. destruct (exec_call system c st) as [a st1].
    destruct (run system (k a) st1) as [[tr1 r1] st2] eqn:R.
    injection H as <- _ _. simpl. now apply IH in R.
Qed.

Lemma run_extends system p (st : ECS') tr r st' :
  wf st -> run system p st = (tr, r, st') -> wf st' /\ extends st st'.
Proof.
  intros W H. apply run_chain in H. destruct H as (C & <-).
  now apply chain_extends.
Qed.

Lemma pass_extends beh todo (st : ECS') tr r st' :
  wf st -> systems_pass beh todo st = (tr, r, st') ->
  wf st' /\ extends st st'.
Proof.
  intros W H. apply pass_chain in H. destruct H as (C & <-).
  now apply chain_extends.
Qed.

Lemma pass_invocations beh todo (st : ECS') tr r st' :
  wf st ->
  (forall s, In s todo -> system_registered s st) ->
  systems_pass beh todo st = (tr, r, st') ->
  match r with
  | Ok _ => map fst (invocations tr) = todo
  | Threw _ =>
      exists pre s post,
        todo = pre ++ s :: post /\ map fst (invocations tr) = pre ++ [s]
  end.
Proof.
  revert st tr r st'. induction todo as [|s todo IH];
    intros st tr r st' W Hreg H.
  - injection H as <- <- <-. reflexivity.
  - simpl in H.
    destruct (proj1 (system_registered_get Data s st)
                (Hreg s (or_introl eq_refl))) as (ents & G).
    rewrite G in H.
    destruct (run s (beh s ents) st) as [[tr1 r1] st1] eqn:R.
    pose proof (run_invocations _ _ _ _ _ _ R) as I1.
    destruct (run_extends _ _ _ _ _ _ W R) as (W1 & (_ & _ & K & _)).
    destruct r1 as [[]|err].
    + destruct (systems_pass beh todo st1) as [[tr2 r2] st2] eqn:P.
      injection H as <- <- <-.
      assert (Hreg1 : forall s0, In s0 todo -> system_registered s0 st1).
      { intros s0 H0. unfold system_registered. rewrite K.
        apply Hreg. now right. }
      specialize (IH st1 tr2 r2 st2 W1 Hreg1 P).
      simpl. rewrite invocations_app, I1. simpl.
      destruct r2 as [[]|err].
      * now rewrite IH.
      * destruct IH as (pre & s0 & post & -> & E).
        exists (s :: pre), s0, post. simpl. now rewrite E.
    + injection H as <- <- <-. exists [], s, todo. simpl.
      now rewrite I1.
Qed.

Lemma pass_app beh pre rest (st : ECS') :
  systems_pass beh (pre ++ rest) st =
  match systems_pass beh pre st with
  | (tr1, Ok _, st1) =>
      let '(tr2, r, st2) := systems_pass beh rest st1 in
      (tr1 ++ tr2, r, st2)
  | (tr1, Threw err, st1) => (tr1, Threw err, st1)
  end.
Proof.
  revert st. induction pre as [|s pre IH]; intros st; simpl.
  - now destruct (systems_pass beh rest st) as [[tr2 r] st2].
  - destruct (sget s (systems st)) as [ents|]; [|apply IH].
    destruct (run s (beh s ents) st) as [[tr1 [[]|err]] st1];
      [|reflexivity].
    rewrite IH.
    destruct (systems_pass beh pre st1) as [[tr2 [[]|err]] st2];
      [|reflexivity].
    destruct (systems_pass beh rest st2) as [[tr3 r3] st3].
    now rewrite app_comm_cons, app_assoc.
Qed.

(** *** The keys of [systems] follow the history of calls *)

Lemma keys_delete_filter system (S : @JsMap.t System JsSet.t) :
  skeys (JsMap.delete System_dec system S) =
  filter (fun s => if System_dec system s then false else true) (skeys S).
Proof.
  unfold JsMap.delete, JsMap.keys.
  induction S as [|[k v] S IH]; simpl; [reflexivity|].
  destruct (System_dec system k); simpl; now rewrite IH.
Qed.

Lemma keys_update now beh (st : ECS') :
  wf st -> skeys (systems (snd (update now beh st))) = skeys (systems st).
Proof.
  intros W. rewrite update_eq. simpl.
  destruct (update_traced now beh st) as [[tr r] st'] eqn:U. simpl.
  destruct (update_traced_inv Data now beh st tr r st' W U)
    as (C & _ & _ & F).
  destruct (chain_extends Data tr (tick now st) (wf_tick Data now st W) C)
    as (_ & _ & (_ & _ & K & _)).
  destruct r as [[]|err]; subst st'; simpl.
  - now rewrite keys_destroy_all.
  - exact K.
Qed.

Lemma keys_apply_op op (st : ECS') :
  wf st ->
  skeys (systems (apply_op op st)) = registration_step (skeys (systems st)) op.
Proof.
  intros W. destruct op; cbn [apply_op registration_step]; try reflexivity.
  - now destruct (extends_addComponent Data entity component st W)
      as (_ & _ & K & _).
  - now destruct (extends_removeComponent Data entity component st W)
      as (_ & _ & K & _).
  - now rewrite entities_getComponents.
  - now rewrite entities_getComponent.
  - rewrite (addSystem_eq Data system st (proj1 W)). simpl.
    rewrite keys_rescan.
    destruct (in_dec System_dec system (skeys (systems st))) as [I|I].
    + now apply JsMap_keys_set_present.
    + now apply JsMap_keys_set_absent.
  - simpl. apply keys_delete_filter.
  - now apply keys_update.
Qed.

Lemma keys_apply_ops ops (st : ECS') :
  wf st ->
  skeys (systems (apply_ops ops st))
  = fold_left registration_step ops (skeys (systems st)).
Proof.
  revert st. induction ops as [|op ops IH]; intros st W; simpl.
  - reflexivity.
  - rewrite IH by now apply wf_apply_op. now rewrite keys_apply_op.
Qed.


Lemma update_flushes_queue now beh (st : ECS') e :
  wf st ->
  fst (update now beh st) = Ok tt ->
  In e (entitiesToDestroy st) ->
  absent e (snd (update now beh st))
  /\ entitiesToDestroy (snd (update now beh st)) = [].
Proof.
  intros W HOk Hq. rewrite update_eq in *.
  destruct (update_traced now beh st) as [[tr r] st'] eqn:U.
  simpl in *. subst r.
  destruct (update_traced_inv Data now beh st tr (Ok tt) st' W U)
    as (C & _ & _ & ->).
  destruct (chain_extends Data tr (tick now st) (wf_tick Data now st W) C)
    as (_ & _ & (_ & _ & _ & (extra & Q) & _)).
  split; [|reflexivity].
  assert (I : In e (entitiesToDestroy (last_state (tick now st) tr))).
  { rewrite Q. apply in_or_app. now left. }
  split.
  - intros H.
    change (registered e
              (destroy_all (entitiesToDestroy (last_state (tick now st) tr))
                 (last_state (tick now st) tr))) in H.
    apply registered_destroy_all in H. tauto.
  - intros s H.
    change (member e s
              (destroy_all (entitiesToDestroy (last_state (tick now st) tr))
                 (last_state (tick now st) tr))) in H.
    apply member_destroy_all in H. tauto.
Qed.

(** C5.  When the systems before [s] return and [s] raises, [update]
    throws that error and leaves the engine as [s] left it: the systems
    after [s] are not invoked, every entity of the store is still there,
    the queue still holds its entries, and the next [update] that returns
    destroys them. *)
Theorem C5_error_aborts_frame
    (st : ECS') (now : Z) (beh : Behaviour Data)
    (pre post : list System) (s : System) (ents : JsSet.t)
    (tr1 tr2 : list (Event Data)) (st1 st2 : ECS') (err : Error) :
  reachable st ->
  JsMap.keys (systems st) = pre ++ s :: post ->
  systems_pass beh pre (tick now st) = (tr1, Ok tt, st1) ->
  sget s (systems st1) = Some ents ->
  run s (beh s ents) st1 = (tr2, Threw err, st2) ->
  update now beh st = (Threw err, st2)
  /\ map fst (invocations (fst (fst (update_traced now beh st))))
     = pre ++ [s]
  /\ (forall x, In x post ->
        ~ In x (map fst (invocations (fst (fst (update_traced now beh st))))))
  /\ (forall e, registered e st -> registered e st2)
  /\ (forall e x, member e x st2 -> registered e st2)
  /\ (exists extra,
        entitiesToDestroy st2 = entitiesToDestroy st ++ extra)
  /\ (forall now' beh' e,
        fst (update now' beh' st2) = Ok tt ->
        In e (entitiesToDestroy st2) ->
        absent e (snd (update now' beh' st2))).
Proof.
  intros R K P G Rn. apply reachable_wf in R.
  assert (U : update_traced now beh st
              = (tr1 ++ Invoked s ents st1 :: tr2, Threw err, st2)).
  { unfold update_traced.
    change (systems (tick now st)) with (systems st).
    rewrite K, pass_app, P. simpl. now rewrite G, Rn. }
  pose proof (wf_tick Data now st R) as Wt.
  destruct (pass_extends _ _ _ _ _ _ Wt P) as (W1 & E1).
  destruct (run_extends _ _ _ _ _ _ W1 Rn) as (W2 & E2).
  pose proof (extends_trans Data _ _ _ E1 E2) as (_ & _ & _ & Q & Rg & _).
  assert (I : map fst (invocations (tr1 ++ Invoked s ents st1 :: tr2))
              = pre ++ [s]).
  { rewrite invocations_app. simpl.
    rewrite (run_invocations _ _ _ _ _ _ Rn), map_app. simpl.
    assert (Hpre : forall x, In x pre -> system_registered x (tick now st)).
    { intros x Hx. unfold system_registered. simpl. rewrite K.
      apply in_or_app. now left. }
    pose proof (pass_invocations beh pre _ _ _ _ Wt Hpre P) as I0.
    simpl in I0. now rewrite I0. }
  rewrite update_eq, U. simpl. rewrite I.
  repeat match goal with |- _ /\ _ => split end.
  - reflexivity.
  - reflexivity.
  - intros x Hx F. apply (NoDup_app_disjoint (pre ++ [s]) post x);
      try assumption.
    rewrite <- app_assoc. simpl. rewrite <- K. exact (proj1 R).
  - exact Rg.
  - intros e x. apply member_registered. exact W2.
  - exact Q.
  - intros now' beh' e HOk Hq.
    now apply update_flushes_queue.
Qed.

End Invocation.

(** ** Deferred destruction *)
Section Deferred.

Variable Data : Type.

Local Abbreviation ECS' := (ECS Data).
Local Abbreviation skeys := (@JsMap.keys System JsSet.t).
Local Abbreviation sget := (JsMap.get System_dec).
Local Abbreviation eget := (JsMap.get Z.eq_dec).

Lemma member_kept_updated e s' e' cs (s2 : ECS') :
  system_registered s' s2 ->
  (qualifies e s' s2 -> member e s' s2) ->
  qualifies e s' (updated e' cs s2) -> member e s' (updated e' cs s2).
Proof.
  intros Hs H Q. apply member_updated.
  destruct (Z.eq_dec e e') as [->|N].
  - left. apply qualifies_updated_same in Q. auto.
  - right. split; [assumption|]. apply H.
    now apply qualifies_updated_other in Q.
Qed.

Lemma member_kept_exec_call e s' system call (s2 : ECS') :
  wf s2 -> registered e s2 -> system_registered s' s2 ->
  (qualifies e s' s2 -> member e s' s2) ->
  qualifies e s' (snd (exec_call system call s2)) ->
  member e s' (snd (exec_call system call s2)).
Proof.
  intros W R Hs H.
  destruct call; cbn [exec_call]; rewrite ?snd_answer; try exact H.
  - unfold addEntity, qualifies, member. simpl.
    rewrite JsMap_get_set_other; [exact H|].
    apply (proj1 (proj2 W)) in R. lia.
  - destruct (eget entity (entities s2)) as [cs|] eqn:G.
    + rewrite (addComponent_eq Data entity component cs s2 G (proj1 W)).
      now apply member_kept_updated.
    + now rewrite addComponent_unregistered.
  - destruct (eget entity (entities s2)) as [cs|] eqn:G.
    + rewrite (removeComponent_eq Data entity component cs s2 G (proj1 W)).
      now apply member_kept_updated.
    + now rewrite removeComponent_unregistered.
  - now rewrite entities_getComponent.
  - now rewrite entities_getComponents.
Qed.

Lemma counter_destroy_all q (st : ECS') :
  nextEntityID (destroy_all q st) = nextEntityID st.
Proof.
  revert st. induction q as [|e q IH]; intros st; simpl;
    [reflexivity | now rewrite IH].
Qed.

(** *** A destroyed identifier never comes back *)

Lemma gone_updated e e' cs (st : ECS') :
  gone e st -> registered e' st -> gone e (updated e' cs st).
Proof.
  intros (W & (NR & NM) & L) R. split; [now apply wf_updated|].
  split; [split|exact L].
  - now rewrite registered_updated.
  - intros s H. apply member_updated in H.
    destruct H as [(-> & _) | (_ & H)]; [contradiction | now apply (NM s)].
Qed.

Lemma gone_addEntity e (st : ECS') : gone e st -> gone e (snd (addEntity st)).
Proof.
  intros (W & (NR & NM) & L). split; [now apply wf_addEntity|].
  unfold addEntity. simpl. split; [split|lia].
  - unfold registered. simpl. rewrite (JsMap_In_keys_set Z.eq_dec).
    intros [-> | H]; [lia | contradiction].
  - exact NM.
Qed.

Lemma gone_addComponent e e' c (st : ECS') :
  gone e st -> gone e (snd (addComponent e' c st)).
Proof.
  intros G. destruct (eget e' (entities st)) as [cs|] eqn:E.
  - rewrite (addComponent_eq Data e' c cs st E (proj1 (proj1 G))).
    apply gone_updated; [assumption|]. apply registered_get. now exists cs.
  - now rewrite addComponent_unregistered.
Qed.

Lemma gone_removeComponent e e' c (st : ECS') :
  gone e st -> gone e (snd (removeComponent e' c st)).
Proof.
  intros G. destruct (eget e' (entities st)) as [cs|] eqn:E.
  - rewrite (removeComponent_eq Data e' c cs st E (proj1 (proj1 G))).
    apply gone_updated; [assumption|]. apply registered_get. now exists cs.
  - now rewrite removeComponent_unregistered.
Qed.

Lemma gone_same e (st st' : ECS') :
  systems st' = systems st -> entities st' = entities st ->
  nextEntityID st' = nextEntityID st -> gone e st -> gone e st'.
Proof.
  intros Hs He Hn (W & (NR & NM) & L).
  split; [now apply (wf_same Data st)|].
  unfold absent, registered, member in *. rewrite Hs, He, Hn. auto.
Qed.

Lemma gone_exec_call e system call (st : ECS') :
  gone e st -> gone e (snd (exec_call system call st)).
Proof.
  intros G. destruct call; cbn [exec_call]; rewrite ?snd_answer;
    try exact G.
  - now apply gone_addEntity.
  - now apply gone_addComponent.
  - now apply gone_removeComponent.
  - now rewrite entities_getComponent.
  - now rewrite entities_getComponents.
Qed.

Lemma gone_destroy_all e q (st : ECS') :
  gone e st -> gone e (destroy_all q st).
Proof.
  intros (W & (NR & NM) & L). split; [now apply wf_destroy_all|].
  rewrite counter_destroy_all. split; [split|exact L].
  - rewrite registered_destroy_all. tauto.
  - intros s. rewrite member_destroy_all. intros (_ & H). now apply (NM s).
Qed.

Lemma gone_update e now beh (st : ECS') :
  gone e st -> gone e (snd (update now beh st)).
Proof.
  intros G. rewrite update_eq. simpl.
  destruct (update_traced now beh st) as [[tr r] st'] eqn:U. simpl.
  destruct (update_traced_inv Data now beh st tr r st' (proj1 G) U)
    as (C & _ & _ & F).
  assert (Gl : gone e (last_state (tick now st) tr)).
  { apply (chain_invariant Data (gone e)); auto using gone_exec_call. }
  destruct r as [[]|err]; subst st'; [|exact Gl].
  apply (gone_same e
           (destroy_all (entitiesToDestroy (last_state (tick now st) tr))
              (last_state (tick now st) tr))); try reflexivity.
  now apply gone_destroy_all.
Qed.

Lemma gone_apply_op e op (st : ECS') : gone e st -> gone e (apply_op op st).
Proof.
  intros G. destruct op; cbn [apply_op].
  - now apply gone_addEntity.
  - revert G. apply gone_same; reflexivity.
  - now apply gone_addComponent.
  - now apply gone_removeComponent.
  - now rewrite entities_getComponents.
  - now rewrite entities_getComponent.
  - destruct G as (W & (NR & NM) & L).
    rewrite (addSystem_eq Data system st (proj1 W)). simpl.
    split; [now apply wf_system_added|]. split; [split|exact L].
    + exact NR.
    + intros s H. apply NR.
      assert (Q : qualifies e s (system_added system st)).
      { apply system_added_member; try assumption.
        now apply member_system_registered in H. }
      destruct Q as (cs & E & _). apply registered_get. now exists cs.
  - destruct G as (W & (NR & NM) & L).
    split; [now apply wf_removeSystem|]. split; [split|exact L].
    + exact NR.
    + intros s (ents & E & I). unfold removeSystem, modify in E. simpl in E.
      destruct (System_dec s system) as [->|N].
      * now rewrite JsMap_get_delete_same in E.
      * rewrite JsMap_get_delete_other in E by assumption.
        apply (NM s). now exists ents.
  - revert G. apply gone_same; reflexivity.
  - now apply gone_update.
Qed.

Lemma gone_apply_ops e ops (st : ECS') :
  gone e st -> gone e (apply_ops ops st).
Proof.
  revert st. induction ops as [|op ops IH]; intros st G; simpl;
    [assumption|]. apply IH. now apply gone_apply_op.
Qed.


End Deferred.

(** ** Repeated destruction requests *)
Section Idempotence.

Variable Data : Type.

Local Abbreviation ECS' := (ECS Data).
Local Abbreviation skeys := (@JsMap.keys System JsSet.t).
Local Abbreviation sget := (JsMap.get System_dec).
Local Abbreviation eget := (JsMap.get Z.eq_dec).

Lemma filter_filter {A} (f g : A -> bool) (l : list A) :
  filter f (filter g l) = filter (fun x => g x && f x) l.
Proof.
  induction l as [|x l IH]; simpl; [reflexivity|].
  destruct (g x); simpl; [destruct (f x)|]; now rewrite IH.
Qed.

Lemma filter_all {A} (f : A -> bool) (l : list A) :
  (forall x, f x = true) -> filter f l = l.
Proof.
  intros H. induction l as [|x l IH]; simpl; [reflexivity|].
  now rewrite H, IH.
Qed.

Lemma map_values_compose f g (S : @JsMap.t System JsSet.t) :
  map_values f (map_values g S) = map_values (fun k v => f k (g k v)) S.
Proof. unfold map_values. rewrite map_map. reflexivity. Qed.

Lemma map_values_ext f g (S : @JsMap.t System JsSet.t) :
  (forall k v, f k v = g k v) -> map_values f S = map_values g S.
Proof.
  intros H. unfold map_values. apply map_ext. intros [k v]. simpl.
  now rewrite H.
Qed.

Lemma destroy_all_purged q (st : ECS') : destroy_all q st = purged q st.
Proof.
  revert st. induction q as [|e q IH]; intros st; simpl.
  - unfold purged. simpl. rewrite filter_all by reflexivity.
    rewrite with_entities_id.
    rewrite map_values_id; [now rewrite with_systems_id|].
    intros k v _. now apply filter_all.
  - rewrite IH. unfold purged, destroyed, with_systems, with_entities.
    simpl. f_equal.
    + rewrite map_values_compose. apply map_values_ext. intros k v.
      unfold JsSet.delete. rewrite filter_filter.
      apply filter_ext. intros y. rewrite (Z.eqb_sym y e).
      now destruct (Z.eqb e y).
    + unfold JsMap.delete. rewrite filter_filter.
      apply filter_ext. intros [k v]. simpl.
      destruct (Z.eq_dec e k) as [->|N].
      * now rewrite Z.eqb_refl.
      * assert (Z.eqb k e = false) as -> by (apply Z.eqb_neq; congruence).
        reflexivity.
Qed.

Lemma has_ext (q1 q2 : list Entity) :
  (forall x, In x q1 <-> In x q2) ->
  forall x, JsSet.has x q1 = JsSet.has x q2.
Proof.
  intros H x. destruct (JsSet.has x q2) eqn:E.
  - apply JsSet_has_In. apply H. now apply JsSet_has_In.
  - destruct (JsSet.has x q1) eqn:E1; [|reflexivity].
    apply JsSet_has_In, H, JsSet_has_In in E1. congruence.
Qed.

(** The sweep depends on which identifiers are queued, not on how many
    times or in which order. *)
Lemma destroy_all_ext q1 q2 (st : ECS') :
  (forall x, In x q1 <-> In x q2) -> destroy_all q1 st = destroy_all q2 st.
Proof.
  intros H. rewrite !destroy_all_purged. unfold purged.
  pose proof (has_ext q1 q2 H) as E. f_equal.
  - f_equal. apply filter_ext. intros p. now rewrite E.
  - apply map_values_ext. intros k v. apply filter_ext. intros y.
    now rewrite E.
Qed.

Lemma same_but_queue_refl (st : ECS') : same_but_queue st st.
Proof. split; [now destruct st | tauto]. Qed.

Lemma same_but_queue_wf (st1 st2 : ECS') :
  same_but_queue st1 st2 -> wf st2 -> wf st1.
Proof.
  intros (E & _). rewrite E. apply wf_same; reflexivity.
Qed.

Lemma appends_unchanged {A} (m : ECS' -> A * ECS') (st : ECS') :
  entitiesToDestroy (snd (m st)) = entitiesToDestroy st ->
  (forall q, m (with_queue st q) = (fst (m st), with_queue (snd (m st)) q)) ->
  appends m st.
Proof.
  intros Q H. exists []. split; [now rewrite app_nil_r|].
  intros q. now rewrite app_nil_r.
Qed.

Lemma appends_addComponent e c (st : ECS') :
  wf st -> appends (addComponent e c) st.
Proof.
  intros W. destruct (eget e (entities st)) as [cs|] eqn:G.
  - apply appends_unchanged.
    + now rewrite (addComponent_eq Data e c cs st G (proj1 W)).
    + intros q. rewrite (addComponent_eq Data e c cs st G (proj1 W)).
      now rewrite (addComponent_eq Data e c cs (with_queue st q) G (proj1 W)).
  - apply appends_unchanged.
    + now rewrite (addComponent_unregistered Data e c st G).
    + intros q. rewrite (addComponent_unregistered Data e c st G).
      now rewrite (addComponent_unregistered Data e c (with_queue st q) G).
Qed.

Lemma appends_removeComponent e c (st : ECS') :
  wf st -> appends (removeComponent e c) st.
Proof.
  intros W. destruct (eget e (entities st)) as [cs|] eqn:G.
  - apply appends_unchanged.
    + now rewrite (removeComponent_eq Data e c cs st G (proj1 W)).
    + intros q. rewrite (removeComponent_eq Data e c cs st G (proj1 W)).
      now rewrite
        (removeComponent_eq Data e c cs (with_queue st q) G (proj1 W)).
  - apply appends_unchanged.
    + now rewrite (removeComponent_unregistered Data e c st G).
    + intros q. rewrite (removeComponent_unregistered Data e c st G).
      now rewrite (removeComponent_unregistered Data e c (with_queue st q) G).
Qed.

Lemma appends_getComponents e (st : ECS') : appends (getComponents e) st.
Proof.
  apply appends_unchanged.
  - now rewrite entities_getComponents.
  - intros q. rewrite !getComponents_eq. simpl.
    now destruct (eget e (entities st)).
Qed.

Lemma appends_getComponent e t (st : ECS') : appends (getComponent e t) st.
Proof.
  apply appends_unchanged.
  - now rewrite entities_getComponent.
  - intros q. rewrite !getComponent_eq. simpl.
    destruct (eget e (entities st)) as [cs|]; [|reflexivity].
    now destruct (JsMap.get Z.eq_dec (creator_type t) cs).
Qed.

Lemma appends_removeEntity e (st : ECS') : appends (removeEntity e) st.
Proof.
  exists [e]. split; [reflexivity|]. intros q. reflexivity.
Qed.

Lemma appends_addEntity (st : ECS') : appends addEntity st.
Proof. apply appends_unchanged; reflexivity. Qed.

Lemma appends_answer {A} (wrap : A -> Answer Data) (m : M Data A)
    (st : ECS') :
  appends m st -> appends (answer wrap m) st.
Proof.
  intros (extra & Q & H). exists extra. rewrite snd_answer.
  split; [exact Q|]. intros q. unfold answer. rewrite H.
  now destruct (m st) as [[a|err] st'].
Qed.

Lemma appends_exec_call system c (st : ECS') :
  wf st -> appends (exec_call system c) st.
Proof.
  intros W. destruct c; cbn [exec_call].
  - apply appends_answer, appends_addEntity.
  - apply appends_answer, appends_removeEntity.
  - now apply appends_answer, appends_addComponent.
  - now apply appends_answer, appends_removeComponent.
  - apply appends_answer, appends_getComponent.
  - apply appends_answer, appends_getComponents.
  - apply appends_unchanged; reflexivity.
  - apply appends_unchanged; reflexivity.
Qed.

(** Engines that differ only in queues with the same identifiers answer
    every call alike and stay that way. *)
Lemma appends_related {A} (m : ECS' -> A * ECS') (st1 st2 : ECS') :
  same_but_queue st1 st2 -> appends m st2 ->
  fst (m st1) = fst (m st2) /\ same_but_queue (snd (m st1)) (snd (m st2)).
Proof.
  intros (E & I) (extra & Q & H). rewrite E, H. simpl. split; [reflexivity|].
  split.
  - reflexivity.
  - intros x. simpl. rewrite Q, !in_app_iff, I. tauto.
Qed.

Lemma related_run system p (st1 st2 : ECS') :
  wf st2 -> same_but_queue st1 st2 ->
  snd (fst (run system p st1)) = snd (fst (run system p st2))
  /\ same_but_queue (snd (run system p st1)) (snd (run system p st2))
  /\ wf (snd (run system p st2)).
Proof.
  revert st1 st2. induction p as [| err | c k IH]; intros st1 st2 W R;
    simpl; auto.
  destruct (appends_related (exec_call system c) st1 st2 R
              (appends_exec_call system c st2 W)) as (Ea & R').
  pose proof (wf_exec_call Data system c st2 W) as W'.
  destruct (exec_call system c st1) as [a1 s1].
  destruct (exec_call system c st2) as [a2 s2]. simpl in Ea, R', W'.
  subst a2. specialize (IH a1 s1 s2 W' R').
  destruct (run system (k a1) s1) as [[tr1 r1] s1'].
  destruct (run system (k a1) s2) as [[tr2 r2] s2']. exact IH.
Qed.

Lemma related_pass beh todo (st1 st2 : ECS') :
  wf st2 -> same_but_queue st1 st2 ->
  snd (fst (systems_pass beh todo st1)) = snd (fst (systems_pass beh todo st2))
  /\ same_but_queue (snd (systems_pass beh todo st1))
       (snd (systems_pass beh todo st2))
  /\ wf (snd (systems_pass beh todo st2)).
Proof.
  revert st1 st2. induction todo as [|s todo IH]; intros st1 st2 W R;
    simpl; auto.
  assert (Es : systems st1 = systems st2).
  { destruct R as (E & _). now rewrite E. }
  rewrite Es. destruct (sget s (systems st2)) as [ents|]; [|now apply IH].
  destruct (related_run s (beh s ents) st1 st2 W R) as (Er & R' & W').
  destruct (run s (beh s ents) st1) as [[tr1 r1] s1].
  destruct (run s (beh s ents) st2) as [[tr2 r2] s2].
  simpl in Er, R', W'. subst r2. destruct r1 as [[]|err]; [|simpl; auto].
  specialize (IH s1 s2 W' R').
  destruct (systems_pass beh todo s1) as [[tr1' r1'] s1'].
  destruct (systems_pass beh todo s2) as [[tr2' r2'] s2']. exact IH.
Qed.

Lemma related_flush (st1 st2 : ECS') :
  wf st2 -> same_but_queue st1 st2 -> flush st1 = flush st2.
Proof.
  intros W (E & I). rewrite E, flush_with_queue by assumption.
  rewrite (flush_eq Data st2 (proj1 W)).
  now rewrite (destroy_all_ext _ _ st2 I).
Qed.

(** After a frame the two engines have thrown the same error, or returned
    and become equal. *)
Lemma related_update now beh (st1 st2 : ECS') :
  wf st2 -> same_but_queue st1 st2 ->
  fst (update now beh st1) = fst (update now beh st2)
  /\ same_but_queue (snd (update now beh st1)) (snd (update now beh st2))
  /\ (fst (update now beh st2) = Ok tt ->
      snd (update now beh st1) = snd (update now beh st2)).
Proof.
  intros W R. unfold update, update_traced.
  assert (Rt : same_but_queue (tick now st1) (tick now st2)).
  { destruct R as (E & I). split; [|exact I].
    rewrite E at 1. reflexivity. }
  assert (Es : systems (tick now st1) = systems (tick now st2)).
  { destruct R as (E & _). now rewrite E. }
  rewrite Es.
  destruct (related_pass beh (skeys (systems (tick now st2)))
              (tick now st1) (tick now st2) (wf_tick Data now st2 W) Rt)
    as (Er & R' & W').
  destruct (systems_pass beh (skeys (systems (tick now st2))) (tick now st1))
    as [[tr1 r1] s1].
  destruct (systems_pass beh (skeys (systems (tick now st2))) (tick now st2))
    as [[tr2 r2] s2].
  simpl in Er, R', W'. subst r2. destruct r1 as [[]|err].
  - rewrite (related_flush s1 s2 W' R').
    destruct (flush s2) as [r s]. simpl.
    split; [reflexivity|]. split; [apply same_but_queue_refl | reflexivity].
  - simpl. split; [reflexivity|]. split; [exact R' | discriminate].
Qed.

Lemma related_apply_op op (st1 st2 : ECS') :
  wf st2 -> same_but_queue st1 st2 ->
  same_but_queue (apply_op op st1) (apply_op op st2).
Proof.
  intros W R. destruct op; cbn [apply_op].
  - now apply (appends_related addEntity), appends_addEntity.
  - now apply (appends_related (removeEntity entity)), appends_removeEntity.
  - now apply (appends_related (addComponent entity component)),
      appends_addComponent.
  - now apply (appends_related (removeComponent entity component)),
      appends_removeComponent.
  - now apply (appends_related (getComponents entity)), appends_getComponents.
  - now apply (appends_related (getComponent entity componentType)),
      appends_getComponent.
  - apply (appends_related (addSystem system)); [assumption|].
    apply appends_unchanged.
    + now rewrite (addSystem_eq Data system st2 (proj1 W)).
    + intros q. rewrite (addSystem_eq Data system st2 (proj1 W)).
      now rewrite (addSystem_eq Data system (with_queue st2 q) (proj1 W)).
  - apply (appends_related (removeSystem system)); [assumption|].
    apply appends_unchanged; reflexivity.
  - apply (appends_related registerComponent); [assumption|].
    apply appends_unchanged; reflexivity.
  - now apply related_update.
Qed.

Lemma related_apply_ops ops (st1 st2 : ECS') :
  wf st2 -> same_but_queue st1 st2 ->
  same_but_queue (apply_ops ops st1) (apply_ops ops st2)
  /\ wf (apply_ops ops st2).
Proof.
  revert st1 st2. induction ops as [|op ops IH]; intros st1 st2 W R; simpl.
  - auto.
  - apply IH; [now apply wf_apply_op | now apply related_apply_op].
Qed.

(** Asking again for the destruction of an entity whose destruction is
    already pending changes nothing that any later call can tell. *)
Lemma repeated_request_while_pending
    (st : ECS') (e : Entity) (ops : list (Op Data)) (now : Z)
    (beh : Behaviour Data) :
  wf st ->
  In e (entitiesToDestroy st) ->
  fst (update now beh (apply_ops ops (snd (removeEntity e st))))
  = fst (update now beh (apply_ops ops st))
  /\ (fst (update now beh (apply_ops ops st)) = Ok tt ->
      snd (update now beh (apply_ops ops (snd (removeEntity e st))))
      = snd (update now beh (apply_ops ops st))).
Proof.
  intros R I.
  assert (R0 : same_but_queue (snd (removeEntity e st)) st).
  { split; [reflexivity|]. intros x. simpl. rewrite in_app_iff. simpl.
    split; [intros [H | [<- | []]]; assumption | now left]. }
  destruct (related_apply_ops ops _ _ R R0) as (R1 & W1).
  destruct (related_update now beh _ _ W1 R1) as (Er & _ & Es).
  split; [exact Er | exact Es].
Qed.

Lemma appends_apply_op op (st : ECS') :
  wf st -> is_update op = false ->
  appends (fun s => (tt, apply_op op s)) st.
Proof.
  intros W N.
  assert (G : forall A (m : M Data A), appends m st ->
            appends (fun s => (tt, snd (m s))) st).
  { intros A m (extra & Q & H). exists extra. split; [exact Q|].
    intros q. simpl. now rewrite H. }
  destruct op; cbn [apply_op]; try discriminate.
  - apply G, appends_addEntity.
  - apply G, appends_removeEntity.
  - now apply G, appends_addComponent.
  - now apply G, appends_removeComponent.
  - apply G, appends_getComponents.
  - apply G, appends_getComponent.
  - apply G, appends_unchanged.
    + now rewrite (addSystem_eq Data system st (proj1 W)).
    + intros q. rewrite (addSystem_eq Data system st (proj1 W)).
      now rewrite (addSystem_eq Data system (with_queue st q) (proj1 W)).
  - apply G, appends_unchanged; reflexivity.
  - apply G, appends_unchanged; reflexivity.
Qed.

Lemma plus_apply_op e op (st1 st2 : ECS') :
  wf st2 -> is_update op = false -> queue_plus e st1 st2 ->
  queue_plus e (apply_op op st1) (apply_op op st2).
Proof.
  intros W N (E & I1 & I2).
  destruct (appends_apply_op op st2 W N) as (extra & Q & H).
  simpl in Q, H. specialize (H (entitiesToDestroy st1)).
  rewrite <- E in H. injection H as H. rewrite H. simpl.
  split; [reflexivity|]. simpl. rewrite Q.
  split; intros x; rewrite !in_app_iff.
  - intros [K | K]; [left; now apply I1 | now right].
  - intros [K | K]; [destruct (I2 x K); tauto | tauto].
Qed.

Lemma plus_apply_ops e ops ops' :
  extra_requests e ops ops' ->
  forall st1 st2 : ECS',
    wf st2 -> no_update ops -> queue_plus e st1 st2 ->
    queue_plus e (apply_ops ops' st1) (apply_ops ops st2)
    /\ wf (apply_ops ops st2).
Proof.
  induction 1 as [| op ops ops' X IH | ops ops' X IH];
    intros st1 st2 W N R; simpl.
  - auto.
  - inversion N as [|? ? N1 N2]; subst.
    apply IH; [now apply wf_apply_op | assumption |].
    now apply plus_apply_op.
  - apply IH; try assumption. destruct R as (E & I1 & I2).
    split; [|split].
    + simpl. rewrite E at 1. reflexivity.
    + intros x Hx. simpl. apply in_or_app. left. now apply I1.
    + intros x Hx. simpl in Hx. apply in_app_or in Hx.
      destruct Hx as [Hx | [<- | []]]; [now apply I2 | now right].
Qed.

Lemma pending_apply_ops e ops (st : ECS') :
  wf st -> no_update ops ->
  In e (entitiesToDestroy st) \/ In (OpRemoveEntity e) ops ->
  In e (entitiesToDestroy (apply_ops ops st)).
Proof.
  revert st. induction ops as [|op ops IH]; intros st W N H; simpl.
  - destruct H as [H | []]. exact H.
  - inversion N as [|? ? N1 N2]; subst.
    apply IH; [now apply wf_apply_op | assumption |].
    destruct (appends_apply_op op st W N1) as (extra & Q & _).
    simpl in Q. destruct H as [H | [-> | H]].
    + left. rewrite Q. apply in_or_app. now left.
    + left. simpl. apply in_or_app. right. now left.
    + now right.
Qed.

Lemma appends_plus e {A} (m : ECS' -> A * ECS') (st1 st2 : ECS') :
  queue_plus e st1 st2 -> appends m st2 ->
  fst (m st1) = fst (m st2) /\ queue_plus e (snd (m st1)) (snd (m st2)).
Proof.
  intros (E & I1 & I2) (extra & Q & H). rewrite E, H. simpl.
  split; [reflexivity|]. split; [reflexivity|]. simpl. rewrite Q.
  split; intros x; rewrite !in_app_iff.
  - intros [K | K]; [left; now apply I1 | now right].
  - intros [K | K]; [destruct (I2 x K); tauto | tauto].
Qed.

Lemma plus_request e (st1 st2 : ECS') :
  queue_plus e st1 st2 -> queue_plus e (snd (removeEntity e st1)) st2.
Proof.
  intros (E & I1 & I2). split; [|split].
  - simpl. rewrite E at 1. reflexivity.
  - intros x Hx. simpl. apply in_or_app. left. now apply I1.
  - intros x Hx. simpl in Hx. apply in_app_or in Hx.
    destruct Hx as [Hx | [<- | []]]; [now apply I2 | now right].
Qed.

Lemma plus_run e system p p' :
  more_requests e p p' ->
  forall st1 st2 : ECS',
    wf st2 -> queue_plus e st1 st2 ->
    snd (fst (run system p' st1)) = snd (fst (run system p st2))
    /\ queue_plus e (snd (run system p' st1)) (snd (run system p st2))
    /\ wf (snd (run system p st2)).
Proof.
  induction 1 as [| err | c k k' X IH | p p' X IH]; intros st1 st2 W R.
  - simpl. auto.
  - simpl. auto.
  - simpl.
    destruct (appends_plus e (exec_call system c) st1 st2 R
                (appends_exec_call system c st2 W)) as (Ea & R').
    pose proof (wf_exec_call Data system c st2 W) as W'.
    destruct (exec_call system c st1) as [a1 s1].
    destruct (exec_call system c st2) as [a2 s2]. simpl in Ea, R', W'.
    subst a2. specialize (IH a1 s1 s2 W' R').
    destruct (run system (k' a1) s1) as [[tr1 r1] s1'].
    destruct (run system (k a1) s2) as [[tr2 r2] s2']. exact IH.
  - specialize (IH (snd (removeEntity e st1)) st2 W (plus_request e _ _ R)).
    simpl in IH |- *. unfold answer. simpl.
    destruct (run system p'
                (with_queue st1 (entitiesToDestroy st1 ++ [e])))
      as [[tr1 r1] s1'].
    exact IH.
Qed.

Lemma plus_pass e beh beh' todo (st1 st2 : ECS') :
  (forall s ents, more_requests e (beh s ents) (beh' s ents)) ->
  wf st2 -> queue_plus e st1 st2 ->
  snd (fst (systems_pass beh' todo st1))
  = snd (fst (systems_pass beh todo st2))
  /\ queue_plus e (snd (systems_pass beh' todo st1))
       (snd (systems_pass beh todo st2))
  /\ wf (snd (systems_pass beh todo st2)).
Proof.
  intros B. revert st1 st2.
  induction todo as [|s todo IH]; intros st1 st2 W R; simpl; auto.
  assert (Es : systems st1 = systems st2).
  { destruct R as (E & _). now rewrite E. }
  rewrite Es. destruct (sget s (systems st2)) as [ents|]; [|now apply IH].
  destruct (plus_run e s _ _ (B s ents) st1 st2 W R) as (Er & R' & W').
  destruct (run s (beh' s ents) st1) as [[tr1 r1] s1].
  destruct (run s (beh s ents) st2) as [[tr2 r2] s2].
  simpl in Er, R', W'. subst r2. destruct r1 as [[]|err]; [|simpl; auto].
  specialize (IH s1 s2 W' R').
  destruct (systems_pass beh' todo s1) as [[tr1' r1'] s1'].
  destruct (systems_pass beh todo s2) as [[tr2' r2'] s2']. exact IH.
Qed.

(** A request made during a pass is in the queue when the pass ends. *)
Lemma requested_pending e tr (st : ECS') system a st1 :
  wf st -> chain st tr ->
  In (Called system (CallRemoveEntity e) a st1) tr ->
  In e (entitiesToDestroy (last_state st tr)).
Proof.
  revert st. induction tr as [|ev tr IH]; intros st W C H.
  - destruct H.
  - destruct C as (L & C).
    assert (Wev : wf (event_state ev)).
    { destruct ev as [s ents s0 | s c a0 s0]; simpl in *.
      - destruct L as (-> & _). assumption.
      - pose proof (wf_exec_call Data s c st W) as X. now rewrite L in X. }
    destruct H as [-> | H].
    + simpl in *. unfold answer in L. simpl in L. injection L as _ <-.
      destruct (chain_extends Data tr _ Wev C)
        as (_ & _ & (_ & _ & _ & (extra & Q) & _)).
      rewrite Q. simpl. apply in_or_app. left. apply in_or_app. right.
      now left.
    + simpl. now apply IH.
Qed.

(** C6.  Take calls, none of them [update], followed by a frame, and the
    same calls and frame with further [removeEntity(e)] calls put in, by
    the application or by the systems, where [removeEntity(e)] occurs at
    least once before the flush of the first.  Both frames throw or
    return alike, and once they have returned (the flush has run) both
    engines are equal, registry, component store, membership sets and the
    emptied queue included. *)
Theorem C6_destroy_request_idempotent
    (st : ECS') (e : Entity) (ops ops' : list (Op Data)) (now : Z)
    (beh beh' : Behaviour Data) :
  reachable st ->
  no_update ops ->
  extra_requests e ops ops' ->
  (forall s ents, more_requests e (beh s ents) (beh' s ents)) ->
  (In (OpRemoveEntity e) ops
   \/ exists s a st1,
        In (Called s (CallRemoveEntity e) a st1)
           (fst (fst (update_traced now beh (apply_ops ops st))))) ->
  fst (update now beh' (apply_ops ops' st))
  = fst (update now beh (apply_ops ops st))
  /\ (fst (update now beh (apply_ops ops st)) = Ok tt ->
      snd (update now beh' (apply_ops ops' st))
      = snd (update now beh (apply_ops ops st))
      /\ entitiesToDestroy (snd (update now beh (apply_ops ops st))) = []).
Proof.
  intros R N X B I. apply reachable_wf in R.
  assert (R0 : queue_plus e st st).
  { unfold queue_plus. split; [now destruct st | split; auto]. }
  destruct (plus_apply_ops e ops ops' X st st R N R0) as (R1 & W1).
  set (once := apply_ops ops st) in *.
  set (twice := apply_ops ops' st) in *.
  assert (Rt : queue_plus e (tick now twice) (tick now once)).
  { destruct R1 as (E & I1 & I2). split; [|split; assumption].
    rewrite E at 1. reflexivity. }
  pose proof (wf_tick Data now once W1) as Wt.
  destruct (plus_pass e beh beh' (skeys (systems once)) _ _ B Wt Rt)
    as (Er & R' & W').
  rewrite !update_eq. unfold update_traced in *.
  assert (Es : systems (tick now twice) = systems (tick now once)).
  { destruct Rt as (E & _). now rewrite E. }
  rewrite Es. change (systems (tick now once)) with (systems once) in *.
  destruct (systems_pass beh (skeys (systems once)) (tick now once))
    as [[tr2 r2] s2] eqn:P2.
  destruct (systems_pass beh' (skeys (systems once)) (tick now twice))
    as [[tr1 r1] s1].
  simpl in Er, R', W'. subst r1. destruct r2 as [[]|err].
  - assert (Pe : In e (entitiesToDestroy s2)).
    { pose proof (pass_chain Data _ _ _ _ _ _ P2) as (C & L).
      destruct I as [I | (s & a & st1 & I)].
      - destruct (chain_extends Data tr2 _ Wt C)
          as (_ & _ & (_ & _ & _ & (extra & Q) & _)).
        rewrite <- L, Q. apply in_or_app. left.
        apply (pending_apply_ops e ops st R N (or_intror I)).
      - rewrite (flush_eq Data s2 (proj1 W')) in I. simpl in I.
        rewrite <- L. now apply (requested_pending e tr2 _ s a st1 Wt C). }
    assert (Rs : same_but_queue s1 s2).
    { destruct R' as (E & I1 & I2). split; [exact E|].
      intros x. split; [|apply I1].
      intros Hx. destruct (I2 x Hx) as [K | ->]; assumption. }
    rewrite (related_flush s1 s2 W' Rs).
    rewrite (flush_eq Data s2 (proj1 W')). simpl. auto.
  - simpl. split; [reflexivity | discriminate].
Qed.

End Idempotence.

(** ** Membership sets *)
Section Membership.

Variable Data : Type.

Local Abbreviation ECS' := (ECS Data).
Local Abbreviation skeys := (@JsMap.keys System JsSet.t).
Local Abbreviation sget := (JsMap.get System_dec).
Local Abbreviation eget := (JsMap.get Z.eq_dec).

Lemma qualifies_registered entity system (st : ECS') :
  qualifies entity system st -> registered entity st.
Proof.
  intros (cs & G & _). apply registered_get. now exists cs.
Qed.

(** In every engine state, a membership set holds only stored entities
    that qualify, and the set of a system that requires at least one
    component type holds all of them. *)
Lemma membership_invariant (st : ECS') system entity :
  reachable st ->
  (member entity system st ->
   registered entity st /\ qualifies entity system st)
  /\ (system_registered system st ->
      requiredComponents system <> [] ->
      (member entity system st <->
       registered entity st /\ qualifies entity system st)).
Proof.
  intros R. apply reachable_wf in R. destruct R as (ND & LT & SD & CP).
  split.
  - intros H. apply SD in H. split; [|assumption].
    now apply qualifies_registered in H.
  - intros Hs Hne. split.
    + intros H. apply SD in H. split; [|assumption].
      now apply qualifies_registered in H.
    + intros (_ & Q). now apply CP.
Qed.

(** Right after [addSystem], every membership set is exact, whatever its
    system requires. *)
Lemma membership_exact_after_addSystem (st : ECS') system s entity :
  reachable st ->
  system_registered s (snd (addSystem system st)) ->
  (member entity s (snd (addSystem system st)) <->
   registered entity (snd (addSystem system st))
   /\ qualifies entity s (snd (addSystem system st))).
Proof.
  intros R Hs. apply reachable_wf in R.
  rewrite (addSystem_eq Data system st (proj1 R)) in *. simpl in *.
  rewrite (system_added_member Data system st s entity R Hs). split.
  - intros Q. split; [|assumption]. now apply qualifies_registered in Q.
  - tauto.
Qed.

(** Registering a registered system again keeps the keys of [systems] as
    they are and recomputes its set; the set has the same elements as
    before when the system requires at least one component type. *)
Lemma addSystem_again (st : ECS') system :
  reachable st ->
  system_registered system st ->
  fst (addSystem system st) = Ok tt
  /\ JsMap.keys (systems (snd (addSystem system st)))
     = JsMap.keys (systems st)
  /\ entities (snd (addSystem system st)) = entities st
  /\ (forall entity,
        member entity system (snd (addSystem system st)) <->
        qualifies entity system st)
  /\ (requiredComponents system <> [] ->
      forall entity,
        member entity system (snd (addSystem system st)) <->
        member entity system st).
Proof.
  intros R Hs. apply reachable_wf in R.
  rewrite (addSystem_eq Data system st (proj1 R)). simpl.
  assert (Hs' : system_registered system (system_added system st)).
  { unfold system_registered. simpl. rewrite keys_rescan.
    now rewrite JsMap_keys_set_present. }
  pose proof (fun entity =>
                system_added_member Data system st system entity R Hs')
    as X.
  assert (Q : forall entity,
            qualifies entity system (system_added system st)
            <-> qualifies entity system st) by (intros; reflexivity).
  split; [reflexivity|]. split.
  { rewrite keys_rescan. now apply JsMap_keys_set_present. }
  split; [reflexivity|]. split.
  { intros entity. now rewrite X, Q. }
  intros Hne entity. rewrite X, Q.
  destruct R as (ND & LT & SD & CP). split.
  - now apply CP.
  - apply SD.
Qed.

End Membership.

(** * The statements on sample programs *)

Lemma C3_getComponent_after_addComponent_witness :
  fst (addComponent 0 (Sample.position 42) Sample.one_entity) = Ok tt
  /\ getComponent 0 Sample.Position
       (apply_ops [OpAddEntity; OpAddComponent 0 (Sample.tag 7);
                   OpRemoveEntity 0]
          (snd (addComponent 0 (Sample.position 42) Sample.one_entity)))
     = (Ok 42,
        apply_ops [OpAddEntity; OpAddComponent 0 (Sample.tag 7);
                   OpRemoveEntity 0]
          (snd (addComponent 0 (Sample.position 42) Sample.one_entity))).
Proof.
  apply (C3_getComponent_after_addComponent Z Sample.one_entity 0
           (Sample.position 42) Sample.Position).
  - apply reachable_step. apply reachable_new.
  - vm_compute. auto.
  - reflexivity.
  - simpl. repeat split; trivial. intros (_ & H). discriminate H.
Defined.

Lemma C7_frame_delta_witness :
  delta (snd (update 133 Sample.idle
                (apply_ops [OpAddEntity]
                   (snd (update 116 Sample.idle Sample.fresh))))) = 17
  /\ delta (snd (update 116 Sample.idle Sample.fresh)) = 16.
Proof.
  destruct (C7_frame_delta Z Sample.fresh 100 116 133 0 2
              Sample.idle Sample.idle [OpAddEntity] [])
    as ((_ & _ & D2 & _) & (_ & _ & D1)).
  - apply reachable_new.
  - repeat constructor.
  - constructor.
  - split; [exact D2 | exact D1].
Defined.

(** The clock reads 116 at one frame and 90 at the next: the system
    invoked in the second frame is given a delta of -26. *)
Lemma C7_counterexample :
  ~ second_delta_nonnegative 116 90 Sample.idle Sample.idle
      Sample.one_placed.
Proof.
  unfold second_delta_nonnegative. intros H.
  assert (I : In (Invoked Sample.placed [0]
                    (tick 90 (snd (update 116 Sample.idle
                                     Sample.one_placed))))
                (fst (fst (update_traced 90 Sample.idle
                             (snd (update 116 Sample.idle
                                     Sample.one_placed)))))).
  { vm_compute. left. reflexivity. }
  apply H in I. vm_compute in I. apply I. reflexivity.
Qed.

Lemma C9_destroy_unknown_witness :
  destroyEntity 5 Sample.one_entity = (Ok tt, Sample.one_entity)
  /\ flush (with_queue Sample.one_entity [0; 5])
     = flush (with_queue Sample.one_entity [0]).
Proof.
  destruct (C9_destroy_unknown Z Sample.one_entity 5 [0] [])
    as (_ & D & _ & F).
  - apply reachable_step. apply reachable_new.
  - vm_compute. intros [H | []]. discriminate H.
  - split; [exact D | exact F].
Defined.


Lemma C5_error_aborts_frame_witness :
  update 116 Sample.first_raises Sample.two_systems
  = (Threw (SystemFailure 1), tick 116 Sample.two_systems)
  /\ map fst (invocations
                (fst (fst (update_traced 116 Sample.first_raises
                             Sample.two_systems))))
     = [Sample.placed].
Proof.
  destruct (C5_error_aborts_frame Z Sample.two_systems 116
              Sample.first_raises [] [Sample.labelled] Sample.placed []
              [] [] (tick 116 Sample.two_systems)
              (tick 116 Sample.two_systems) (SystemFailure 1))
    as (U & I & _).
  - apply (reachable_step Z (OpAddSystem Sample.labelled)).
    apply (reachable_step Z (OpAddSystem Sample.placed)).
    apply reachable_new.
  - reflexivity.
  - reflexivity.
  - reflexivity.
  - reflexivity.
  - split; [exact U | exact I].
Defined.



(** Entity 0 is asked to be destroyed once by the application and once by
    the system; or three times by the application and twice by the
    system. *)
Lemma C6_destroy_request_idempotent_witness :
  snd (update 116 Sample.destroy_twice
         (apply_ops [OpRemoveEntity 0; OpAddEntity; OpRemoveEntity 0;
                     OpRemoveEntity 0]
            Sample.one_placed))
  = snd (update 116 Sample.destroy_only
           (apply_ops [OpRemoveEntity 0; OpAddEntity] Sample.one_placed)).
Proof.
  destruct (C6_destroy_request_idempotent Z Sample.one_placed 0
              [OpRemoveEntity 0; OpAddEntity]
              [OpRemoveEntity 0; OpAddEntity; OpRemoveEntity 0;
               OpRemoveEntity 0]
              116 Sample.destroy_only Sample.destroy_twice) as (_ & E).
  - apply (reachable_step Z (OpAddSystem Sample.placed)).
    apply (reachable_step Z (OpAddComponent 0 (Sample.position 5))).
    apply (reachable_step Z OpAddEntity).
    apply reachable_new.
  - repeat constructor.
  - apply extra_same, extra_same, extra_more, extra_more, extra_none.
  - intros s ents. apply more_do. intros a.
    apply more_extra, more_return.
  - left. left. reflexivity.
  - apply E. vm_compute. reflexivity.
Defined.

(** C1.  Entity 1 was created after the system that requires nothing was
    registered.  Right after [addComponent(0, position)] it is in the
    store and has every component the system requires, yet it is not in
    the system's membership set, while entity 0 is. *)
Theorem C1_membership_misses_late_entity :
  registeredb 1 Sample.late_entities = true
  /\ qualifiesb 1 Sample.everything Sample.late_entities = true
  /\ memberb 1 Sample.everything Sample.late_entities = false
  /\ memberb 0 Sample.everything Sample.late_entities = true
  /\ JsMap.get System_dec Sample.everything (systems Sample.late_entities)
     = Some [0].
Proof. vm_compute. auto. Qed.

(** C10.  The system that requires nothing is registered and its set is
    empty although entity 0 is in the store; registering it again keeps
    its place and puts entity 0 into its set. *)
Theorem C10_registering_again_changes_membership :
  systems Sample.late_entity = [(Sample.everything, [])]
  /\ registeredb 0 Sample.late_entity = true
  /\ systems (snd (addSystem Sample.everything Sample.late_entity))
     = [(Sample.everything, [0])].
Proof. vm_compute. auto. Qed.

(** The same frame, event by event: entity 0 is in the set of the system
    when it is invoked and after the destruction request, and no longer
    after the component removal. *)
Example destroy_then_strip_membership :
  map (fun ev => memberb 0 Sample.placed (event_state ev))
    (fst (fst (update_traced 116 Sample.destroy_then_strip
                 Sample.one_placed)))
  = [true; true; false].
Proof. vm_compute. reflexivity. Qed.

(** Registration scans the store, and component changes move an entity in
    and out of the set at once. *)
Example membership_follows_components :
  systems Sample.two_entities = [(Sample.labelled, [1])]
  /\ systems (apply_op (OpRemoveComponent 1 (Sample.tag 7))
                Sample.two_entities)
     = [(Sample.labelled, [])]
  /\ systems (apply_ops [OpRemoveComponent 1 (Sample.tag 7);
                         OpAddComponent 0 (Sample.tag 8)]
                Sample.two_entities)
     = [(Sample.labelled, [0])].
Proof. vm_compute. auto. Qed.

(** When no system raises, both systems are invoked, in the order of their
    registration, and the frame returns. *)
Example two_systems_invoked_in_order :
  map fst (invocations
             (fst (fst (update_traced 116 Sample.idle Sample.two_systems))))
  = [Sample.placed; Sample.labelled]
  /\ fst (update 116 Sample.idle Sample.two_systems) = Ok tt.
Proof. vm_compute. auto. Qed.

(** A system that is removed and registered again is invoked last, after
    the system whose first registration came later. *)
Example system_registered_again_is_invoked_last :
  map fst (invocations
             (fst (fst (update_traced 116 Sample.idle
                          (apply_ops Sample.registered_again
                             Sample.fresh)))))
  = [Sample.labelled; Sample.placed]
  /\ registration_order Sample.registered_again
     = [Sample.labelled; Sample.placed]
  /\ first_registration_order Sample.registered_again
     = [Sample.placed; Sample.labelled].
Proof. vm_compute. auto. Qed.

(** A destroyed entity is still seen during the frame of the request and
    is gone afterwards; reading it then throws. *)
Example destroyed_entity_after_frame :
  map (fun ev => registeredb 0 (event_state ev))
    (fst (fst (update_traced 116 Sample.destroy_only Sample.one_placed)))
  = [true; true]
  /\ systems (snd (update 116 Sample.destroy_only Sample.one_placed))
     = [(Sample.placed, [])]
  /\ fst (getComponent 0 Sample.Position
            (snd (update 116 Sample.destroy_only Sample.one_placed)))
     = Threw (UnknownEntity 0).
Proof. vm_compute. auto. Qed.

(** * Further properties of the engine *)
Section Allocation.

Variable Data : Type.

Local Abbreviation ECS' := (ECS Data).
Local Abbreviation skeys := (@JsMap.keys System JsSet.t).
Local Abbreviation sget := (JsMap.get System_dec).
Local Abbreviation eget := (JsMap.get Z.eq_dec).

Lemma counters_destroy_all q (st : ECS') :
  nextComponentType (destroy_all q st) = nextComponentType st.
Proof.
  revert st. induction q as [|e q IH]; intros st; simpl;
    [reflexivity | now rewrite IH].
Qed.

Lemma ctype_exec_call system c (st : ECS') :
  wf st ->
  nextComponentType (snd (exec_call system c st)) = nextComponentType st.
Proof.
  intros W. destruct c; cbn [exec_call]; rewrite ?snd_answer;
    try reflexivity.
  - destruct (eget entity (entities st)) as [cs|] eqn:G.
    + now rewrite (addComponent_eq Data entity component cs st G (proj1 W)).
    + now rewrite addComponent_unregistered.
  - destruct (eget entity (entities st)) as [cs|] eqn:G.
    + now rewrite (removeComponent_eq Data entity component cs st G (proj1 W)).
    + now rewrite removeComponent_unregistered.
  - now rewrite entities_getComponent.
  - now rewrite entities_getComponents.
Qed.

(** Both counters only grow, whatever is called. *)
Lemma counters_update now beh (st : ECS') :
  wf st ->
  nextEntityID st <= nextEntityID (snd (update now beh st))
  /\ nextComponentType (snd (update now beh st)) = nextComponentType st.
Proof.
  intros W. rewrite update_eq. simpl.
  destruct (update_traced now beh st) as [[tr r] st'] eqn:U. simpl.
  destruct (update_traced_inv Data now beh st tr r st' W U)
    as (C & _ & _ & F).
  destruct (chain_extends Data tr _ (wf_tick Data now st W) C)
    as (_ & _ & (_ & _ & _ & _ & _ & L)).
  assert (T : wf (last_state (tick now st) tr)
              /\ nextComponentType (last_state (tick now st) tr)
                 = nextComponentType st).
  { apply (chain_invariant Data
             (fun s => wf s /\ nextComponentType s = nextComponentType st));
      auto using wf_tick.
    intros s c s0 (W0 & E0). split; [now apply wf_exec_call|].
    now rewrite ctype_exec_call. }
  destruct T as (_ & T). simpl in L.
  destruct r as [[]|err]; subst st'; simpl.
  - now rewrite counter_destroy_all, counters_destroy_all.
  - auto.
Qed.

Lemma counters_apply_op op (st : ECS') :
  wf st ->
  nextEntityID st <= nextEntityID (apply_op op st)
  /\ nextComponentType st <= nextComponentType (apply_op op st).
Proof.
  intros W. destruct op; cbn [apply_op].
  - simpl. lia.
  - simpl. lia.
  - pose proof (ctype_exec_call Sample.everything
                  (CallAddComponent entity component) st W) as T.
    cbn [exec_call] in T. rewrite snd_answer in T.
    destruct (extends_addComponent Data entity component st W)
      as (_ & _ & _ & _ & _ & L). lia.
  - pose proof (ctype_exec_call Sample.everything
                  (CallRemoveComponent entity component) st W) as T.
    cbn [exec_call] in T. rewrite snd_answer in T.
    destruct (extends_removeComponent Data entity component st W)
      as (_ & _ & _ & _ & _ & L). lia.
  - rewrite entities_getComponents. lia.
  - rewrite entities_getComponent. lia.
  - rewrite (addSystem_eq Data system st (proj1 W)). simpl. lia.
  - simpl. lia.
  - simpl. lia.
  - destruct (counters_update now beh st W) as (L & T). lia.
Qed.

Lemma counters_apply_ops ops (st : ECS') :
  wf st ->
  nextEntityID st <= nextEntityID (apply_ops ops st)
  /\ nextComponentType st <= nextComponentType (apply_ops ops st).
Proof.
  revert st. induction ops as [|op ops IH]; intros st W; simpl.
  - lia.
  - destruct (IH (apply_op op st) (wf_apply_op Data op st W)) as (A & B).
    destruct (counters_apply_op op st W) as (A' & B'). lia.
Qed.

(** X1.  [addEntity] returns an identifier that is neither in the store nor
    in any membership set, stores it with an empty component map and
    leaves the other entities' components alone; an identifier that has
    ever been in the store is never returned again, whatever is called in
    between, destruction included. *)
Theorem X1_addEntity_fresh (st : ECS') (e0 : Entity) (ops : list (Op Data)) :
  reachable st ->
  fst (addEntity st) = Ok (nextEntityID st)
  /\ ~ registered (nextEntityID st) st
  /\ (forall s, ~ member (nextEntityID st) s st)
  /\ getComponents (nextEntityID st) (snd (addEntity st))
     = (Ok [], snd (addEntity st))
  /\ (forall x cs,
        eget x (entities st) = Some cs ->
        eget x (entities (snd (addEntity st))) = Some cs)
  /\ (registered e0 st -> fst (addEntity (apply_ops ops st)) <> Ok e0).
Proof.
  intros R. apply reachable_wf in R.
  assert (N : ~ registered (nextEntityID st) st).
  { intros H. apply (proj1 (proj2 R)) in H. lia. }
  split; [reflexivity|]. split; [exact N|]. split.
  { intros s H. apply N. now apply (member_registered Data st _ s R). }
  split.
  { rewrite getComponents_eq. unfold addEntity. simpl.
    now rewrite JsMap_get_set_same. }
  split.
  { intros x cs G. unfold addEntity. simpl.
    rewrite JsMap_get_set_other; [exact G|]. intros ->.
    apply N. apply registered_get. now exists cs. }
  intros H. apply (proj1 (proj2 R)) in H.
  destruct (counters_apply_ops ops st R) as (L & _).
  unfold addEntity. simpl. intros [= E]. lia.
Qed.

(** X2.  Two calls of [registerComponent], with anything called in
    between, return creators with different type identifiers; components
    made by the two creators and added to one entity are both read back
    with their own payload. *)
Theorem X2_registerComponent_distinct
    (st st2 : ECS') (ops : list (Op Data)) (A B : ComponentCreator)
    (e : Entity) (a b : Data) :
  reachable st ->
  fst (registerComponent st) = Ok A ->
  fst (registerComponent (apply_ops ops (snd (registerComponent st))))
  = Ok B ->
  reachable st2 ->
  registered e st2 ->
  creator_type A <> creator_type B
  /\ (let st3 :=
        snd (addComponent e (create B b)
               (snd (addComponent e (create A a) st2))) in
      getComponent e A st3 = (Ok a, st3)
      /\ getComponent e B st3 = (Ok b, st3)).
Proof.
  intros R EA EB R2 Hreg. apply reachable_wf in R. apply reachable_wf in R2.
  assert (N : creator_type A <> creator_type B).
  { unfold registerComponent in EA, EB. simpl in EA, EB.
    injection EA as <-. injection EB as <-. simpl.
    assert (W1 : wf (snd (registerComponent st)))
      by (revert R; apply wf_same; reflexivity).
    destruct (counters_apply_ops ops _ W1) as (_ & L). simpl in L.
    unfold registerComponent in L. simpl in L. lia. }
  split; [exact N|]. cbv zeta.
  apply registered_get in Hreg. destruct Hreg as (cs & G).
  rewrite (addComponent_eq Data e (create A a) cs st2 G (proj1 R2)). simpl.
  set (cs1 := JsMap.set Z.eq_dec (creator_type A) (create A a) cs).
  assert (W1 : wf (updated e cs1 st2)).
  { apply wf_updated; [assumption|]. apply registered_get. now exists cs. }
  assert (G1 : eget e (entities (updated e cs1 st2)) = Some cs1).
  { simpl. apply JsMap_get_set_same. }
  rewrite (addComponent_eq Data e (create B b) cs1 _ G1 (proj1 W1)). simpl.
  set (cs2 := JsMap.set Z.eq_dec (creator_type B) (create B b) cs1).
  assert (G2 : eget e (entities (updated e cs2 (updated e cs1 st2)))
               = Some cs2).
  { simpl. apply JsMap_get_set_same. }
  rewrite !getComponent_eq, G2. unfold cs2. split.
  - rewrite JsMap_get_set_other by exact N. unfold cs1.
    now rewrite JsMap_get_set_same.
  - now rewrite JsMap_get_set_same.
Qed.

(** X3.  A call of [addComponent] or [removeComponent] that throws leaves
    the engine exactly as it was, and [getComponents] and [getComponent]
    never change it, whether they return or throw. *)
Theorem X3_failed_calls_change_nothing
    (st : ECS') (e : Entity) (c : Component Data) (t : ComponentCreator) :
  (fst (addComponent e c st) <> Ok tt -> snd (addComponent e c st) = st)
  /\ (fst (removeComponent e c st) <> Ok tt ->
      snd (removeComponent e c st) = st)
  /\ snd (getComponents e st) = st
  /\ snd (getComponent e t st) = st.
Proof.
  split; [|split; [|split]].
  - destruct (eget e (entities st)) as [cs|] eqn:G.
    + destruct (addComponent_frame Data e c cs st G) as (s' & -> & _).
      intros H. now contradiction H.
    + now rewrite addComponent_unregistered.
  - destruct (eget e (entities st)) as [cs|] eqn:G.
    + destruct (removeComponent_frame Data e c cs st G) as (s' & -> & _).
      intros H. now contradiction H.
    + now rewrite removeComponent_unregistered.
  - apply entities_getComponents.
  - apply entities_getComponent.
Qed.

End Allocation.

Section ComponentCalls.

Variable Data : Type.

Local Abbreviation ECS' := (ECS Data).
Local Abbreviation skeys := (@JsMap.keys System JsSet.t).
Local Abbreviation sget := (JsMap.get System_dec).
Local Abbreviation eget := (JsMap.get Z.eq_dec).

Lemma JsMap_set_same_value {K V} (K_dec : forall a b : K, {a = b} + {a <> b})
    (k : K) (v : V) (m : JsMap.t) :
  JsMap.get K_dec k m = Some v -> JsMap.set K_dec k v m = m.
Proof.
  induction m as [|[k' v'] m IH]; simpl; [discriminate|].
  destruct (K_dec k k') as [->|N].
  - now intros [= ->].
  - intros H. now rewrite IH.
Qed.

Lemma JsMap_set_set {K V} (K_dec : forall a b : K, {a = b} + {a <> b})
    (k : K) (v v' : V) (m : JsMap.t) :
  JsMap.set K_dec k v (JsMap.set K_dec k v' m) = JsMap.set K_dec k v m.
Proof.
  induction m as [|[k0 v0] m IH]; simpl.
  - destruct (K_dec k k); [reflexivity | congruence].
  - destruct (K_dec k k0) as [->|N]; simpl.
    + destruct (K_dec k0 k0); [reflexivity | congruence].
    + destruct (K_dec k k0); [congruence | now rewrite IH].
Qed.

Lemma JsMap_keys_set_same {K V} (K_dec : forall a b : K, {a = b} + {a <> b})
    (k : K) (v : V) (m : JsMap.t) :
  In k (JsMap.keys m) -> JsMap.keys (JsMap.set K_dec k v m) = JsMap.keys m.
Proof. apply JsMap_keys_set_present. Qed.

Lemma JsMap_delete_set_absent {K V}
    (K_dec : forall a b : K, {a = b} + {a <> b})
    (k : K) (v : V) (m : JsMap.t) :
  JsMap.get K_dec k m = None ->
  JsMap.delete K_dec k (JsMap.set K_dec k v m) = m.
Proof.
  unfold JsMap.delete. induction m as [|[k' v'] m IH]; simpl.
  - intros _. destruct (K_dec k k); [reflexivity | congruence].
  - destruct (K_dec k k') as [->|N]; [discriminate|]. intros H. simpl.
    destruct (K_dec k k'); [congruence|]. now rewrite IH.
Qed.

Lemma JsSet_add_present x (s : JsSet.t) : In x s -> JsSet.add x s = s.
Proof.
  intros H. unfold JsSet.add. apply JsSet_has_In in H. now rewrite H.
Qed.

Lemma JsSet_add_absent x (s : JsSet.t) :
  ~ In x s -> JsSet.add x s = s ++ [x].
Proof.
  intros H. unfold JsSet.add. destruct (JsSet.has x s) eqn:E;
    [|reflexivity]. apply JsSet_has_In in E. contradiction.
Qed.

Lemma JsSet_delete_last x (s : JsSet.t) :
  ~ In x s -> JsSet.delete x (s ++ [x]) = s.
Proof.
  intros H. unfold JsSet.delete. rewrite filter_app. simpl.
  rewrite Z.eqb_refl. simpl. rewrite app_nil_r.
  now apply JsSet_delete_absent.
Qed.

Lemma has_set {V} (ty k : Z) (v : V) (m : JsMap.t) :
  JsMap.has Z.eq_dec ty m = true ->
  JsMap.has Z.eq_dec ty (JsMap.set Z.eq_dec k v m) = true.
Proof.
  unfold JsMap.has. destruct (Z.eq_dec ty k) as [->|N].
  - now rewrite JsMap_get_set_same.
  - now rewrite JsMap_get_set_other.
Qed.

(** A larger component map satisfies every system the smaller one did. *)
Lemma hasAllRequired_set system k (c : Component Data) cs :
  hasAllRequired system cs = true ->
  hasAllRequired system (JsMap.set Z.eq_dec k c cs) = true.
Proof.
  unfold hasAllRequired. rewrite !forallb_forall. intros H ty Hty.
  apply has_set. now apply H.
Qed.

(** X4.  [addComponent(e, c)] on a stored entity writes the one slot
    [(e, c.type)]: every other slot of every entity keeps its component,
    the store keeps its entities in the same order, the membership of every
    other entity in every set is as before, and the queue, the clock
    fields and the order of the systems are untouched. *)
Theorem X4_addComponent_local (st : ECS') (e : Entity) (c : Component Data) :
  reachable st ->
  registered e st ->
  let st' := snd (addComponent e c st) in
  component_at e (type c) st' = Some c
  /\ (forall e' ty, ~ (e' = e /\ ty = type c) ->
        component_at e' ty st' = component_at e' ty st)
  /\ JsMap.keys (entities st') = JsMap.keys (entities st)
  /\ (forall x s, x <> e -> (member x s st' <-> member x s st))
  /\ JsMap.keys (systems st') = JsMap.keys (systems st)
  /\ entitiesToDestroy st' = entitiesToDestroy st
  /\ start st' = start st /\ delta st' = delta st
  /\ nextEntityID st' = nextEntityID st.
Proof.
  intros R Hreg. apply reachable_wf in R. cbv zeta.
  pose proof Hreg as Hreg'.
  apply registered_get in Hreg. destruct Hreg as (cs & G).
  rewrite (addComponent_eq Data e c cs st G (proj1 R)). simpl.
  repeat match goal with |- _ /\ _ => split end; try reflexivity.
  - unfold component_at. simpl.
    now rewrite JsMap_get_set_same, JsMap_get_set_same.
  - intros e' ty N.
    apply (component_at_updated Data e' ty e cs st G). intros ->.
    apply JsMap_get_set_other. intros E. apply N. auto.
  - now apply JsMap_keys_set_present.
  - intros x s N. rewrite member_updated. tauto.
  - apply keys_map_values.
Qed.

(** X5.  After [removeComponent(e, c)] on a stored entity, reading the type
    of [c] from [e] throws the missing-component error; every other slot
    keeps its component and every other entity its memberships; when [e]
    had no component of that type the store is left as it was. *)
Theorem X5_removeComponent_removes
    (st : ECS') (e : Entity) (c : Component Data) (t : ComponentCreator) :
  reachable st ->
  registered e st ->
  creator_type t = type c ->
  let st' := snd (removeComponent e c st) in
  fst (removeComponent e c st) = Ok tt
  /\ getComponent e t st' = (Threw (MissingComponent e (type c)), st')
  /\ (forall e' ty, ~ (e' = e /\ ty = type c) ->
        component_at e' ty st' = component_at e' ty st)
  /\ JsMap.keys (entities st') = JsMap.keys (entities st)
  /\ (forall x s, x <> e -> (member x s st' <-> member x s st))
  /\ (component_at e (type c) st = None -> entities st' = entities st).
Proof.
  intros R Hreg Ht. apply reachable_wf in R. cbv zeta.
  pose proof Hreg as Hreg'.
  apply registered_get in Hreg. destruct Hreg as (cs & G).
  rewrite (removeComponent_eq Data e c cs st G (proj1 R)). simpl.
  repeat match goal with |- _ /\ _ => split end; try reflexivity.
  - rewrite getComponent_eq. simpl. rewrite JsMap_get_set_same, Ht.
    now rewrite JsMap_get_delete_same.
  - intros e' ty N.
    apply (component_at_updated Data e' ty e cs st G). intros ->.
    apply JsMap_get_delete_other. intros E. apply N. auto.
  - now apply JsMap_keys_set_present.
  - intros x s N. rewrite member_updated. tauto.
  - unfold component_at. rewrite G. intros H.
    rewrite JsMap_delete_absent
      by (apply (JsMap_get_None Z.eq_dec); exact H).
    now apply JsMap_set_same_value.
Qed.

(** X6.  Right after [addComponent(e, c)] or [removeComponent(e, c)] on a
    stored entity, [e] is in the membership set of a registered system
    exactly when its components include all that the system requires,
    for every system, also one that requires nothing. *)
Theorem X6_touched_entity_exact
    (st : ECS') (e : Entity) (c : Component Data) (s : System) :
  reachable st ->
  registered e st ->
  system_registered s st ->
  (member e s (snd (addComponent e c st))
   <-> qualifies e s (snd (addComponent e c st)))
  /\ (member e s (snd (removeComponent e c st))
      <-> qualifies e s (snd (removeComponent e c st))).
Proof.
  intros R Hreg Hs. apply reachable_wf in R.
  apply registered_get in Hreg. destruct Hreg as (cs & G).
  rewrite (addComponent_eq Data e c cs st G (proj1 R)).
  rewrite (removeComponent_eq Data e c cs st G (proj1 R)). simpl.
  rewrite !member_updated, !qualifies_updated_same. tauto.
Qed.

(** X7.  Adding a component of a type the entity did not have and removing
    it again gives back the engine as it was, the membership sets
    included, when every set that [e] qualifies for already holds it. *)
Theorem X7_add_then_remove_component
    (st : ECS') (e : Entity) (c : Component Data) :
  reachable st ->
  registered e st ->
  component_at e (type c) st = None ->
  (forall s, system_registered s st -> qualifies e s st -> member e s st) ->
  removeComponent e c (snd (addComponent e c st)) = (Ok tt, st).
Proof.
  intros R Hreg Hnone Hex. apply reachable_wf in R.
  apply registered_get in Hreg. destruct Hreg as (cs & G).
  unfold component_at in Hnone. rewrite G in Hnone.
  rewrite (addComponent_eq Data e c cs st G (proj1 R)). simpl.
  set (cs1 := JsMap.set Z.eq_dec (type c) c cs).
  assert (W1 : wf (updated e cs1 st)).
  { apply wf_updated; [assumption|]. apply registered_get. now exists cs. }
  assert (G1 : eget e (entities (updated e cs1 st)) = Some cs1).
  { simpl. apply JsMap_get_set_same. }
  rewrite (removeComponent_eq Data e c cs1 _ G1 (proj1 W1)). f_equal.
  unfold cs1. rewrite JsMap_delete_set_absent by assumption.
  unfold updated. simpl.
  rewrite JsMap_set_set, (JsMap_set_same_value Z.eq_dec e cs _ G).
  change (with_systems st
            (map_values (recompute e cs)
               (map_values
                  (recompute e (JsMap.set Z.eq_dec (type c) c cs))
                  (systems st))) = st).
  rewrite map_values_compose.
  rewrite map_values_id; [apply with_systems_id|].
  intros k ents Hin.
  assert (Gk : sget k (systems st) = Some ents)
    by (apply JsMap_In_get; [exact (proj1 R) | exact Hin]).
  assert (Hk : system_registered k st)
    by (apply system_registered_get; now exists ents).
  unfold recompute. destruct (hasAllRequired k cs) eqn:HA.
  - rewrite (hasAllRequired_set k (type c) c cs HA).
    assert (I : In e ents).
    { destruct (Hex k Hk) as (ents' & G' & I'); [now exists cs|].
      rewrite Gk in G'. now injection G' as <-. }
    now rewrite (JsSet_add_present e ents I), (JsSet_add_present e ents I).
  - assert (I : ~ In e ents).
    { intros I. destruct R as (_ & _ & SD & _).
      destruct (SD k e) as (cs' & G' & HA'); [now exists ents|].
      rewrite G in G'. injection G' as <-. congruence. }
    destruct (hasAllRequired k (JsMap.set Z.eq_dec (type c) c cs)).
    + rewrite JsSet_add_absent by assumption. now apply JsSet_delete_last.
    + now rewrite (JsSet_delete_absent e ents I),
        (JsSet_delete_absent e ents I).
Qed.

End ComponentCalls.

Section SystemCalls.

Variable Data : Type.

Local Abbreviation ECS' := (ECS Data).
Local Abbreviation skeys := (@JsMap.keys System JsSet.t).
Local Abbreviation sget := (JsMap.get System_dec).
Local Abbreviation eget := (JsMap.get Z.eq_dec).

Lemma invocations_In (tr : list (Event Data)) s ents :
  In (s, ents) (invocations tr) -> exists sti, In (Invoked s ents sti) tr.
Proof.
  induction tr as [|[s' ents' st' | s' c a st'] tr IH]; simpl.
  - tauto.
  - intros [[= -> ->] | H].
    + exists st'. now left.
    + destruct (IH H) as (sti & I). exists sti. now right.
  - intros H. destruct (IH H) as (sti & I). exists sti. now right.
Qed.

(** Whatever a frame invokes is registered when the frame starts, and is
    handed the set stored under its key in a state that satisfies the
    invariant. *)
Lemma invoked_in_frame now beh (st : ECS') s ents sti :
  wf st ->
  In (Invoked s ents sti) (fst (fst (update_traced now beh st))) ->
  wf sti /\ sget s (systems sti) = Some ents /\ system_registered s st.
Proof.
  intros W H.
  destruct (update_traced now beh st) as [[tr r] st'] eqn:U. simpl in H.
  destruct (update_traced_inv Data now beh st tr r st' W U) as (C & _).
  destruct (chain_extends Data tr _ (wf_tick Data now st W) C) as (F & _).
  rewrite Forall_forall in F. destruct (F _ H) as (Wi & X). simpl in Wi, X.
  pose proof (chain_invoked Data tr _ C s ents sti H) as G.
  split; [exact Wi|]. split; [exact G|].
  destruct X as (_ & _ & K & _). simpl in K. unfold system_registered.
  rewrite <- K. apply (JsMap_get_In_keys System_dec). now exists ents.
Qed.

Lemma delete_map_values f system (S : @JsMap.t System JsSet.t) :
  JsMap.delete System_dec system (map_values f S)
  = map_values f (JsMap.delete System_dec system S).
Proof.
  unfold JsMap.delete, map_values.
  induction S as [|[k v] S IH]; simpl; [reflexivity|].
  destruct (System_dec system k); simpl; now rewrite IH.
Qed.

Lemma delete_rescan (E : @JsMap.t Entity (Components Data)) system l S :
  JsMap.delete System_dec system (rescan E l S)
  = rescan E l (JsMap.delete System_dec system S).
Proof.
  unfold rescan. revert S. induction l as [|e l IH]; intros S; simpl.
  - reflexivity.
  - rewrite IH. f_equal. unfold rescan_step.
    destruct (eget e E); [apply delete_map_values | reflexivity].
Qed.

(** Rescanning changes nothing when every set already holds exactly the
    qualifying entities. *)
Lemma rescan_exact (st : ECS') l :
  wf st ->
  (forall s x, system_registered s st -> qualifies x s st -> member x s st) ->
  rescan (entities st) l (systems st) = systems st.
Proof.
  intros W Hex. unfold rescan. induction l as [|e l IH]; simpl.
  - reflexivity.
  - assert (E : rescan_step (entities st) (systems st) e = systems st).
    { unfold rescan_step. destruct (eget e (entities st)) as [cs|] eqn:G;
        [|reflexivity].
      apply map_values_id. intros k ents Hin.
      assert (Gk : sget k (systems st) = Some ents)
        by (apply JsMap_In_get; [exact (proj1 W) | exact Hin]).
      unfold recompute. destruct (hasAllRequired k cs) eqn:HA.
      - apply JsSet_add_present.
        destruct (Hex k e) as (ents' & G' & I').
        + apply system_registered_get. now exists ents.
        + now exists cs.
        + rewrite Gk in G'. now injection G' as <-.
      - apply JsSet_delete_absent. intros I.
        destruct W as (_ & _ & SD & _).
        destruct (SD k e) as (cs' & G' & HA'); [now exists ents|].
        rewrite G in G'. injection G' as <-. congruence. }
    rewrite E. exact IH.
Qed.

(** X8.  [removeSystem(s)] never fails; afterwards [s] is not registered,
    the other systems keep their order and their sets, the store and the
    queue are untouched, and no later frame invokes [s]; when [s] was not
    registered the engine is left exactly as it was. *)
Theorem X8_removeSystem
    (st : ECS') (s : System) (now : Z) (beh : Behaviour Data) :
  reachable st ->
  let st' := snd (removeSystem s st) in
  fst (removeSystem s st) = Ok tt
  /\ ~ system_registered s st'
  /\ JsMap.keys (systems st')
     = filter (fun s' => if System_dec s s' then false else true)
         (JsMap.keys (systems st))
  /\ (forall s', s' <> s -> sget s' (systems st') = sget s' (systems st))
  /\ entities st' = entities st
  /\ entitiesToDestroy st' = entitiesToDestroy st
  /\ (~ system_registered s st -> st' = st)
  /\ ~ In s (map fst (invocations
                        (fst (fst (update_traced now beh st'))))).
Proof.
  intros R. apply reachable_wf in R. cbv zeta.
  assert (N : ~ system_registered s (snd (removeSystem s st))).
  { unfold system_registered, removeSystem, modify. simpl.
    rewrite (JsMap_In_keys_delete System_dec). tauto. }
  repeat match goal with |- _ /\ _ => split end; try reflexivity.
  - exact N.
  - apply keys_delete_filter.
  - intros s' Hs'. unfold removeSystem, modify. simpl.
    now apply JsMap_get_delete_other.
  - intros H. unfold removeSystem, modify. simpl.
    rewrite JsMap_delete_absent by exact H. apply with_systems_id.
  - intros H. apply in_map_iff in H. destruct H as ([s0 ents] & E & H).
    simpl in E. subst s0. apply invocations_In in H.
    destruct H as (sti & H).
    apply invoked_in_frame in H; [|now apply wf_removeSystem].
    now apply N.
Qed.

(** X9.  Registering a system that was not registered and removing it
    again gives back the engine as it was, when every membership set
    already holds every entity that qualifies for it. *)
Theorem X9_add_then_remove_system (st : ECS') (s : System) :
  reachable st ->
  ~ system_registered s st ->
  (forall s' x, system_registered s' st -> qualifies x s' st ->
                member x s' st) ->
  removeSystem s (snd (addSystem s st)) = (Ok tt, st).
Proof.
  intros R N Hex. apply reachable_wf in R.
  rewrite (addSystem_eq Data s st (proj1 R)).
  unfold removeSystem, modify, system_added. simpl. f_equal.
  change (with_systems st
            (JsMap.delete System_dec s
               (rescan (entities st) (JsMap.keys (entities st))
                  (JsMap.set System_dec s [] (systems st)))) = st).
  rewrite delete_rescan.
  rewrite JsMap_delete_set_absent
    by (apply (JsMap_get_None System_dec); exact N).
  rewrite (rescan_exact st _ R Hex). apply with_systems_id.
Qed.

(** X10.  The flush at the end of a frame destroys exactly what is queued:
    a queued identifier ends up in neither the store nor any membership
    set, every other entity keeps its components and its memberships, the
    systems keep their order, and the queue is empty afterwards; with an
    empty queue the flush changes nothing. *)
Theorem X10_flush_exact (st : ECS') :
  reachable st ->
  let st' := snd (flush st) in
  fst (flush st) = Ok tt
  /\ entitiesToDestroy st' = []
  /\ (forall e, In e (entitiesToDestroy st) -> absent e st')
  /\ (forall e, ~ In e (entitiesToDestroy st) ->
        eget e (entities st') = eget e (entities st)
        /\ forall s, member e s st' <-> member e s st)
  /\ JsMap.keys (systems st') = JsMap.keys (systems st)
  /\ (entitiesToDestroy st = [] -> st' = st).
Proof.
  intros R. apply reachable_wf in R. cbv zeta.
  rewrite (flush_eq Data st (proj1 R)). simpl.
  repeat match goal with |- _ /\ _ => split end; try reflexivity.
  - intros e He. split.
    + intros H.
      change (registered e (destroy_all (entitiesToDestroy st) st)) in H.
      apply registered_destroy_all in H. tauto.
    + intros s H.
      change (member e s (destroy_all (entitiesToDestroy st) st)) in H.
      apply member_destroy_all in H. tauto.
  - intros e He. split; [now apply get_destroy_all|]. intros s.
    change (member e s (destroy_all (entitiesToDestroy st) st)
            <-> member e s st).
    rewrite member_destroy_all. tauto.
  - apply keys_destroy_all.
  - intros E. rewrite E. simpl. destruct st. simpl in E. now subst.
Qed.

(** What the engine hands to a system can be read. *)
Lemma handed_entities_read
    (st : ECS') (now : Z) (beh : Behaviour Data)
    (s : System) (ents : JsSet.t) (sti : ECS') (e : Entity) :
  wf st ->
  In (Invoked s ents sti) (fst (fst (update_traced now beh st))) ->
  In e ents ->
  registered e sti
  /\ qualifies e s sti
  /\ forall t, In (creator_type t) (requiredComponents s) ->
       exists component,
         component_at e (creator_type t) sti = Some component
         /\ getComponent e t sti = (Ok (data component), sti).
Proof.
  intros R H I.
  destruct (invoked_in_frame now beh st s ents sti R H) as (Wi & G & _).
  assert (M : member e s sti) by now exists ents.
  pose proof (proj1 (proj2 (proj2 Wi)) s e M) as Q.
  split; [now apply (member_registered Data sti e s Wi)|].
  split; [exact Q|].
  intros t Ht. destruct Q as (cs & Gc & HA).
  unfold hasAllRequired in HA. rewrite forallb_forall in HA.
  specialize (HA _ Ht). unfold JsMap.has in HA.
  destruct (JsMap.get Z.eq_dec (creator_type t) cs) as [comp|] eqn:Gt;
    [|discriminate].
  exists comp. unfold component_at. rewrite getComponent_eq, Gc, Gt. auto.
Qed.

(** X11.  Whenever a frame invokes a system, also after earlier systems of
    the same frame changed entities and components, every entity of the
    set it hands over is in the store and has every component the system
    requires, so reading any required component of it succeeds. *)
Theorem X11_handed_entities_qualify
    (st : ECS') (now : Z) (beh : Behaviour Data)
    (s : System) (ents : JsSet.t) (sti : ECS') (e : Entity) :
  reachable st ->
  In (Invoked s ents sti) (fst (fst (update_traced now beh st))) ->
  In e ents ->
  registered e sti
  /\ qualifies e s sti
  /\ forall t, In (creator_type t) (requiredComponents s) ->
       exists component,
         component_at e (creator_type t) sti = Some component
         /\ getComponent e t sti = (Ok (data component), sti).
Proof.
  intros R. apply reachable_wf in R. now apply handed_entities_read.
Qed.

(** X12.  [RenderSystem.update] never throws in a frame: when the engine
    invokes the render system, its reads of the position and the colour of
    every entity it was handed all succeed, and they leave the engine as
    it was. *)
Theorem X12_RenderSystem_update_succeeds
    (PositionComponent ColorComponent : ComponentCreator) (id : Z)
    (st : ECS') (now : Z) (beh : Behaviour Data)
    (ents : JsSet.t) (sti : ECS') :
  reachable st ->
  In (Invoked (RenderSystem PositionComponent ColorComponent id) ents sti)
     (fst (fst (update_traced now beh st))) ->
  snd (fst (run (RenderSystem PositionComponent ColorComponent id)
              (RenderSystem_update PositionComponent ColorComponent ents)
              sti)) = Ok tt
  /\ snd (run (RenderSystem PositionComponent ColorComponent id)
            (RenderSystem_update PositionComponent ColorComponent ents) sti)
     = sti.
Proof.
  intros R H. apply reachable_wf in R.
  set (rs := RenderSystem PositionComponent ColorComponent id) in *.
  assert (Q : forall e, In e ents ->
            (exists c, getComponent e PositionComponent sti
                       = (Ok (data c), sti))
            /\ (exists c, getComponent e ColorComponent sti
                          = (Ok (data c), sti))).
  { intros e I.
    destruct (handed_entities_read st now beh rs ents sti e R H I)
      as (_ & _ & HQ).
    split.
    - destruct (HQ PositionComponent) as (c & _ & G); [|now exists c].
      simpl. unfold RenderSystem_required.
      rewrite JsSet_In_add, JsSet_In_add. tauto.
    - destruct (HQ ColorComponent) as (c & _ & G); [|now exists c].
      simpl. unfold RenderSystem_required. rewrite JsSet_In_add. tauto. }
  clear H. induction ents as [|e ents IH]; simpl.
  - auto.
  - destruct (Q e (or_introl eq_refl)) as ((c1 & G1) & (c2 & G2)).
    unfold answer. rewrite G1. simpl. unfold answer. rewrite G2.
    destruct (run rs
                (RenderSystem_update PositionComponent ColorComponent ents)
                sti) as [[tr r] st'] eqn:Rn.
    simpl. apply IH. intros x Hx. apply Q. now right.
Qed.

End SystemCalls.

Section Registration.

Variable Data : Type.

Local Abbreviation ECS' := (ECS Data).
Local Abbreviation skeys := (@JsMap.keys System JsSet.t).
Local Abbreviation sget := (JsMap.get System_dec).
Local Abbreviation eget := (JsMap.get Z.eq_dec).

(** X15.  In every state the engine can be in, an entity found in a
    membership set is in the store and has every component the system
    requires; for a registered system that requires at least one component
    type the converse holds too, so its set is exactly the qualifying
    entities of the store. *)
Theorem X15_membership_sets_are_sound
    (st : ECS') (s : System) (e : Entity) :
  reachable st ->
  (member e s st -> registered e st /\ qualifies e s st)
  /\ (system_registered s st ->
      requiredComponents s <> [] ->
      (member e s st <-> registered e st /\ qualifies e s st)).
Proof.
  intros R. apply reachable_wf in R. destruct R as (ND & LT & SD & CP).
  assert (Q : qualifies e s st -> registered e st).
  { intros (cs & G & _). apply registered_get. now exists cs. }
  split.
  - intros H. apply SD in H. auto.
  - intros Hs Hne. split.
    + intros H. apply SD in H. auto.
    + intros (_ & H). now apply CP.
Qed.

(** X16.  [addSystem(s)] never fails and leaves the store and the queue
    alone; a system that was not registered goes to the end of the order
    of invocation and a registered one keeps its place; afterwards the set
    of every registered system holds exactly the stored entities that have
    all the components it requires. *)
Theorem X16_addSystem_scans (st : ECS') (s : System) :
  reachable st ->
  let st' := snd (addSystem s st) in
  fst (addSystem s st) = Ok tt
  /\ system_registered s st'
  /\ JsMap.keys (systems st')
     = (if in_dec System_dec s (JsMap.keys (systems st))
        then JsMap.keys (systems st)
        else JsMap.keys (systems st) ++ [s])
  /\ entities st' = entities st
  /\ entitiesToDestroy st' = entitiesToDestroy st
  /\ (forall s' x, system_registered s' st' ->
        (member x s' st' <-> registered x st' /\ qualifies x s' st')).
Proof.
  intros R. apply reachable_wf in R. cbv zeta.
  rewrite (addSystem_eq Data s st (proj1 R)). simpl.
  assert (K : skeys (systems (system_added s st))
              = (if in_dec System_dec s (skeys (systems st))
                 then skeys (systems st) else skeys (systems st) ++ [s])).
  { simpl. rewrite keys_rescan.
    destruct (in_dec System_dec s (skeys (systems st))) as [I|I].
    - now apply JsMap_keys_set_present.
    - now apply JsMap_keys_set_absent. }
  repeat match goal with |- _ /\ _ => split end; try reflexivity.
  - unfold system_registered. rewrite K.
    destruct (in_dec System_dec s (skeys (systems st))) as [I|I];
      [exact I | apply in_or_app; right; now left].
  - exact K.
  - intros s' x Hs'.
    rewrite (system_added_member Data s st s' x R Hs'). split; [|tauto].
    intros Q. split; [|exact Q]. destruct Q as (cs & G & _).
    apply registered_get. now exists cs.
Qed.

End Registration.

Section Spawning.

Variable Data : Type.
Variables PositionComponent VelocityComponent ColorComponent
  : ComponentCreator.

Local Abbreviation ECS' := (ECS Data).
Local Abbreviation skeys := (@JsMap.keys System JsSet.t).
Local Abbreviation sget := (JsMap.get System_dec).
Local Abbreviation eget := (JsMap.get Z.eq_dec).
Local Abbreviation spawn' :=
  (spawn PositionComponent VelocityComponent ColorComponent).
Local Abbreviation populate' :=
  (populate PositionComponent VelocityComponent ColorComponent).
Local Abbreviation spawned' :=
  (@spawned Data PositionComponent VelocityComponent ColorComponent).

Lemma system_registered_updated s e cs (st : ECS') :
  system_registered s (updated e cs st) <-> system_registered s st.
Proof.
  unfold system_registered. simpl. now rewrite keys_map_values.
Qed.

Lemma spawn_spec (d : Data * Data * Data) (st : ECS') :
  wf st ->
  exists st',
    spawn' d st = (Ok tt, st')
    /\ wf st'
    /\ nextEntityID st' = nextEntityID st + 1
    /\ eget (nextEntityID st) (entities st') = Some (spawned' d)
    /\ (forall x, x <> nextEntityID st ->
          eget x (entities st') = eget x (entities st))
    /\ (forall s, member (nextEntityID st) s st' <->
                  system_registered s st
                  /\ hasAllRequired s (spawned' d) = true)
    /\ (forall x s, x <> nextEntityID st ->
          (member x s st' <-> member x s st))
    /\ JsMap.keys (systems st') = JsMap.keys (systems st)
    /\ entitiesToDestroy st' = entitiesToDestroy st.
Proof.
  intros W. set (e := nextEntityID st).
  pose proof (wf_addEntity Data st W) as W0.
  set (st0 := snd (addEntity st)) in *.
  assert (G0 : eget e (entities st0) = Some []).
  { unfold st0, addEntity. simpl. apply JsMap_get_set_same. }
  set (c1 := create PositionComponent (fst (fst d))).
  set (c2 := create VelocityComponent (snd (fst d))).
  set (c3 := create ColorComponent (snd d)).
  set (cs1 := JsMap.set Z.eq_dec (type c1) c1 []).
  set (cs2 := JsMap.set Z.eq_dec (type c2) c2 cs1).
  set (cs3 := JsMap.set Z.eq_dec (type c3) c3 cs2).
  assert (R0 : registered e st0) by (apply registered_get; now exists []).
  pose proof (wf_updated Data e cs1 st0 W0 R0) as W1.
  assert (R1 : registered e (updated e cs1 st0))
    by now apply registered_updated.
  pose proof (wf_updated Data e cs2 _ W1 R1) as W2.
  assert (R2 : registered e (updated e cs2 (updated e cs1 st0)))
    by now apply registered_updated.
  pose proof (wf_updated Data e cs3 _ W2 R2) as W3.
  exists (updated e cs3 (updated e cs2 (updated e cs1 st0))).
  split.
  { unfold spawn. unfold bind at 1.
    change (addEntity st) with (Ok e, st0). cbv beta iota.
    fold c1 c2 c3. unfold bind at 1.
    assert (E1 : addComponent e c1 st0 = (Ok tt, updated e cs1 st0))
      by exact (addComponent_eq Data e c1 [] st0 G0 (proj1 W0)).
    assert (E2 : addComponent e c2 (updated e cs1 st0)
                 = (Ok tt, updated e cs2 (updated e cs1 st0))).
    { apply (addComponent_eq Data e c2 cs1); [|exact (proj1 W1)].
      simpl. apply JsMap_get_set_same. }
    assert (E3 : addComponent e c3 (updated e cs2 (updated e cs1 st0))
                 = (Ok tt, updated e cs3 (updated e cs2 (updated e cs1 st0)))).
    { apply (addComponent_eq Data e c3 cs2); [|exact (proj1 W2)].
      simpl. apply JsMap_get_set_same. }
    rewrite E1. unfold bind at 1. rewrite E2. exact E3. }
  split; [exact W3|]. split; [reflexivity|]. split.
  { simpl. apply JsMap_get_set_same. }
  split.
  { intros x N. simpl. rewrite !JsMap_get_set_other by exact N.
    reflexivity. }
  split.
  { intros s. rewrite member_updated, !system_registered_updated.
    unfold system_registered. simpl. fold e. fold cs3.
    change (spawned' d) with cs3. tauto. }
  split.
  { intros x s N. rewrite !member_updated. fold e.
    unfold member. simpl. tauto. }
  split; [|reflexivity].
  simpl. now rewrite !keys_map_values.
Qed.

Lemma populate_spec (ds : list (Data * Data * Data)) :
  forall st : ECS',
    wf st ->
    exists st',
      populate' ds st = (Ok tt, st')
      /\ wf st'
      /\ nextEntityID st' = nextEntityID st + Z.of_nat (length ds)
      /\ (forall i d, nth_error ds i = Some d ->
            eget (nextEntityID st + Z.of_nat i) (entities st')
            = Some (spawned' d)
            /\ forall s,
                 member (nextEntityID st + Z.of_nat i) s st' <->
                 system_registered s st
                 /\ hasAllRequired s (spawned' d) = true)
      /\ (forall x, x < nextEntityID st ->
            eget x (entities st') = eget x (entities st)
            /\ forall s, member x s st' <-> member x s st)
      /\ JsMap.keys (systems st') = JsMap.keys (systems st)
      /\ entitiesToDestroy st' = entitiesToDestroy st.
Proof.
  induction ds as [|d ds IH]; intros st W.
  - exists st. simpl. split; [reflexivity|]. split; [exact W|].
    split; [lia|]. split; [intros [|i] d H; discriminate|].
    split; [intros x _; split; [reflexivity | tauto]|]. auto.
  - destruct (spawn_spec d st W)
      as (st1 & E1 & W1 & N1 & G1 & O1 & M1 & MO1 & K1 & Q1).
    destruct (IH st1 W1) as (st' & E' & W' & N' & I' & O' & K' & Q').
    exists st'. split.
    { unfold populate in *. simpl. unfold bind. now rewrite E1. }
    split; [exact W'|]. split.
    { rewrite N', N1. simpl length. lia. }
    split.
    { intros i d0 Hi. destruct i as [|i].
      - simpl in Hi. injection Hi as <-. rewrite Z.add_0_r.
        destruct (O' (nextEntityID st)) as (Eg & Em); [lia|].
        split; [now rewrite Eg|]. intros s. now rewrite Em.
      - simpl in Hi. destruct (I' i d0 Hi) as (Eg & Em).
        replace (nextEntityID st + Z.of_nat (S i))
          with (nextEntityID st1 + Z.of_nat i) by lia.
        split; [exact Eg|]. intros s. rewrite Em.
        unfold system_registered. now rewrite K1. }
    split.
    { intros x Hx. destruct (O' x) as (Eg & Em); [lia|].
      split.
      - rewrite Eg. apply O1. lia.
      - intros s. rewrite Em. apply MO1. lia. }
    split; congruence.
Qed.

Lemma spawned_has_all d :
  forall ty,
    In ty [creator_type PositionComponent; creator_type VelocityComponent;
           creator_type ColorComponent] ->
    JsMap.has Z.eq_dec ty (spawned' d) = true.
Proof.
  intros ty H. unfold spawned. simpl in H.
  destruct H as [<- | [<- | [<- | []]]].
  - apply has_set, has_set. unfold JsMap.has.
    now rewrite JsMap_get_set_same.
  - apply has_set. unfold JsMap.has. now rewrite JsMap_get_set_same.
  - unfold JsMap.has. now rewrite JsMap_get_set_same.
Qed.

(** X13.  The loop that creates the particles never throws.  The entities
    it creates get consecutive identifiers from the counter on, each with
    exactly the position, velocity and colour it was given, and each is at
    once in the set of every registered system whose requirements those
    three cover, the render and the physics system among them; the
    entities that existed before keep their components and memberships. *)
Theorem X13_populate
    (ds : list (Data * Data * Data)) (st : ECS') :
  reachable st ->
  let st' := snd (populate' ds st) in
  fst (populate' ds st) = Ok tt
  /\ nextEntityID st' = nextEntityID st + Z.of_nat (length ds)
  /\ (forall i d, nth_error ds i = Some d ->
        eget (nextEntityID st + Z.of_nat i) (entities st')
        = Some (spawned' d)
        /\ (forall s,
              member (nextEntityID st + Z.of_nat i) s st' <->
              system_registered s st
              /\ hasAllRequired s (spawned' d) = true)
        /\ (forall id,
              system_registered
                (RenderSystem PositionComponent ColorComponent id) st ->
              member (nextEntityID st + Z.of_nat i)
                (RenderSystem PositionComponent ColorComponent id) st')
        /\ (forall id,
              system_registered
                (PhysicsSystem PositionComponent VelocityComponent
                   ColorComponent id) st ->
              member (nextEntityID st + Z.of_nat i)
                (PhysicsSystem PositionComponent VelocityComponent
                   ColorComponent id) st'))
  /\ (forall x, registered x st ->
        eget x (entities st') = eget x (entities st)
        /\ forall s, member x s st' <-> member x s st)
  /\ JsMap.keys (systems st') = JsMap.keys (systems st)
  /\ entitiesToDestroy st' = entitiesToDestroy st.
Proof.
  intros R. apply reachable_wf in R. cbv zeta.
  destruct (populate_spec ds st R)
    as (st' & -> & W' & N' & I' & O' & K' & Q').
  simpl. split; [reflexivity|]. split; [exact N'|]. split.
  { intros i d Hi. destruct (I' i d Hi) as (Eg & Em).
    split; [exact Eg|]. split; [exact Em|]. split.
    - intros id Hs. apply Em. split; [exact Hs|].
      unfold hasAllRequired. apply forallb_forall. intros ty Hty.
      apply spawned_has_all. simpl in Hty. unfold RenderSystem_required in Hty.
      rewrite !JsSet_In_add in Hty. simpl in *. intuition.
    - intros id Hs. apply Em. split; [exact Hs|].
      unfold hasAllRequired. apply forallb_forall. intros ty Hty.
      apply spawned_has_all. simpl in Hty.
      unfold PhysicsSystem_required in Hty.
      rewrite !JsSet_In_add in Hty. simpl in *. intuition. }
  split; [|split; assumption].
  intros x Hx. apply O'. now apply (proj1 (proj2 R)).
Qed.

End Spawning.

Section RuleTable.

Variable Magnitude : Type.
Variable zero : Magnitude.

Local Abbreviation Rule := (Rules.Rule Magnitude).
Local Abbreviation key :=
  (fun r : Rules.Rule Magnitude => (Rules.from r, Rules.to r)).
Local Abbreviation fill_pair := (Rules.fill_pair zero).
Local Abbreviation fill_rules := (Rules.fill_rules zero).
Local Abbreviation grows := (Rules.grows zero).

Lemma Color_eqb_eq (a b : Rules.Color) : Rules.Color_eqb a b = true <-> a = b.
Proof. destruct a, b; simpl; split; intros H; congruence. Qed.

Lemma find_rule_Some a b (R : list Rule) r :
  Rules.find_rule a b R = Some r ->
  In r R /\ Rules.from r = a /\ Rules.to r = b.
Proof.
  unfold Rules.find_rule. intros H. apply find_some in H.
  destruct H as (I & E). apply andb_true_iff in E.
  destruct E as (E1 & E2). apply Color_eqb_eq in E1, E2. auto.
Qed.

Lemma find_rule_None a b (R : list Rule) :
  Rules.find_rule a b R = None <-> ~ In (a, b) (map key R).
Proof.
  unfold Rules.find_rule. split.
  - intros H I. apply in_map_iff in I. destruct I as (r & E & I).
    apply (find_none _ _ H) in I. injection E as <- <-.
    rewrite (proj2 (Color_eqb_eq _ _) eq_refl) in I.
    rewrite (proj2 (Color_eqb_eq _ _) eq_refl) in I. discriminate.
  - intros H.
    destruct (find (fun rule => Rules.Color_eqb (Rules.from rule) a
                                && Rules.Color_eqb (Rules.to rule) b) R)
      as [r|] eqn:F; [|reflexivity].
    exfalso. apply H. apply (find_rule_Some a b R r) in F.
    destruct F as (I & <- & <-). now apply (in_map key).
Qed.

Lemma find_rule_app a b (R R' : list Rule) r :
  Rules.find_rule a b R = Some r -> Rules.find_rule a b (R ++ R') = Some r.
Proof.
  unfold Rules.find_rule. induction R as [|x R IH]; simpl; [discriminate|].
  destruct (Rules.Color_eqb (Rules.from x) a
            && Rules.Color_eqb (Rules.to x) b); [trivial | exact IH].
Qed.

Lemma find_rule_last a b (R : list Rule) :
  Rules.find_rule a b R = None ->
  Rules.find_rule a b
    (R ++ [{| Rules.from := a; Rules.to := b; Rules.magnitude := zero |}])
  = Some {| Rules.from := a; Rules.to := b; Rules.magnitude := zero |}.
Proof.
  unfold Rules.find_rule. induction R as [|x R IH]; simpl.
  - intros _. rewrite (proj2 (Color_eqb_eq a a) eq_refl).
    now rewrite (proj2 (Color_eqb_eq b b) eq_refl).
  - destruct (Rules.Color_eqb (Rules.from x) a
              && Rules.Color_eqb (Rules.to x) b); [discriminate | exact IH].
Qed.

Lemma grows_refl cs1 cs2 R : grows cs1 cs2 R R.
Proof.
  split; [|split; auto]. exists []. split; [now rewrite app_nil_r|].
  intros r [].
Qed.

Lemma grows_trans cs1 cs2 R1 R2 R3 :
  grows cs1 cs2 R1 R2 -> grows cs1 cs2 R2 R3 -> grows cs1 cs2 R1 R3.
Proof.
  intros ((x1 & E1 & F1) & K1 & N1) ((x2 & E2 & F2) & K2 & N2).
  split; [|split; auto].
  exists (x1 ++ x2). split; [now rewrite E2, E1, app_assoc|].
  intros r H. apply in_app_or in H. destruct H; auto.
Qed.

Lemma grows_weaken cs1 cs2 cs1' cs2' R R' :
  incl cs1 cs1' -> incl cs2 cs2' -> grows cs1 cs2 R R' ->
  grows cs1' cs2' R R'.
Proof.
  intros I1 I2 ((x & E & F) & K & N). split; [|split; auto].
  exists x. split; [exact E|]. intros r H.
  destruct (F r H) as (M & A & B). auto.
Qed.

Lemma fill_pair_grows a b (R : list Rule) :
  grows [a] [b] R (fill_pair a R b)
  /\ exists r, Rules.find_rule a b (fill_pair a R b) = Some r.
Proof.
  unfold Rules.fill_pair.
  destruct (Rules.find_rule a b R) as [r|] eqn:F.
  - split; [apply grows_refl | now exists r].
  - split; [|eexists; now apply find_rule_last].
    split; [|split].
    + eexists. split; [reflexivity|]. intros r [<- | []]. simpl. auto.
    + intros x y r H. now apply find_rule_app.
    + intros ND. rewrite map_app. simpl.
      apply NoDup_app; [exact ND | repeat constructor; intros [] |].
      intros p Hp [<- | []]. apply find_rule_None in F. contradiction.
Qed.

Lemma inner_grows a l (R : list Rule) :
  grows [a] l R (fold_left (fill_pair a) l R)
  /\ forall b, In b l ->
       exists r, Rules.find_rule a b (fold_left (fill_pair a) l R) = Some r.
Proof.
  revert R. induction l as [|b l IH]; intros R; simpl.
  - split; [apply grows_refl | tauto].
  - destruct (fill_pair_grows a b R) as (G1 & (r1 & F1)).
    destruct (IH (fill_pair a R b)) as (G2 & F2).
    split.
    + apply (grows_trans _ _ _ (fill_pair a R b)).
      * apply (grows_weaken [a] [b]); auto using incl_refl.
        intros x [<- | []]. now left.
      * apply (grows_weaken [a] l); auto using incl_refl, incl_tl.
    + intros b' [<- | H]; [|now apply F2].
      exists r1. now apply (proj1 (proj2 G2)).
Qed.

Lemma outer_grows l cs (R : list Rule) :
  grows l cs R
    (fold_left (fun acc color => fold_left (fill_pair color) cs acc) l R)
  /\ forall a b, In a l -> In b cs ->
       exists r,
         Rules.find_rule a b
           (fold_left (fun acc color => fold_left (fill_pair color) cs acc)
              l R) = Some r.
Proof.
  revert R. induction l as [|a l IH]; intros R; simpl.
  - split; [apply grows_refl | tauto].
  - destruct (inner_grows a cs R) as (G1 & F1).
    destruct (IH (fold_left (fill_pair a) cs R)) as (G2 & F2).
    split.
    + apply (grows_trans _ _ _ (fold_left (fill_pair a) cs R)).
      * apply (grows_weaken [a] cs); auto using incl_refl.
        intros x [<- | []]. now left.
      * apply (grows_weaken l cs); auto using incl_refl, incl_tl.
    + intros a' b [<- | H] Hb; [|now apply F2].
      destruct (F1 b Hb) as (r & F). exists r.
      now apply (proj1 (proj2 G2)).
Qed.

Lemma fill_rules_fixed l cs (R : list Rule) :
  (forall a b, In a l -> In b cs -> Rules.find_rule a b R <> None) ->
  fold_left (fun acc color => fold_left (fill_pair color) cs acc) l R = R.
Proof.
  induction l as [|a l IH]; intros H; simpl; [reflexivity|].
  assert (E : forall l', incl l' cs -> fold_left (fill_pair a) l' R = R).
  { induction l' as [|b l' IH']; intros I; simpl; [reflexivity|].
    unfold Rules.fill_pair at 2.
    destruct (Rules.find_rule a b R) eqn:F.
    - apply IH'. intros x Hx. apply I. now right.
    - exfalso. apply (H a b); [now left | apply I; now left | exact F]. }
  rewrite (E cs (incl_refl cs)). apply IH.
  intros a' b Ha Hb. apply H; [now right | exact Hb].
Qed.

(** X14.  The loops of [main] that fill the table of rules only append
    rules, each with magnitude 0 and for a pair of the given colours, and
    keep what every search found before.  Afterwards every ordered pair of
    those colours has a rule, found by the search used by the physics
    system; a table with at most one rule per pair stays so; running the
    loops again changes nothing; and from an empty table the three colours
    give nine rules. *)
Theorem X14_fill_rules (cs : list Rules.Color) (R : list Rule) :
  let R' := fill_rules cs R in
  (exists extra,
     R' = R ++ extra
     /\ forall r, In r extra ->
          Rules.magnitude r = zero
          /\ In (Rules.from r) cs /\ In (Rules.to r) cs)
  /\ (forall a b, In a cs -> In b cs ->
        exists r, Rules.find_rule a b R' = Some r
                  /\ Rules.from r = a /\ Rules.to r = b)
  /\ (forall a b r, Rules.find_rule a b R = Some r ->
                    Rules.find_rule a b R' = Some r)
  /\ (NoDup (map key R) -> NoDup (map key R'))
  /\ fill_rules cs R' = R'
  /\ length (fill_rules Rules.colors []) = 9%nat.
Proof.
  cbv zeta. unfold Rules.fill_rules.
  destruct (outer_grows cs cs R) as ((X & K & N) & F).
  split; [exact X|]. split.
  { intros a b Ha Hb. destruct (F a b Ha Hb) as (r & E). exists r.
    split; [exact E|]. now apply find_rule_Some in E. }
  split; [exact K|]. split; [exact N|]. split; [|reflexivity].
  apply fill_rules_fixed. intros a b Ha Hb.
  destruct (F a b Ha Hb) as (r & E). rewrite E. discriminate.
Qed.

End RuleTable.

(** * The further statements on sample programs *)

Lemma reachable_apply_ops (Data : Type) (ops : list (Op Data))
    (st : ECS Data) :
  reachable st -> reachable (apply_ops ops st).
Proof.
  revert st. induction ops as [|op ops IH]; intros st R; simpl.
  - exact R.
  - apply IH. now apply reachable_step.
Qed.

Lemma X1_addEntity_fresh_witness :
  fst (addEntity Sample.one_entity) = Ok 1
  /\ fst (addEntity
            (apply_ops [OpRemoveEntity 0; OpUpdate 116 Sample.idle;
                        OpAddEntity]
               Sample.one_entity)) <> Ok 0.
Proof.
  destruct (X1_addEntity_fresh Z Sample.one_entity 0
              [OpRemoveEntity 0; OpUpdate 116 Sample.idle; OpAddEntity])
    as (A & _ & _ & _ & _ & F).
  - apply reachable_step. apply reachable_new.
  - split; [exact A | apply F; vm_compute; auto].
Defined.

Lemma X2_registerComponent_distinct_witness :
  let st3 :=
    snd (addComponent 0 (create {| creator_type := 2 |} 7)
           (snd (addComponent 0 (create {| creator_type := 0 |} 42)
                   Sample.one_entity))) in
  getComponent 0 {| creator_type := 0 |} st3 = (Ok 42, st3)
  /\ getComponent 0 {| creator_type := 2 |} st3 = (Ok 7, st3).
Proof.
  destruct (X2_registerComponent_distinct Z (new_ECS Z 100 0 0)
              Sample.one_entity [OpRegisterComponent; OpAddEntity]
              {| creator_type := 0 |} {| creator_type := 2 |} 0 42 7)
    as (_ & G).
  - apply reachable_new.
  - reflexivity.
  - reflexivity.
  - apply reachable_step. apply reachable_new.
  - vm_compute. auto.
  - exact G.
Defined.

Lemma X4_addComponent_local_witness :
  component_at 0 0
    (snd (addComponent 0 (Sample.position 42) Sample.one_placed))
  = Some (Sample.position 42)
  /\ JsMap.keys
       (entities (snd (addComponent 0 (Sample.position 42)
                         Sample.one_placed)))
     = [0].
Proof.
  destruct (X4_addComponent_local Z Sample.one_placed 0
              (Sample.position 42)) as (A & _ & K & _).
  - unfold Sample.one_placed. apply reachable_apply_ops.
    apply reachable_new.
  - vm_compute. auto.
  - split; [exact A | exact K].
Defined.

Lemma X5_removeComponent_removes_witness :
  fst (removeComponent 0 (Sample.position 5) Sample.one_placed) = Ok tt
  /\ getComponent 0 Sample.Position
       (snd (removeComponent 0 (Sample.position 5) Sample.one_placed))
     = (Threw (MissingComponent 0 0),
        snd (removeComponent 0 (Sample.position 5) Sample.one_placed)).
Proof.
  destruct (X5_removeComponent_removes Z Sample.one_placed 0
              (Sample.position 5) Sample.Position) as (A & G & _).
  - unfold Sample.one_placed. apply reachable_apply_ops.
    apply reachable_new.
  - vm_compute. auto.
  - reflexivity.
  - split; [exact A | exact G].
Defined.

Lemma X6_touched_entity_exact_witness :
  (member 0 Sample.placed
     (snd (addComponent 0 (Sample.tag 7) Sample.one_placed))
   <-> qualifies 0 Sample.placed
         (snd (addComponent 0 (Sample.tag 7) Sample.one_placed)))
  /\ (member 0 Sample.placed
        (snd (removeComponent 0 (Sample.tag 7) Sample.one_placed))
      <-> qualifies 0 Sample.placed
            (snd (removeComponent 0 (Sample.tag 7) Sample.one_placed))).
Proof.
  apply (X6_touched_entity_exact Z Sample.one_placed 0 (Sample.tag 7)
           Sample.placed).
  - unfold Sample.one_placed. apply reachable_apply_ops.
    apply reachable_new.
  - vm_compute. auto.
  - vm_compute. auto.
Defined.

Lemma X7_add_then_remove_component_witness :
  removeComponent 0 (Sample.tag 7)
    (snd (addComponent 0 (Sample.tag 7) Sample.one_placed))
  = (Ok tt, Sample.one_placed).
Proof.
  apply (X7_add_then_remove_component Z Sample.one_placed 0 (Sample.tag 7)).
  - unfold Sample.one_placed. apply reachable_apply_ops.
    apply reachable_new.
  - vm_compute. auto.
  - reflexivity.
  - intros s [<- | []] _. exists [0]. split; [reflexivity | now left].
Defined.

Lemma X8_removeSystem_witness :
  fst (removeSystem Sample.placed Sample.two_systems) = Ok tt
  /\ JsMap.keys
       (systems (snd (removeSystem Sample.placed Sample.two_systems)))
     = [Sample.labelled]
  /\ ~ In Sample.placed
         (map fst
            (invocations
               (fst (fst (update_traced 116 Sample.idle
                            (snd (removeSystem Sample.placed
                                    Sample.two_systems))))))).
Proof.
  destruct (X8_removeSystem Z Sample.two_systems Sample.placed 116
              Sample.idle) as (A & _ & K & _ & _ & _ & _ & I).
  - unfold Sample.two_systems. apply reachable_apply_ops.
    apply reachable_new.
  - split; [exact A | split; [exact K | exact I]].
Defined.

Lemma X9_add_then_remove_system_witness :
  removeSystem Sample.everything
    (snd (addSystem Sample.everything Sample.two_systems))
  = (Ok tt, Sample.two_systems).
Proof.
  apply (X9_add_then_remove_system Z Sample.two_systems Sample.everything).
  - unfold Sample.two_systems. apply reachable_apply_ops.
    apply reachable_new.
  - vm_compute. intros [H | [H | []]]; discriminate H.
  - intros s x _ (cs & G & _). discriminate G.
Defined.

Lemma X10_flush_exact_witness :
  fst (flush (apply_ops [OpRemoveEntity 0] Sample.one_placed)) = Ok tt
  /\ entitiesToDestroy
       (snd (flush (apply_ops [OpRemoveEntity 0] Sample.one_placed))) = []
  /\ absent 0 (snd (flush (apply_ops [OpRemoveEntity 0] Sample.one_placed))).
Proof.
  destruct (X10_flush_exact Z (apply_ops [OpRemoveEntity 0]
                                 Sample.one_placed))
    as (A & Q & G & _).
  - apply reachable_apply_ops. unfold Sample.one_placed.
    apply reachable_apply_ops. apply reachable_new.
  - split; [exact A | split; [exact Q | apply G; vm_compute; auto]].
Defined.

Lemma X11_handed_entities_qualify_witness :
  registered 0 (tick 116 Sample.one_placed)
  /\ qualifies 0 Sample.placed (tick 116 Sample.one_placed).
Proof.
  destruct (X11_handed_entities_qualify Z Sample.one_placed 116 Sample.idle
              Sample.placed [0] (tick 116 Sample.one_placed) 0)
    as (R & Q & _).
  - unfold Sample.one_placed. apply reachable_apply_ops.
    apply reachable_new.
  - vm_compute. auto.
  - vm_compute. auto.
  - split; [exact R | exact Q].
Defined.

Lemma X12_RenderSystem_update_succeeds_witness :
  snd (fst (run Particles.renderSystem
              (RenderSystem_update Particles.PositionComponent
                 Particles.ColorComponent [0])
              (tick 116 Particles.rendering))) = Ok tt
  /\ update 116 Particles.render Particles.rendering
     = (Ok tt, tick 116 Particles.rendering).
Proof.
  destruct (X12_RenderSystem_update_succeeds Z Particles.PositionComponent
              Particles.ColorComponent 0 Particles.rendering 116
              Particles.render [0] (tick 116 Particles.rendering))
    as (A & _).
  - unfold Particles.rendering. apply reachable_apply_ops.
    apply reachable_new.
  - vm_compute. auto.
  - split; [exact A | reflexivity].
Defined.

Lemma X13_populate_witness :
  fst (populate Particles.PositionComponent Particles.VelocityComponent
         Particles.ColorComponent [(10, 0, 1); (20, 0, 2)] Particles.ecs)
  = Ok tt
  /\ nextEntityID Particles.two_particles = 2
  /\ member 1 Particles.physicsSystem Particles.two_particles
  /\ member 0 Particles.renderSystem Particles.two_particles.
Proof.
  destruct (X13_populate Z Particles.PositionComponent
              Particles.VelocityComponent Particles.ColorComponent
              [(10, 0, 1); (20, 0, 2)] Particles.ecs)
    as (A & N & P & _).
  - unfold Particles.ecs. apply reachable_apply_ops. apply reachable_new.
  - split; [exact A|]. split; [exact N|]. split.
    + destruct (P 1%nat (20, 0, 2) eq_refl) as (_ & _ & _ & F).
      apply (F 1). vm_compute. auto.
    + destruct (P 0%nat (10, 0, 1) eq_refl) as (_ & _ & F & _).
      apply (F 0). vm_compute. auto.
Defined.

Lemma X15_membership_sets_are_sound_witness :
  registered 1 Sample.two_entities
  /\ qualifies 1 Sample.labelled Sample.two_entities
  /\ ~ member 0 Sample.labelled Sample.two_entities.
Proof.
  destruct (X15_membership_sets_are_sound Z Sample.two_entities
              Sample.labelled 1) as (S1 & _).
  - unfold Sample.two_entities. apply reachable_apply_ops.
    apply reachable_new.
  - destruct S1 as (R & Q).
    + exists [1]. split; [reflexivity | now left].
    + split; [exact R|]. split; [exact Q|].
      intros (ents & G & I). vm_compute in G. injection G as <-.
      destruct I as [H | []]. discriminate H.
Defined.

Lemma X16_addSystem_scans_witness :
  fst (addSystem Sample.labelled Sample.late_entities) = Ok tt
  /\ member 0 Sample.everything
       (snd (addSystem Sample.labelled Sample.late_entities))
  /\ member 1 Sample.everything
       (snd (addSystem Sample.labelled Sample.late_entities)).
Proof.
  destruct (X16_addSystem_scans Z Sample.late_entities Sample.labelled)
    as (A & _ & _ & _ & _ & S).
  - unfold Sample.late_entities. apply reachable_apply_ops.
    apply reachable_new.
  - split; [exact A|]. split.
    + apply S; [vm_compute; auto|]. split; [vm_compute; auto|].
      eexists. split; reflexivity.
    + apply S; [vm_compute; auto|]. split; [vm_compute; auto|].
      eexists. split; reflexivity.
Defined.
